(** * X-CTF platform: sandbox lifecycle and firewall control plane

    A shallow embedding of the parts of the X-CTF platform that its
    specification makes claims about: the nftables-backed firewall
    service, the challenge service (flag submission, sandbox
    get-or-create and provisioning), the periodic tasks, the login
    view and the IP-mismatch middleware.

    Python code that raises is modelled in a state-and-exception monad;
    the packet filter, the file system and the relational store are
    explicit components of the state that is threaded through. *)

From Stdlib Require Import Ascii String ZArith Lia.
From stdpp Require Import base gmap sets list strings pretty.

Local Open Scope string_scope.
Local Open Scope Z_scope.

(** ** Exceptions and the state/exception monad *)

Inductive exn : Type :=
| RuntimeError
| ValueError
| DoesNotExist
| SandboxCreateTimeoutException
| DockerError
| CalledProcessError
| OSError.

Inductive res (A : Type) : Type :=
| Ok (a : A)
| Raise (e : exn).
Arguments Ok {A} a.
Arguments Raise {A} e.

(** A computation over a state [S]: like Python, a raised exception
    does not undo the state changes made before it. *)
Definition M (S A : Type) : Type := S -> res A * S.

Definition ret {S A} (a : A) : M S A := fun s => (Ok a, s).

Definition raise {S A} (e : exn) : M S A := fun s => (Raise e, s).

Definition bind {S A B} (c : M S A) (k : A -> M S B) : M S B :=
  fun s => match c s with
           | (Ok a, s') => k a s'
           | (Raise e, s') => (Raise e, s')
           end.

(** [try: c except Exception: h] *)
Definition try_except {S A} (c : M S A) (h : exn -> M S A) : M S A :=
  fun s => match c s with
           | (Ok a, s') => (Ok a, s')
           | (Raise e, s') => h e s'
           end.

(** [try: c finally: f] *)
Definition try_finally {S A} (c : M S A) (f : M S unit) : M S A :=
  fun s => match c s with
           | (r, s') => match f s' with
                        | (Ok _, s'') => (r, s'')
                        | (Raise e, s'') => (Raise e, s'')
                        end
           end.

Definition get {S} : M S S := fun s => (Ok s, s).
Definition put {S} (s : S) : M S unit := fun _ => (Ok tt, s).
Definition gets {S A} (f : S -> A) : M S A := fun s => (Ok (f s), s).
Definition modify {S} (f : S -> S) : M S unit := fun s => (Ok tt, f s).

Notation "x <- c1 ;; c2" := (bind c1 (fun x => c2))
  (at level 62, c1 at next level, right associativity, only parsing).
Notation "c1 ;;; c2" := (bind c1 (fun _ => c2))
  (at level 62, right associativity, only parsing).

(** [for x in xs: body x] *)
Fixpoint for_each {S A} (xs : list A) (body : A -> M S unit) : M S unit :=
  match xs with
  | [] => ret tt
  | x :: rest => body x ;;; for_each rest body
  end.

(** Running a computation inside a larger state. *)
Definition zoom {S T A} (proj : T -> S) (inj : S -> T -> T) (c : M S A) : M T A :=
  fun t => match c (proj t) with
           | (r, s') => (r, inj s' t)
           end.

Definition state_of {S A} (p : res A * S) : S := snd p.
Definition result_of {S A} (p : res A * S) : res A := fst p.

(** ** Python values that the code coerces *)

Module Py.

(** The JSON values found in [Sandbox.port_mappings]. *)
Inductive json : Type :=
| JInt (z : Z)
| JStr (s : string)
| JBool (b : bool)
| JOther. (* null, floats, arrays, objects *)

Definition is_space (a : ascii) : bool :=
  let n := nat_of_ascii a in
  ((9 <=? n) && (n <=? 13) || (28 <=? n) && (n <=? 32))%nat.

Fixpoint lstrip (s : string) : string :=
  match s with
  | String a rest => if is_space a then lstrip rest else s
  | EmptyString => EmptyString
  end.

Fixpoint rstrip (s : string) : string :=
  match s with
  | EmptyString => EmptyString
  | String a rest =>
      match rstrip rest with
      | EmptyString => if is_space a then EmptyString else String a EmptyString
      | r => String a r
      end
  end.

(** [str.strip()] *)
Definition strip (s : string) : string := rstrip (lstrip s).

Definition digit_of (a : ascii) : option Z :=
  let n := nat_of_ascii a in
  if ((48 <=? n) && (n <=? 57))%nat then Some (Z.of_nat n - 48) else None.

(** Decimal digits, single underscores allowed between digits. *)
Fixpoint digits (acc : Z) (after_digit : bool) (s : string) : option Z :=
  match s with
  | EmptyString => if after_digit then Some acc else None
  | String a rest =>
      match digit_of a with
      | Some d => digits (10 * acc + d) true rest
      | None =>
          if (Ascii.eqb a "_"%char && after_digit)%bool
          then match rest with
               | String b _ =>
                   match digit_of b with
                   | Some _ => digits acc false rest
                   | None => None
                   end
               | EmptyString => None
               end
          else None
      end
  end.

(** [int(s)] for a string: [None] stands for [ValueError]. *)
Definition int_of_string (s : string) : option Z :=
  match strip s with
  | String "-" rest => Z.opp <$> digits 0 false rest
  | String "+" rest => digits 0 false rest
  | t => digits 0 false t
  end.

(** The idiom used wherever the code walks [port_mappings.values()]:
    [if isinstance(port, (int, str)): try: int(port) except (ValueError,
    TypeError): pass].  [bool] is a subclass of [int]. *)
Definition coerce_port (v : json) : option Z :=
  match v with
  | JInt z => Some z
  | JBool b => Some (if b then 1 else 0)
  | JStr s => int_of_string s
  | JOther => None
  end.

(** [dict.values()] of a JSON object kept in insertion order;
    [if port_mappings:] is false for [None] and for the empty dict. *)
Definition values (d : option (list (string * json))) : list json :=
  match d with
  | Some kvs => snd <$> kvs
  | None => []
  end.

End Py.

(** ** The packet filter behind the [nft] command line

    The table [inet xctf] with its two port sets, its port-and-address
    verdict map and its chains.  Each object exists only once the
    command that creates it has succeeded.

    Elements are kept as the service names them: a port is the integer
    it formats into the command, an address is the text it passes,
    standing for the IPv4 address that [nft] prints back in that form
    (the map is declared [inet_service . ipv4_addr : verdict]).  Whether
    a number is a port and a text an address is not looked at here. *)

Module Nft.

Inductive set_name : Type := StaticPorts | SandboxPorts.

Inductive chain_name : Type := Prerouting | Input.

(** The four rules that [initialize_firewall] installs in each chain. *)
Inductive rule : Type :=
| AcceptNonSandbox   (* tcp dport != @sandbox_ports ... accept *)
| AcceptStatic       (* tcp dport @static_ports ... accept *)
| VerdictMap         (* ... tcp dport . ip saddr vmap @sandbox_port_to_ip *)
| RejectReset.       (* ... reject with tcp reset *)

Inductive command : Type :=
| ListTable
| AddTable
| AddMap
| AddSet (s : set_name)
| AddChain (c : chain_name)
| AddRule (c : chain_name) (r : rule)
| AddSetElement (s : set_name) (port : Z)
| DeleteSetElement (s : set_name) (port : Z)
| AddMapElement (port : Z) (ip : string)
| DeleteMapElement (port : Z) (ip : string)
| ListSet (s : set_name)
| ListMap.

Record table : Type := Table {
  static_ports : option (gset Z);
  sandbox_ports : option (gset Z);
  sandbox_port_to_ip : option (gset (Z * string));
  prerouting : option (list rule);
  input : option (list rule)
}.

Definition empty_table : table := Table None None None None None.

(** What a command prints: the listings are kept structured, as the
    regular expressions of the service read them. *)
Inductive output : Type :=
| Silent
| ErrorMessage
| TableListing
| SetListing (elements : list (Z * option Z))
| MapListing (entries : list (Z * string)).

Definition get_set (s : set_name) (t : table) : option (gset Z) :=
  match s with
  | StaticPorts => static_ports t
  | SandboxPorts => sandbox_ports t
  end.

Definition put_set (s : set_name) (v : gset Z) (t : table) : table :=
  match s with
  | StaticPorts =>
      Table (Some v) (sandbox_ports t) (sandbox_port_to_ip t) (prerouting t) (input t)
  | SandboxPorts =>
      Table (static_ports t) (Some v) (sandbox_port_to_ip t) (prerouting t) (input t)
  end.

Definition put_map (v : gset (Z * string)) (t : table) : table :=
  Table (static_ports t) (sandbox_ports t) (Some v) (prerouting t) (input t).

Definition get_chain (c : chain_name) (t : table) : option (list rule) :=
  match c with
  | Prerouting => prerouting t
  | Input => input t
  end.

Definition put_chain (c : chain_name) (v : list rule) (t : table) : table :=
  match c with
  | Prerouting =>
      Table (static_ports t) (sandbox_ports t) (sandbox_port_to_ip t) (Some v) (input t)
  | Input =>
      Table (static_ports t) (sandbox_ports t) (sandbox_port_to_ip t) (prerouting t) (Some v)
  end.

Definition failed (st : option table) : bool * output * option table :=
  (false, ErrorMessage, st).

(** One run of [nft <command>] on the rule set: exit status, output
    and the rule set afterwards.  Adding what is there already
    succeeds; deleting what is missing fails. *)
Definition exec (c : command) (st : option table) : bool * output * option table :=
  match c, st with
  | AddTable, None => (true, Silent, Some empty_table)
  | AddTable, Some t => (true, Silent, Some t)
  | _, None => failed st
  | ListTable, Some t => (true, TableListing, st)
  | AddMap, Some t =>
      match sandbox_port_to_ip t with
      | Some _ => (true, Silent, st)
      | None => (true, Silent, Some (put_map ∅ t))
      end
  | AddSet s, Some t =>
      match get_set s t with
      | Some _ => (true, Silent, st)
      | None => (true, Silent, Some (put_set s ∅ t))
      end
  | AddChain ch, Some t =>
      match get_chain ch t with
      | Some _ => (true, Silent, st)
      | None => (true, Silent, Some (put_chain ch [] t))
      end
  | AddRule ch r, Some t =>
      match get_chain ch t with
      | Some rs => (true, Silent, Some (put_chain ch (rs ++ [r]) t))
      | None => failed st
      end
  | AddSetElement s p, Some t =>
      match get_set s t with
      | Some ports => (true, Silent, Some (put_set s ({[p]} ∪ ports) t))
      | None => failed st
      end
  | DeleteSetElement s p, Some t =>
      match get_set s t with
      | Some ports =>
          if decide (p ∈ ports)
          then (true, Silent, Some (put_set s (ports ∖ {[p]}) t))
          else failed st
      | None => failed st
      end
  | AddMapElement p ip, Some t =>
      match sandbox_port_to_ip t with
      | Some m => (true, Silent, Some (put_map ({[(p, ip)]} ∪ m) t))
      | None => failed st
      end
  | DeleteMapElement p ip, Some t =>
      match sandbox_port_to_ip t with
      | Some m =>
          if decide ((p, ip) ∈ m)
          then (true, Silent, Some (put_map (m ∖ {[(p, ip)]}) t))
          else failed st
      | None => failed st
      end
  | ListSet s, Some t =>
      match get_set s t with
      | Some ports => (true, SetListing ((fun p => (p, None)) <$> elements ports), st)
      | None => failed st
      end
  | ListMap, Some t =>
      match sandbox_port_to_ip t with
      | Some m => (true, MapListing (elements m), st)
      | None => failed st
      end
  end.

(** The host: the rule set, and the fate of the coming invocations of
    the command line itself ([true]: the invocation fails whatever the
    rule set is -- a time-out, a refused [sudo], a non-zero exit for a
    reason outside the rule set).  The empty script is a host on which
    the command line always runs. *)
Record host : Type := Host {
  ruleset : option table;
  faults : list bool
}.

(** The contents of the sets and of the map; a missing object has no
    element. *)
Definition ports_of (s : set_name) (h : host) : gset Z :=
  match ruleset h with
  | Some t => default ∅ (get_set s t)
  | None => ∅
  end.

Definition map_of (h : host) : gset (Z * string) :=
  match ruleset h with
  | Some t => default ∅ (sandbox_port_to_ip t)
  | None => ∅
  end.

End Nft.

(** ** services/firewall_service.py *)

Record FirewallService : Type := MkFirewallService {
  initialized : bool;          (* self._initialized *)
  nft : Nft.host
}.

Module Firewall.

Import Nft.

Definition set_initialized : M FirewallService unit :=
  modify (fun fs => MkFirewallService true (nft fs)).

(** [_run_nftables_command(command, check)]: with [check] a failure
    raises, without it the failure is returned as [(False, message)]. *)
Definition _run_nftables_command (c : command) (check : bool)
  : M FirewallService (bool * output) :=
  fun fs =>
    let h := nft fs in
    match faults h with
    | true :: rest =>
        let fs' := MkFirewallService (initialized fs) (Host (ruleset h) rest) in
        if check then (Raise RuntimeError, fs')
        else (Ok (false, ErrorMessage), fs')
    | _ =>
        let '(ok, out, st') := exec c (ruleset h) in
        let fs' := MkFirewallService (initialized fs) (Host st' (tail (faults h))) in
        if ok then (Ok (true, out), fs')
        else if check then (Raise RuntimeError, fs')
             else (Ok (false, out), fs')
    end.

Definition install_rules (ch : chain_name) : M FirewallService unit :=
  _run_nftables_command (AddRule ch AcceptNonSandbox) true ;;;
  _run_nftables_command (AddRule ch AcceptStatic) true ;;;
  _run_nftables_command (AddRule ch VerdictMap) true ;;;
  _run_nftables_command (AddRule ch RejectReset) true ;;;
  ret tt.

Definition initialize_firewall : M FirewallService bool :=
  init <- gets initialized ;;
  if init then ret true
  else
    try_except
      (listed <- _run_nftables_command ListTable false ;;
       if fst listed then set_initialized ;;; ret true
       else
         _run_nftables_command AddTable true ;;;
         _run_nftables_command AddMap true ;;;
         _run_nftables_command (AddSet StaticPorts) true ;;;
         _run_nftables_command (AddSet SandboxPorts) true ;;;
         _run_nftables_command (AddChain Prerouting) true ;;;
         install_rules Prerouting ;;;
         _run_nftables_command (AddChain Input) true ;;;
         install_rules Input ;;;
         set_initialized ;;;
         ret true)
      (fun e => raise e).

(** [if not self._initialized: self.initialize_firewall()] *)
Definition ensure_initialized : M FirewallService unit :=
  init <- gets initialized ;;
  if negb init then initialize_firewall ;;; ret tt else ret tt.

Definition add_port_ip_mapping (port : Z) (ip_address : string)
  : M FirewallService bool :=
  try_except
    (ensure_initialized ;;;
     _run_nftables_command (AddSetElement SandboxPorts port) false ;;;
     result <- _run_nftables_command (AddMapElement port ip_address) true ;;
     if negb (fst result) then ret false else ret true)
    (fun _ => ret false).

(** Reading [list set] output: every [start] or [start-end] element is
    expanded, and only ports of the sandbox range are kept. *)
Definition in_sandbox_range (port : Z) : bool :=
  (32768 <=? port) && (port <=? 65535).

Definition expand_element (e : Z * option Z) : list Z :=
  let start_port := fst e in
  let end_port := default start_port (snd e) in
  filter (fun port => in_sandbox_range port = true)
         (seqZ start_port (end_port + 1 - start_port)).

Definition parse_ports (out : output) : gset Z :=
  match out with
  | SetListing listed => list_to_set (listed ≫= expand_element)
  | _ => ∅
  end.

(** Reading [list map] output: the addresses that the pattern captures
    next to [port].  The map holds IPv4 addresses only, printed as
    dotted quads, so every entry of the port is captured. *)
Definition ip_matches (port : Z) (out : output) : list string :=
  match out with
  | MapListing entries => snd <$> filter (fun e => fst e = port) entries
  | _ => []
  end.

Definition delete_map_entries (port : Z) (out : output) : M FirewallService unit :=
  for_each (ip_matches port out)
    (fun ip => _run_nftables_command (DeleteMapElement port ip) false ;;; ret tt).

Definition clean_orphan_port (port : Z) : M FirewallService unit :=
  try_except
    (_run_nftables_command (DeleteSetElement SandboxPorts port) false ;;;
     _run_nftables_command (DeleteSetElement StaticPorts port) false ;;;
     listed <- _run_nftables_command ListMap false ;;
     let '(map_success, map_output) := listed in
     if map_success then delete_map_entries port map_output else ret tt)
    (fun _ => ret tt).

Definition clean_orphan_ports (active_ports : gset Z) : M FirewallService bool :=
  try_except
    (init <- gets initialized ;;
     if negb init then ret false
     else
       listed <- _run_nftables_command (ListSet SandboxPorts) false ;;
       let '(success, out) := listed in
       if negb success then ret false
       else
         let current_ports := parse_ports out in
         let orphan_ports := current_ports ∖ active_ports in
         if decide (orphan_ports = ∅) then ret true
         else for_each (elements orphan_ports) clean_orphan_port ;;; ret true)
    (fun _ => ret false).

Definition remove_port_ip_mapping (port : Z) (ip_address : string)
  : M FirewallService bool :=
  try_except
    (init <- gets initialized ;;
     if negb init then ret false
     else
       _run_nftables_command (DeleteMapElement port ip_address) false ;;;
       ret true)
    (fun _ => ret false).

Definition add_static_port (port : Z) : M FirewallService bool :=
  try_except
    (ensure_initialized ;;;
     _run_nftables_command (AddSetElement StaticPorts port) true ;;;
     ret true)
    (fun _ => ret false).

Definition remove_static_port (port : Z) : M FirewallService bool :=
  try_except
    (init <- gets initialized ;;
     if negb init then ret false
     else
       _run_nftables_command (DeleteSetElement StaticPorts port) false ;;;
       ret true)
    (fun _ => ret false).

Definition remove_sandbox_port (port : Z) : M FirewallService bool :=
  try_except
    (init <- gets initialized ;;
     if negb init then ret false
     else
       _run_nftables_command (DeleteSetElement SandboxPorts port) false ;;;
       ret true)
    (fun _ => ret false).

Definition remove_all_ports_for_ip (ip_address : string) : M FirewallService bool :=
  try_except
    (init <- gets initialized ;;
     if negb init then ret false else ret true)
    (fun _ => ret false).

(** [ports_to_clean]: the primary port, then every coercible value of
    [port_mappings] not yet listed. *)
Fixpoint collect_ports (acc : list Z) (vs : list Py.json) : list Z :=
  match vs with
  | [] => acc
  | v :: rest =>
      match Py.coerce_port v with
      | Some port_int =>
          if decide (port_int ∈ acc) then collect_ports acc rest
          else collect_ports (acc ++ [port_int]) rest
      | None => collect_ports acc rest
      end
  end.

(** The body of the loop of [remove_all_port_mappings_for_sandbox]:
    the map listing was taken once, before the loop. *)
Definition remove_port_rules (map_success : bool) (map_output : output) (port : Z)
  : M FirewallService unit :=
  _run_nftables_command (DeleteSetElement SandboxPorts port) false ;;;
  _run_nftables_command (DeleteSetElement StaticPorts port) false ;;;
  if map_success then delete_map_entries port map_output else ret tt.

Definition remove_all_port_mappings_for_sandbox
    (sandbox_port : Z) (port_mappings : option (list (string * Py.json)))
  : M FirewallService bool :=
  try_except
    (init <- gets initialized ;;
     if negb init then ret false
     else
       let ports_to_clean := collect_ports [sandbox_port] (Py.values port_mappings) in
       listed <- _run_nftables_command ListMap false ;;
       let '(map_success, map_output) := listed in
       for_each ports_to_clean (remove_port_rules map_success map_output) ;;;
       ret true)
    (fun _ => ret false).

(** An invocation of the command line fails in state [fs]: this is
    what the runner reports when it is asked not to raise. *)
Definition invocation_fails (c : command) (fs : FirewallService) : bool :=
  match result_of (_run_nftables_command c false fs) with
  | Ok (ok, _) => negb ok
  | Raise _ => true
  end.

End Firewall.

(** Concrete states used to exercise the model. *)
Module Samples.

Import Nft.

Definition sample_host : host :=
  Host (Some (Table (Some {[8000]}) (Some {[32768; 32769]})
                    (Some {[(32768, "10.0.0.1")]})
                    (Some []) (Some [])))
       [].

Definition stale_host : host :=
  Host (Some (Table (Some ∅) (Some {[32770; 8080]})
                    (Some {[(8080, "10.0.0.1"); (32771, "10.0.0.1")]})
                    (Some []) (Some [])))
       [].

Definition orphan_host : host :=
  Host (Some (Table (Some ∅) (Some {[32770; 32771; 40000]})
                    (Some {[(32770, "10.0.0.7"); (32771, "10.0.0.7")]})
                    (Some []) (Some [])))
       [].

End Samples.

(** Properties of the service, stated as the specification states them. *)
Module FirewallSpec.

Import Nft Firewall.

(** [add_port_ip_mapping(p, ip)] followed by [remove_port_ip_mapping(p, ip)]. *)
Definition add_then_remove (port : Z) (ip : string) (fs : FirewallService)
  : FirewallService :=
  state_of (remove_port_ip_mapping port ip (state_of (add_port_ip_mapping port ip fs))).

(** The ports that a sweep treats as orphans: members of
    [sandbox_ports] inside the sandbox range that are not active. *)
Definition orphans (active_ports : gset Z) (fs : FirewallService) : gset Z :=
  filter (fun p => in_sandbox_range p = true /\ p ∉ active_ports)
         (ports_of SandboxPorts (nft fs)).

End FirewallSpec.

(** ** The relational store: challenge/models.py, user_auth/models.py *)

Module Challenge.
Record t : Type := Make {
  id : Z;
  name : string;
  points : Z;
  flag : string;
  active : bool;
  category : string;
  image_tag : string;
  static : bool;
  tcp_ports : option (list Z)    (* JSONField, null=True *)
}.
End Challenge.

Module Submission.
Record t : Type := Make {
  id : Z;
  user_id : Z;
  challenge_id : Z;
  correct : bool
}.
End Submission.

Module Sandbox.
Record t : Type := Make {
  id : Z;
  container_id : string;
  container_port : Z;
  created_at : Z;
  destroyed_at : option Z;
  challenge_id : Z;
  user_id : option Z;            (* null for a static challenge *)
  active : bool;
  port_mappings : option (list (string * Py.json))
}.
End Sandbox.

Module User.
Record t : Type := Make {
  id : Z;
  username : string;
  password : string;
  verified : bool;
  is_admin : bool;
  banned : bool
}.
End User.

Module UserSession.
Record t : Type := Make {
  id : Z;
  user_id : Z;
  ip_address : string;
  expires_at : Z;
  active : bool
}.
End UserSession.

(** The tables; rows are kept in primary-key order, so that the first
    match of a query is the row [QuerySet.first()] returns. *)
Record Store : Type := MkStore {
  challenges : list Challenge.t;
  submissions : list Submission.t;
  sandboxes : list Sandbox.t;
  users : list User.t;
  sessions : list UserSession.t
}.

Module Db.

(** The key the database gives to a new row. *)
Definition fresh_id {A} (pk : A -> Z) (rows : list A) : Z :=
  1 + foldr (fun r acc => Z.max (pk r) acc) 0 rows.

(** [if user_id:] -- [None] and [0] are both false. *)
Definition truthy (user_id : option Z) : bool :=
  match user_id with
  | Some n => negb (n =? 0)
  | None => false
  end.

Definition get_challenge (id : Z) (db : Store) : option Challenge.t :=
  head (filter (fun c => Challenge.id c = id) (challenges db)).

Definition get_sandbox (id : Z) (db : Store) : option Sandbox.t :=
  head (filter (fun s => Sandbox.id s = id) (sandboxes db)).

Definition get_user_by_username (username : string) (db : Store) : option User.t :=
  head (filter (fun u => User.username u = username) (users db)).

(** [Submission.objects.filter(user_id=, challenge_id=, correct=True).exists()] *)
Definition solved (user_id challenge_id : Z) (db : Store) : bool :=
  bool_decide (Exists (fun s => Submission.user_id s = user_id /\
                                Submission.challenge_id s = challenge_id /\
                                Submission.correct s = true)
                      (submissions db)).

(** Saving a new submission: the database assigns the key. *)
Definition insert_submission (user_id challenge_id : Z) (correct : bool) (db : Store)
  : Store :=
  let row := Submission.Make (fresh_id Submission.id (submissions db))
                             user_id challenge_id correct in
  MkStore (challenges db) (submissions db ++ [row]) (sandboxes db) (users db)
          (sessions db).

Definition insert_sandbox (row : Z -> Sandbox.t) (db : Store) : Sandbox.t * Store :=
  let sb := row (fresh_id Sandbox.id (sandboxes db)) in
  (sb, MkStore (challenges db) (submissions db) (sandboxes db ++ [sb]) (users db)
               (sessions db)).

(** [sandbox.save()] of a row that has a key: the row is overwritten. *)
Definition update_sandbox (sb : Sandbox.t) (db : Store) : Store :=
  MkStore (challenges db) (submissions db)
          ((fun r => if decide (Sandbox.id r = Sandbox.id sb) then sb else r)
             <$> sandboxes db)
          (users db) (sessions db).

Definition with_sessions (ss : list UserSession.t) (db : Store) : Store :=
  MkStore (challenges db) (submissions db) (sandboxes db) (users db) ss.

Definition deactivated (s : UserSession.t) : UserSession.t :=
  UserSession.Make (UserSession.id s) (UserSession.user_id s)
                   (UserSession.ip_address s) (UserSession.expires_at s) false.

(** [session.active = False; session.save()] *)
Definition deactivate_session (id : Z) (db : Store) : Store :=
  with_sessions
    ((fun r => if decide (UserSession.id r = id) then deactivated r else r)
       <$> sessions db) db.

(** [UserSession.objects.filter(user=user, active=True).update(active=False)] *)
Definition deactivate_sessions_of (user_id : Z) (db : Store) : Store :=
  with_sessions
    ((fun r => if decide (UserSession.user_id r = user_id /\ UserSession.active r = true)
               then deactivated r else r)
       <$> sessions db) db.

Definition insert_session (user_id : Z) (ip : string) (expires_at : Z) (db : Store)
  : Store :=
  with_sessions
    (sessions db ++
     [UserSession.Make (fresh_id UserSession.id (sessions db)) user_id ip expires_at true])
    db.

(** [UserSession.objects.filter(user_id=, active=True)] *)
Definition active_sessions_of (user_id : Z) (db : Store) : list UserSession.t :=
  filter (fun s => UserSession.user_id s = user_id /\ UserSession.active s = true)
         (sessions db).

(** [UserSession.objects.filter(user_id=, ip_address=, active=True)] *)
Definition active_sessions_at (user_id : Z) (ip : string) (db : Store)
  : list UserSession.t :=
  filter (fun s => UserSession.user_id s = user_id /\
                   UserSession.ip_address s = ip /\
                   UserSession.active s = true)
         (sessions db).

(** [Sandbox.objects.filter(user_id=, active=True)] *)
Definition active_sandboxes_of (user_id : Z) (db : Store) : list Sandbox.t :=
  filter (fun s => Sandbox.user_id s = Some user_id /\ Sandbox.active s = true)
         (sandboxes db).

(** [Sandbox.objects.filter(challenge_id=, active=True[, user_id=])] *)
Definition active_sandboxes_for (challenge_id : Z) (user_id : option Z) (db : Store)
  : list Sandbox.t :=
  match user_id with
  | Some u =>
      filter (fun s => Sandbox.challenge_id s = challenge_id /\
                       Sandbox.active s = true /\
                       Sandbox.user_id s = Some u)
             (sandboxes db)
  | None =>
      filter (fun s => Sandbox.challenge_id s = challenge_id /\
                       Sandbox.active s = true)
             (sandboxes db)
  end.

End Db.

(** ** The host file system and challenge/utils.py *)

Record Volumes : Type := MkVolumes {
  files : gset string;        (* regular files that exist *)
  dirs : gset string;         (* directories that exist *)
  mounted : gset string;      (* mount points with a volume mounted *)
  cmd_faults : list bool      (* fate of the coming [run_command] calls *)
}.

Module Utils.

Definition volume_base : string := "/tmp/xctf_volumes".

Definition volume_stem (challenge_id : Z) (user_id : option Z) : string :=
  match user_id with
  | Some u =>
      if Db.truthy user_id
      then volume_base +:+ "/challenge_" +:+ pretty challenge_id +:+ "_" +:+ pretty u
                       +:+ "_container"
      else volume_base +:+ "/challenge_" +:+ pretty challenge_id +:+ "_container"
  | None => volume_base +:+ "/challenge_" +:+ pretty challenge_id +:+ "_container"
  end.

Definition volume_file_of (challenge_id : Z) (user_id : option Z) : string :=
  volume_stem challenge_id user_id +:+ ".img".

Definition mount_point_of (challenge_id : Z) (user_id : option Z) : string :=
  volume_stem challenge_id user_id.

Inductive shell : Type :=
| Dd (file : string)
| Mkfs (file : string)
| Mount (file mount_point : string)
| Umount (mount_point : string).

Definition shell_exec (c : shell) (v : Volumes) : bool * Volumes :=
  match c with
  | Dd f => (true, MkVolumes ({[f]} ∪ files v) (dirs v) (mounted v) (cmd_faults v))
  | Mkfs f => (bool_decide (f ∈ files v), v)
  | Mount f m =>
      if bool_decide (f ∈ files v) && bool_decide (m ∈ dirs v)
      then (true, MkVolumes (files v) (dirs v) ({[m]} ∪ mounted v) (cmd_faults v))
      else (false, v)
  | Umount m =>
      if bool_decide (m ∈ mounted v)
      then (true, MkVolumes (files v) (dirs v) (mounted v ∖ {[m]}) (cmd_faults v))
      else (false, v)
  end.

(** [run_command(args)] with [check=True]: a non-zero exit raises. *)
Definition run_command (c : shell) : M Volumes unit :=
  fun v =>
    let v0 := MkVolumes (files v) (dirs v) (mounted v) (tail (cmd_faults v)) in
    match cmd_faults v with
    | true :: _ => (Raise CalledProcessError, v0)
    | _ => let (ok, v') := shell_exec c v0 in
           if ok then (Ok tt, v') else (Raise CalledProcessError, v')
    end.

Definition create_loop_device (challenge_id : Z) (user_id : option Z) : M Volumes string :=
  let volume_file := volume_file_of challenge_id user_id in
  exists_ <- gets (fun v => bool_decide (volume_file ∈ files v)) ;;
  (if negb exists_
   then run_command (Dd volume_file) ;;; run_command (Mkfs volume_file)
   else ret tt) ;;;
  ret volume_file.

Definition mount_volume (volume_file : string) (challenge_id : Z) (user_id : option Z)
  : M Volumes string :=
  let mount_point := mount_point_of challenge_id user_id in
  modify (fun v => MkVolumes (files v) ({[mount_point]} ∪ dirs v) (mounted v)
                             (cmd_faults v)) ;;;
  run_command (Mount volume_file mount_point) ;;;
  ret mount_point.

Definition unmount_volume (challenge_id : Z) (user_id : option Z) : M Volumes string :=
  let mount_point := mount_point_of challenge_id user_id in
  try_except (run_command (Umount mount_point))
             (fun e => match e with
                       | CalledProcessError => ret tt
                       | _ => raise e
                       end) ;;;
  ret mount_point.

(** [os.remove] *)
Definition os_remove (f : string) : M Volumes unit :=
  modify (fun v => MkVolumes (files v ∖ {[f]}) (dirs v) (mounted v) (cmd_faults v)).

(** [os.rmdir]: a busy mount point cannot be removed. *)
Definition os_rmdir (d : string) : M Volumes unit :=
  busy <- gets (fun v => bool_decide (d ∈ mounted v)) ;;
  if busy then raise OSError
  else modify (fun v => MkVolumes (files v) (dirs v ∖ {[d]}) (mounted v) (cmd_faults v)).

Definition clean_up_volume (challenge_id : Z) (user_id : option Z) : M Volumes unit :=
  try_except
    (let volume_file := volume_file_of challenge_id user_id in
     let mount_point := mount_point_of challenge_id user_id in
     unmount_volume challenge_id user_id ;;;
     file_exists <- gets (fun v => bool_decide (volume_file ∈ files v)) ;;
     (if file_exists then os_remove volume_file else ret tt) ;;;
     dir_exists <- gets (fun v => bool_decide (mount_point ∈ dirs v)) ;;
     (if dir_exists then os_rmdir mount_point else ret tt))
    (fun _ => ret tt).

(** [redis_client.setnx(lock_name, 1)] followed by [expire]: one attempt
    to take a named lock of the key/value store. *)
Definition setnx (lock_name : string) : M (gset string) bool :=
  held <- gets (fun locks => bool_decide (lock_name ∈ locks)) ;;
  if held then ret false
  else modify (fun locks => {[lock_name]} ∪ locks) ;;; ret true.

(** [acquire_lock] as one thread sees it: it polls [SETNX] for ten
    seconds; with nobody else running, a key that is taken stays taken
    and the call gives up. *)
Definition acquire_lock (lock_name : string) : M (gset string) bool :=
  setnx lock_name.

Definition release_lock (lock_name : string) : M (gset string) unit :=
  modify (fun locks => locks ∖ {[lock_name]}).

End Utils.

(** ** The container daemon and services/docker_service.py *)

Module Docker.

Record container : Type := Container {
  id : string;
  name : string;
  image : string;
  ports : list (Z * Z);            (* published: container tcp port, host port *)
  healthy : bool;                  (* the health check reports healthy in time *)
  labels : string * string         (* user_id, challenge_id *)
}.

(** The daemon: its containers, the images it knows (with whether
    their health check ever passes) and the next free host port. *)
Record daemon : Type := Daemon {
  containers : list container;
  images : list (string * bool);
  next_port : Z
}.

Fixpoint publish (requested : list Z) (host_port : Z) : list (Z * Z) :=
  match requested with
  | [] => []
  | p :: rest => (p, host_port) :: publish rest (host_port + 1)
  end.

(** [create_container]: an unknown image or a name that is in use is
    an error of the daemon, re-raised by the service. *)
Definition create_container (image name : string) (ports : list Z)
    (labels : string * string) : M daemon container :=
  fun d =>
    match head (filter (fun i => i.1 = image) (images d)) with
    | None => (Raise DockerError, d)
    | Some (_, becomes_healthy) =>
        if bool_decide (Exists (fun c => Docker.name c = name) (containers d))
        then (Raise DockerError, d)
        else
          let c := Container ("ctr-" +:+ name) name image
                             (publish ports (next_port d)) becomes_healthy labels in
          (Ok c, Daemon (containers d ++ [c]) (images d)
                        (next_port d + Z.of_nat (length ports)))
    end.

Definition get_container (container_id : string) : M daemon container :=
  fun d =>
    match head (filter (fun c => Docker.id c = container_id) (containers d)) with
    | Some c => (Ok c, d)
    | None => (Raise DockerError, d)
    end.

Definition stop_container (container_id : string) : M daemon bool :=
  try_except (get_container container_id ;;; ret true) (fun _ => ret false).

Definition remove_container (container_id : string) : M daemon bool :=
  try_except
    (get_container container_id ;;;
     modify (fun d => Daemon (filter (fun c => Docker.id c ≠ container_id) (containers d))
                             (images d) (next_port d)) ;;;
     ret true)
    (fun _ => ret false).

Definition stop_and_remove_container (container_id : string) : M daemon bool :=
  try_except
    (stop_container container_id ;;; remove_container container_id)
    (fun _ => ret false).

(** [wait_for_healthy]: polls the health of the container until the
    time-out; a container that cannot be inspected is never healthy. *)
Definition wait_for_healthy (container_id : string) : M daemon bool :=
  try_except
    (c <- get_container container_id ;; ret (healthy c))
    (fun _ => ret false).

End Docker.

(** ** Everything the platform acts on *)

Record World : Type := MkWorld {
  db : Store;
  firewall : FirewallService;     (* the process-wide firewall service *)
  docker : Docker.daemon;
  volumes : Volumes;
  locks : gset string;            (* keys held in the key/value store *)
  now : Z                         (* timezone.now() *)
}.

Definition with_db (f : Store -> Store) : M World unit :=
  modify (fun w => MkWorld (f (db w)) (firewall w) (docker w) (volumes w) (locks w) (now w)).

Definition on_firewall {A} (c : M FirewallService A) : M World A :=
  zoom firewall
       (fun fs w => MkWorld (db w) fs (docker w) (volumes w) (locks w) (now w)) c.

Definition on_docker {A} (c : M Docker.daemon A) : M World A :=
  zoom docker
       (fun d w => MkWorld (db w) (firewall w) d (volumes w) (locks w) (now w)) c.

Definition on_volumes {A} (c : M Volumes A) : M World A :=
  zoom volumes
       (fun v w => MkWorld (db w) (firewall w) (docker w) v (locks w) (now w)) c.

Definition on_locks {A} (c : M (gset string) A) : M World A :=
  zoom locks
       (fun l w => MkWorld (db w) (firewall w) (docker w) (volumes w) l (now w)) c.

(** ** services/challenge_service.py *)

Module ChallengeService.

Definition submit_flag (user_id challenge_id : Z) (flag : string)
  : M World (bool * string) :=
  found <- gets (fun w => Db.get_challenge challenge_id (db w)) ;;
  match found with
  | None => ret (false, "Challenge not found")
  | Some challenge =>
      already_solved <- gets (fun w => Db.solved user_id challenge_id (db w)) ;;
      if already_solved
      then ret (false, "You have already solved this challenge.")
      else
        let is_correct :=
          bool_decide (Py.strip flag = Py.strip (Challenge.flag challenge)) in
        try_except
          (with_db (Db.insert_submission user_id challenge_id is_correct) ;;;
           if is_correct then ret (true, "correct flag")
           else ret (false, "incorrect flag"))
          (fun _ => ret (false, "Error submitting flag, please try again later."))
  end.

Definition check_user_solved_challenge (user_id : option Z) (challenge_id : Z)
  : M World bool :=
  match user_id with
  | Some u =>
      if Db.truthy user_id
      then gets (fun w => Db.solved u challenge_id (db w))
      else ret false
  | None => ret false
  end.

(** The keys of a dict built by inserting the elements of [l] in order. *)
Fixpoint dict_keys (seen l : list Z) : list Z :=
  match l with
  | [] => []
  | x :: rest =>
      if decide (x ∈ seen) then dict_keys seen rest
      else x :: dict_keys (x :: seen) rest
  end.

(** The ports that [_create_sandbox] asks the daemon to publish:
    [{"8000/tcp": None}], replaced by [{f"{port}/tcp": None for port in
    challenge.tcp_ports}] when [challenge.tcp_ports] is not empty. *)
Definition challenge_ports (challenge : Challenge.t) : list Z :=
  match Challenge.tcp_ports challenge with
  | Some (p :: rest) => dict_keys [] (p :: rest)
  | Some [] | None => [8000]
  end.

Definition container_name (challenge : Challenge.t) (user_id : option Z) : string :=
  match user_id with
  | Some u =>
      if Db.truthy user_id
      then "xctf-" +:+ pretty (Challenge.id challenge) +:+ "-" +:+ pretty u
      else "xctf-" +:+ pretty (Challenge.id challenge)
  | None => "xctf-" +:+ pretty (Challenge.id challenge)
  end.

Definition container_labels (challenge : Challenge.t) (user_id : option Z)
  : string * string :=
  (match user_id with
   | Some u => if Db.truthy user_id then pretty u else ""
   | None => ""
   end,
   pretty (Challenge.id challenge)).

(** [for port in sandbox.port_mappings.values(): ... int(port) ...] *)
Definition mapped_ports (sandbox : Sandbox.t) : list Z :=
  omap Py.coerce_port (Py.values (Sandbox.port_mappings sandbox)).

Definition _add_sandbox_firewall_rules (sandbox : Sandbox.t) (challenge : Challenge.t)
  : M World unit :=
  try_except
    (on_firewall Firewall.initialize_firewall ;;;
     if Challenge.static challenge
     then
       on_firewall (Firewall.add_static_port (Sandbox.container_port sandbox)) ;;;
       for_each (mapped_ports sandbox)
         (fun port_int => on_firewall (Firewall.add_static_port port_int) ;;; ret tt)
     else if negb (Db.truthy (Sandbox.user_id sandbox)) then ret tt
     else
       user_session <- gets (fun w =>
         head (Db.active_sessions_of (default 0 (Sandbox.user_id sandbox)) (db w))) ;;
       match user_session with
       | None => ret tt
       | Some session =>
           let ip_address := UserSession.ip_address session in
           on_firewall (Firewall.add_port_ip_mapping
                          (Sandbox.container_port sandbox) ip_address) ;;;
           for_each (mapped_ports sandbox)
             (fun port_int =>
                on_firewall (Firewall.add_port_ip_mapping port_int ip_address) ;;;
                ret tt)
       end)
    (fun _ => ret tt).

Definition host_port_of (container_port : Z) (c : Docker.container) : option Z :=
  snd <$> head (filter (fun m => m.1 = container_port) (Docker.ports c)).

(** Best-effort removal of what a half-built sandbox left behind. *)
Definition rollback_container (c : Docker.container) : M World unit :=
  try_except
    (match host_port_of 8000 c with
     | Some container_port =>
         try_except
           (on_firewall (Firewall.remove_all_port_mappings_for_sandbox
                           container_port None) ;;; ret tt)
           (fun _ => ret tt)
     | None => ret tt
     end ;;;
     on_docker (Docker.stop_and_remove_container (Docker.id c)) ;;;
     ret tt)
    (fun _ => ret tt).

Definition _create_sandbox (challenge : Challenge.t) (user_id : option Z)
  : M World Sandbox.t :=
  let cid := Challenge.id challenge in
  mount_point <-
    try_except
      (volume_file <- on_volumes (Utils.create_loop_device cid user_id) ;;
       on_volumes (Utils.mount_volume volume_file cid user_id))
      (fun e => on_volumes (Utils.clean_up_volume cid user_id) ;;; raise e) ;;
  container <-
    try_except
      (on_docker (Docker.create_container
                    (Challenge.image_tag challenge)
                    (container_name challenge user_id)
                    (challenge_ports challenge)
                    (container_labels challenge user_id)))
      (fun e => on_volumes (Utils.clean_up_volume cid user_id) ;;; raise e) ;;
  try_except
    (healthy <- on_docker (Docker.wait_for_healthy (Docker.id container)) ;;
     if negb healthy then raise SandboxCreateTimeoutException
     else
       match host_port_of 8000 container with
       | None => raise ValueError
       | Some container_port =>
           let port_mappings :=
             (fun m => (pretty m.1, Py.JStr (pretty m.2))) <$> Docker.ports container in
           try_except
             (on_volumes (modify (fun v =>
                if bool_decide (mount_point ∈ dirs v)
                then MkVolumes ({[mount_point +:+ "/.xctf_port_mappings.json"]} ∪ files v)
                               (dirs v) (mounted v) (cmd_faults v)
                else v)))
             (fun _ => ret tt) ;;;
           try_except
             (created_at <- gets now ;;
              w <- get ;;
              let (sandbox, db') :=
                Db.insert_sandbox
                  (fun pk => Sandbox.Make pk (Docker.id container) container_port
                                          created_at None cid user_id true
                                          (Some port_mappings))
                  (db w) in
              with_db (fun _ => db') ;;;
              _add_sandbox_firewall_rules sandbox challenge ;;;
              ret sandbox)
             (fun e =>
                rollback_container container ;;;
                on_volumes (Utils.clean_up_volume cid user_id) ;;;
                raise e)
       end)
    (fun e =>
       rollback_container container ;;;
       on_volumes (Utils.clean_up_volume cid user_id) ;;;
       raise e).

(** The query and the lock name of a get-or-create request; [None]
    when a non-static challenge is asked for without a user. *)
Definition sandbox_key (challenge : Challenge.t) (user_id : option Z)
  : option (option Z * string) :=
  if Challenge.static challenge
  then Some (None, "sandbox_lock_" +:+ pretty (Challenge.id challenge))
  else match user_id with
       | Some u =>
           if Db.truthy user_id
           then Some (Some u, "sandbox_lock_" +:+ pretty (Challenge.id challenge)
                                +:+ "_" +:+ pretty u)
           else None
       | None => None
       end.

Definition find_sandbox (challenge : Challenge.t) (who : option Z)
  : M World (option Sandbox.t) :=
  gets (fun w => head (Db.active_sandboxes_for (Challenge.id challenge) who (db w))).

Definition get_or_create_sandbox (challenge : Challenge.t) (user_id : option Z)
  : M World (option Sandbox.t) :=
  match sandbox_key challenge user_id with
  | None => ret None
  | Some (who, lock_name) =>
      sandbox <- find_sandbox challenge who ;;
      match sandbox with
      | Some sb => ret (Some sb)
      | None =>
          acquired <- on_locks (Utils.acquire_lock lock_name) ;;
          if negb acquired then ret None
          else
            try_finally
              (sandbox <- find_sandbox challenge who ;;
               match sandbox with
               | Some sb => ret (Some sb)
               | None =>
                   sb <- _create_sandbox challenge user_id ;;
                   ret (Some sb)
               end)
              (on_locks (Utils.release_lock lock_name))
      end
  end.

End ChallengeService.

(** ** tasks/tasks.py *)

Module Tasks.

Definition destroyed (sandbox : Sandbox.t) (at_ : Z) : Sandbox.t :=
  Sandbox.Make (Sandbox.id sandbox) (Sandbox.container_id sandbox)
               (Sandbox.container_port sandbox) (Sandbox.created_at sandbox)
               (Some at_) (Sandbox.challenge_id sandbox) (Sandbox.user_id sandbox)
               false (Sandbox.port_mappings sandbox).

Definition cleanup_sandbox (sandbox_id : Z) : M World unit :=
  found <- gets (fun w => Db.get_sandbox sandbox_id (db w)) ;;
  match found with
  | None => ret tt
  | Some sandbox =>
      try_except
        (on_firewall (Firewall.remove_all_port_mappings_for_sandbox
                        (Sandbox.container_port sandbox)
                        (Sandbox.port_mappings sandbox)) ;;; ret tt)
        (fun _ => ret tt) ;;;
      try_except
        (on_docker (Docker.stop_and_remove_container (Sandbox.container_id sandbox)) ;;;
         ret tt)
        (fun _ => ret tt) ;;;
      destroyed_at <- gets now ;;
      with_db (Db.update_sandbox (destroyed sandbox destroyed_at)) ;;;
      on_volumes (Utils.clean_up_volume (Sandbox.challenge_id sandbox)
                                        (Sandbox.user_id sandbox))
  end.

(** The host ports of a sandbox: the primary one and every value of
    [port_mappings] that [int()] accepts. *)
Definition ports_of_sandbox (sandbox : Sandbox.t) : list Z :=
  Sandbox.container_port sandbox :: ChallengeService.mapped_ports sandbox.

Definition active_ports (db : Store) : gset Z :=
  list_to_set (filter (fun s => Sandbox.active s = true) (sandboxes db)
                 ≫= ports_of_sandbox).

Definition clean_orphan_firewall_ports : M World unit :=
  try_except
    (ports <- gets (fun w => active_ports (db w)) ;;
     on_firewall (Firewall.clean_orphan_ports ports) ;;;
     ret tt)
    (fun _ => ret tt).

Definition cleanup_expired_sessions : M World unit :=
  t <- gets now ;;
  expired_sessions <- gets (fun w =>
    filter (fun s => UserSession.active s = true /\ (UserSession.expires_at s <= t)%Z)
           (sessions (db w))) ;;
  for_each expired_sessions
    (fun session =>
       try_except
         (active_sandboxes <- gets (fun w =>
            Db.active_sandboxes_of (UserSession.user_id session) (db w)) ;;
          for_each active_sandboxes
            (fun sandbox =>
               challenge <- gets (fun w =>
                 Db.get_challenge (Sandbox.challenge_id sandbox) (db w)) ;;
               match challenge with
               | None => raise DoesNotExist
               | Some c =>
                   if Challenge.static c then ret tt
                   else
                     on_firewall (Firewall.remove_all_port_mappings_for_sandbox
                                    (Sandbox.container_port sandbox)
                                    (Sandbox.port_mappings sandbox)) ;;;
                     ret tt
               end) ;;;
          with_db (Db.deactivate_session (UserSession.id session)))
         (fun _ => ret tt)).

End Tasks.

(** ** Requests and responses *)

Module Http.

Record request : Type := Request {
  method : string;
  POST : list (string * string);
  META : list (string * string);
  user : option User.t;               (* the authenticated user, if any *)
  _ip_session_checked : bool          (* hasattr(request, "_ip_session_checked") *)
}.

Inductive response : Type :=
| Redirect (to message : string)
| Render (template message : string).

(** [d.get(key, "")] *)
Definition lookup (key : string) (d : list (string * string)) : string :=
  default "" (snd <$> head (filter (fun kv => kv.1 = key) d)).

(** [s.split(",")] *)
Fixpoint split_commas (s : string) : list string :=
  match s with
  | EmptyString => [EmptyString]
  | String a rest =>
      if Ascii.eqb a ","%char then EmptyString :: split_commas rest
      else match split_commas rest with
           | piece :: pieces => String a piece :: pieces
           | [] => [String a EmptyString]
           end
  end.

Definition nonempty (s : string) : bool := negb (String.eqb s "").

(** The first token of [X-Forwarded-For], then [X-Real-IP]. *)
Definition forwarded_ip (r : request) : option string :=
  let x_forwarded_for := lookup "HTTP_X_FORWARDED_FOR" (META r) in
  let first := default "" (head (Py.strip <$> split_commas x_forwarded_for)) in
  if nonempty x_forwarded_for && nonempty first then Some first
  else
    let x_real_ip := lookup "HTTP_X_REAL_IP" (META r) in
    if nonempty x_real_ip then Some (Py.strip x_real_ip) else None.

End Http.

(** [get_client_ip] of the firewall service: an empty peer address
    falls back to 0.0.0.0. *)
Definition service_get_client_ip (r : Http.request) : string :=
  match Http.forwarded_ip r with
  | Some ip => ip
  | None =>
      let remote_addr := Http.lookup "REMOTE_ADDR" (Http.META r) in
      if Http.nonempty remote_addr then remote_addr else "0.0.0.0"
  end.

(** ** user_auth/views.py *)

Module Views.

Import Http.

(** [get_client_ip]: [request.META.get("REMOTE_ADDR", "0.0.0.0")] last. *)
Definition get_client_ip (r : request) : string :=
  match forwarded_ip r with
  | Some ip => ip
  | None =>
      default "0.0.0.0" (snd <$> head (filter (fun kv => kv.1 = "REMOTE_ADDR") (META r)))
  end.

(** [Sandbox.objects.filter(user=user, active=True).select_related("challenge")]:
    the sandboxes joined with their challenge rows. *)
Definition active_sandboxes (user_id : Z) (db : Store) : list (Sandbox.t * Challenge.t) :=
  omap (fun sb => (fun c => (sb, c)) <$> Db.get_challenge (Sandbox.challenge_id sb) db)
       (Db.active_sandboxes_of user_id db).

(** The two loops over the ports of one sandbox. *)
Definition remove_mappings (sandbox : Sandbox.t) (ip : string) : M FirewallService unit :=
  Firewall.remove_port_ip_mapping (Sandbox.container_port sandbox) ip ;;;
  for_each (ChallengeService.mapped_ports sandbox)
    (fun port_int => Firewall.remove_port_ip_mapping port_int ip ;;; ret tt).

Definition add_mappings (sandbox : Sandbox.t) (ip : string) : M FirewallService unit :=
  Firewall.add_port_ip_mapping (Sandbox.container_port sandbox) ip ;;;
  for_each (ChallengeService.mapped_ports sandbox)
    (fun port_int => Firewall.add_port_ip_mapping port_int ip ;;; ret tt).

(** The hand-over of the firewall rules at login. *)
Definition hand_over (old_ip : option string) (client_ip : string)
    (sandboxes : list (Sandbox.t * Challenge.t)) : M FirewallService unit :=
  Firewall.initialize_firewall ;;;
  (if bool_decide (nonempty (default "" old_ip) = true /\ old_ip ≠ Some client_ip)
   then for_each sandboxes
          (fun sc => if negb (Challenge.static sc.2)
                     then remove_mappings sc.1 (default "" old_ip)
                     else ret tt)
   else ret tt) ;;;
  for_each sandboxes
    (fun sc => if negb (Challenge.static sc.2)
               then add_mappings sc.1 client_ip
               else ret tt).

Definition login_view (r : request) : M World response :=
  match user r with
  | Some _ => ret (Redirect "home" "")
  | None =>
      if negb (String.eqb (method r) "POST") then ret (Render "user_auth/login.html" "")
      else
        let username := Py.strip (lookup "username" (POST r)) in
        let password := lookup "password" (POST r) in
        if negb (nonempty username) || negb (nonempty password)
        then ret (Render "user_auth/login.html" "Username and password are required")
        else
          found <- gets (fun w => Db.get_user_by_username username (db w)) ;;
          match found with
          | None => ret (Render "user_auth/login.html" "Invalid username or password.")
          | Some u =>
              if negb (String.eqb (User.password u) password)
              then ret (Render "user_auth/login.html" "Invalid username or password.")
              else if negb (User.verified u)
              then ret (Render "user_auth/login.html" "Verify your email!")
              else if User.banned u
              then ret (Render "user_auth/login.html"
                               "You have been banned. Contact admins.")
              else
                let client_ip := get_client_ip r in
                existing_session <- gets (fun w =>
                  head (Db.active_sessions_of (User.id u) (db w))) ;;
                let old_ip := UserSession.ip_address <$> existing_session in
                expires_at <- gets (fun w => now w + 86400) ;;
                with_db (fun d => Db.insert_session (User.id u) client_ip expires_at
                                    (Db.deactivate_sessions_of (User.id u) d)) ;;;
                try_except
                  (sandboxes <- gets (fun w => active_sandboxes (User.id u) (db w)) ;;
                   on_firewall (hand_over old_ip client_ip sandboxes))
                  (fun _ => ret tt) ;;;
                ret (Redirect "home" "Login successful.")
          end
  end.

End Views.

(** ** user_auth/middleware_security.py *)

Module Middleware.

Import Http.

(** The revocation of the rules of the old address. *)
Definition revoke (old_ip : string) (sandboxes : list (Sandbox.t * Challenge.t))
  : M FirewallService unit :=
  Firewall.initialize_firewall ;;;
  for_each sandboxes
    (fun sc => if Challenge.static sc.2 then ret tt
               else Views.remove_mappings sc.1 old_ip).

Definition checked (r : request) : request :=
  Request (method r) (POST r) (META r) (user r) true.

(** [UserStatusMiddleware.process_request]: [None] lets the request
    through. *)
Definition process_request (r : request) : M World (request * option response) :=
  match user r with
  | None => ret (r, None)
  | Some u =>
      let user_id := User.id u in
      if User.banned u
      then
        try_except
          (on_locks (Utils.release_lock ("user:" +:+ pretty user_id)))
          (fun _ => ret tt) ;;;
        ret (r, Some (Redirect "home" "Your account has been banned."))
      else if negb (User.is_admin u) && negb (_ip_session_checked r)
      then
        let client_ip := service_get_client_ip r in
        has_active_session <- gets (fun w =>
          bool_decide (Db.active_sessions_at user_id client_ip (db w) ≠ [])) ;;
        if has_active_session then ret (checked r, None)
        else
          old_session <- gets (fun w => head (Db.active_sessions_of user_id (db w))) ;;
          match old_session with
          | Some session =>
              let old_ip := UserSession.ip_address session in
              try_except
                (sandboxes <- gets (fun w => Views.active_sandboxes user_id (db w)) ;;
                 on_firewall (revoke old_ip sandboxes) ;;;
                 with_db (Db.deactivate_session (UserSession.id session)))
                (fun _ => with_db (Db.deactivate_session (UserSession.id session)))
          | None => ret tt
          end ;;;
          ret (checked r,
               Some (Redirect "login"
                       "Your session IP address has changed. Please log in again."))
      else ret (r, None)
  end.

End Middleware.

(** A small deployment: one non-static challenge, one static one, two
    users, a running sandbox of user 7 with two published ports. *)
Module Scenario.

Definition web : Challenge.t :=
  Challenge.Make 1 "Test" 100 "FLAG{test123}" true "Web" "xctf-Web:test" false None.

Definition crypto : Challenge.t :=
  Challenge.Make 2 "Static" 200 "FLAG{static}" true "Crypto" "xctf-Crypto:static" true
                 None.

Definition alice : User.t := User.Make 7 "alice" "correct horse" true false false.

Definition bob : User.t := User.Make 8 "bobby" "battery staple" true false false.

Definition alice_sandbox : Sandbox.t :=
  Sandbox.Make 1 "ctr-xctf-1-7" 32768 1000 None 1 (Some 7) true
               (Some [("8000", Py.JStr "32768"); ("9000", Py.JStr "32769")]).

Definition alice_session : UserSession.t :=
  UserSession.Make 1 7 "10.0.0.1" 90000 true.

Definition store : Store :=
  MkStore [web; crypto] [] [alice_sandbox] [alice; bob] [alice_session].

Definition packet_filter : FirewallService :=
  MkFirewallService true
    (Nft.Host (Some (Nft.Table (Some ∅) (Some {[32768; 32769]})
                               (Some {[(32768, "10.0.0.1"); (32769, "10.0.0.1")]})
                               (Some []) (Some [])))
              []).

Definition daemon : Docker.daemon :=
  Docker.Daemon
    [Docker.Container "ctr-xctf-1-7" "xctf-1-7" "xctf-Web:test"
                      [(8000, 32768); (9000, 32769)] true ("7", "1")]
    [("xctf-Web:test", true); ("xctf-Crypto:static", true); ("xctf-Pwn:stuck", false)]
    32770.

Definition disk : Volumes :=
  MkVolumes {[Utils.volume_file_of 1 (Some 7)]}
            {[Utils.mount_point_of 1 (Some 7)]}
            {[Utils.mount_point_of 1 (Some 7)]}
            [].

Definition world : World := MkWorld store packet_filter daemon disk ∅ 5000.

(** Alice logs in again, from another address. *)
Definition login_request : Http.request :=
  Http.Request "POST"
               [("username", "alice"); ("password", "correct horse")]
               [("REMOTE_ADDR", "10.0.0.2")]
               None false.

(** A request of the logged-in Alice arriving from that other address. *)
Definition roaming_request : Http.request :=
  Http.Request "GET" [] [("HTTP_X_FORWARDED_FOR", "10.0.0.2, 192.168.1.1")]
               (Some alice) false.

(** The same deployment in a worker whose firewall service was never
    initialised and whose [nft] command line fails. *)
Definition broken_world : World :=
  MkWorld store (MkFirewallService false (Nft.Host None [false; true]))
          daemon disk ∅ 5000.

(** The same deployment seen from a worker process whose own firewall
    service has not been initialised; the rules are in the kernel. *)
Definition cold_world : World :=
  MkWorld store (MkFirewallService false (nft packet_filter)) daemon disk ∅ 5000.

End Scenario.

(** What the specification says about the challenge service. *)
Module ChallengeSpec.

(** The specification's [requested_ports]: 8000/tcp together with
    every port of [challenge.tcp_ports]. *)
Definition requested_ports (challenge : Challenge.t) : gset Z :=
  {[8000]} ∪ list_to_set (default [] (Challenge.tcp_ports challenge)).

(** A challenge that lists one extra port in its metadata. *)
Definition two_port_challenge : Challenge.t :=
  Challenge.Make 3 "Shell" 300 "FLAG{shell}" true "Pwn" "xctf-Web:test" false
                 (Some [9000]).

End ChallengeSpec.

(** What the handlers are specified to establish. *)
Module SessionSpec.

Import Nft.

(** A service on which rules can be installed: the table carries its
    map, or is still to be created by the first initialisation. *)
Definition usable (fs : FirewallService) : Prop :=
  match ruleset (nft fs) with
  | Some t => is_Some (sandbox_port_to_ip t)
  | None => initialized fs = false
  end.

(** Initialised, with the map in place and a command line that runs. *)
Definition ready (fs : FirewallService) : Prop :=
  initialized fs = true /\ faults (nft fs) = [] /\
  exists t, ruleset (nft fs) = Some t /\ is_Some (sandbox_port_to_ip t).

(** SI-1 for one user: at most one active session. *)
Definition at_most_one_active (user_id : Z) (db : Store) : Prop :=
  (length (Db.active_sessions_of user_id db) <= 1)%nat.

(** The map keys that pair a port of a non-static sandbox with [ip]. *)
Definition rule_keys (ip : string) (sandboxes : list (Sandbox.t * Challenge.t))
  : gset (Z * string) :=
  list_to_set
    (sandboxes ≫= fun sc =>
       if Challenge.static sc.2 then []
       else (fun p => (p, ip)) <$> Tasks.ports_of_sandbox sc.1).

(** A login request that passes every check of [login_view] for the
    user [u]: a POST of an anonymous client with the user's name and
    password, the user being verified and not banned. *)
Definition accepted (r : Http.request) (u : User.t) (db : Store) : Prop :=
  Http.user r = None /\
  Http.method r = "POST" /\
  Py.strip (Http.lookup "username" (Http.POST r)) = User.username u /\
  Http.lookup "password" (Http.POST r) = User.password u /\
  User.username u ≠ "" /\
  User.password u ≠ "" /\
  Db.get_user_by_username (User.username u) db = Some u /\
  User.verified u = true /\
  User.banned u = false.

End SessionSpec.

(** ** Concurrent calls of [get_or_create_sandbox]

    Several workers run [get_or_create_sandbox] for the same challenge
    and user over one shared world.  Each worker is at one of the points
    of the function between which the others may run: before the first
    query, inside [acquire_lock] (before the first [SETNX], or asleep
    after a failed one), holding the lock before the second query,
    before [_create_sandbox], before [release_lock] of the [finally]
    clause, and finished.  Time is not part of the model: the ten-second
    time-out of [acquire_lock] is an action a sleeping worker may take at
    any moment, and a lock that is held stays held until it is released
    (its time-to-live does not run out under its holder). *)

Module Concurrent.

Inductive pc : Type :=
| Called
| Acquiring
| Polling
| Locked
| Creating
| Releasing (r : res (option Sandbox.t))
| Finished (r : res (option Sandbox.t)).

Inductive action : Type :=
| Advance          (* run to the next point *)
| TimeOut.         (* the ten seconds of [acquire_lock] are over *)

Record config : Type := Config {
  world : World;
  threads : list pc
}.

Definition try_lock (lock_name : string) (w : World) : pc * World :=
  match on_locks (Utils.setnx lock_name) w with
  | (Ok true, w') => (Locked, w')
  | (Ok false, w') => (Polling, w')
  | (Raise e, w') => (Finished (Raise e), w')
  end.

(** One move of one worker. *)
Definition step_thread (challenge : Challenge.t) (user_id : option Z)
    (a : action) (t : pc) (w : World) : option (pc * World) :=
  match ChallengeService.sandbox_key challenge user_id with
  | None =>
      match t, a with
      | Called, Advance => Some (Finished (Ok None), w)
      | _, _ => None
      end
  | Some (who, lock_name) =>
      match t, a with
      | Called, Advance =>
          match ChallengeService.find_sandbox challenge who w with
          | (Ok (Some sb), w') => Some (Finished (Ok (Some sb)), w')
          | (Ok None, w') => Some (Acquiring, w')
          | (Raise e, w') => Some (Finished (Raise e), w')
          end
      | Acquiring, Advance => Some (try_lock lock_name w)
      | Polling, Advance => Some (try_lock lock_name w)
      | Polling, TimeOut => Some (Finished (Ok None), w)
      | Locked, Advance =>
          match ChallengeService.find_sandbox challenge who w with
          | (Ok (Some sb), w') => Some (Releasing (Ok (Some sb)), w')
          | (Ok None, w') => Some (Creating, w')
          | (Raise e, w') => Some (Releasing (Raise e), w')
          end
      | Creating, Advance =>
          match ChallengeService._create_sandbox challenge user_id w with
          | (Ok sb, w') => Some (Releasing (Ok (Some sb)), w')
          | (Raise e, w') => Some (Releasing (Raise e), w')
          end
      | Releasing r, Advance =>
          match on_locks (Utils.release_lock lock_name) w with
          | (Ok _, w') => Some (Finished r, w')
          | (Raise e, w') => Some (Finished (Raise e), w')
          end
      | _, _ => None
      end
  end.

(** Worker [i] moves. *)
Definition step (challenge : Challenge.t) (user_id : option Z)
    (i : nat) (a : action) (c : config) : option config :=
  match threads c !! i with
  | None => None
  | Some t =>
      match step_thread challenge user_id a t (world c) with
      | None => None
      | Some (t', w') => Some (Config w' (<[i := t']> (threads c)))
      end
  end.

(** An interleaving is a schedule: who moves, and how. *)
Fixpoint run (challenge : Challenge.t) (user_id : option Z)
    (schedule : list (nat * action)) (c : config) : option config :=
  match schedule with
  | [] => Some c
  | (i, a) :: rest =>
      match step challenge user_id i a c with
      | None => None
      | Some c' => run challenge user_id rest c'
      end
  end.

(** [n] workers that have just been called. *)
Definition start (n : nat) (w : World) : config := Config w (replicate n Called).

Definition finished (t : pc) : bool :=
  match t with
  | Finished _ => true
  | _ => false
  end.

(** Every worker has returned or raised. *)
Definition quiescent (c : config) : Prop :=
  Forall (fun t => finished t = true) (threads c).

(** The active sandbox rows of the key of the request. *)
Definition rows (challenge : Challenge.t) (user_id : option Z) (w : World)
  : list Sandbox.t :=
  match ChallengeService.sandbox_key challenge user_id with
  | Some (who, _) => Db.active_sandboxes_for (Challenge.id challenge) who (db w)
  | None => []
  end.

Definition lock_free (challenge : Challenge.t) (user_id : option Z) (w : World) : Prop :=
  match ChallengeService.sandbox_key challenge user_id with
  | Some (_, lock_name) => lock_name ∉ locks w
  | None => True
  end.

Definition raised (t : pc) : bool :=
  match t with
  | Releasing (Raise _) | Finished (Raise _) => true
  | _ => false
  end.

(** The claim as the specification states it: after any interleaving of
    the calls exactly one active row exists for the key, and every
    worker that returns a sandbox returns that row. *)
Definition exactly_one_after (challenge : Challenge.t) (user_id : option Z)
    (c : config) : Prop :=
  exists sb, rows challenge user_id (world c) = [sb] /\
             forall sb', Finished (Ok (Some sb')) ∈ threads c -> sb' = sb.

(** What holds in every case: at most one active row, and the workers
    that return a sandbox return it. *)
Definition at_most_one_after (challenge : Challenge.t) (user_id : option Z)
    (c : config) : Prop :=
  (length (rows challenge user_id (world c)) <= 1)%nat /\
  forall sb', Finished (Ok (Some sb')) ∈ threads c ->
              rows challenge user_id (world c) = [sb'].

(** A challenge whose image never becomes healthy. *)
Definition stuck : Challenge.t :=
  Challenge.Make 4 "Stuck" 50 "FLAG{stuck}" true "Pwn" "xctf-Pwn:stuck" false None.

Definition stuck_world : World :=
  MkWorld (MkStore [Scenario.web; Scenario.crypto; stuck] [] [Scenario.alice_sandbox]
                   [Scenario.alice; Scenario.bob] [Scenario.alice_session])
          Scenario.packet_filter Scenario.daemon Scenario.disk ∅ 5000.

(** *** The invariant of the protocol *)

(** The worker holds the lock. *)
Definition critical (t : pc) : bool :=
  match t with
  | Locked | Creating | Releasing _ => true
  | _ => false
  end.

(** The worker has found the lock taken. *)
Definition waited (t : pc) : bool :=
  match t with
  | Polling | Finished (Ok None) => true
  | _ => false
  end.

Definition count (f : pc -> bool) (l : list pc) : nat :=
  length (filter (fun t => f t = true) l).

Definition held (challenge : Challenge.t) (user_id : option Z) (w : World) : bool :=
  match ChallengeService.sandbox_key challenge user_id with
  | Some (_, lock_name) => bool_decide (lock_name ∈ locks w)
  | None => false
  end.

(** What a worker knows about the active rows [R] of the key. *)
Definition consistent (R : list Sandbox.t) (t : pc) : Prop :=
  match t with
  | Creating => R = []
  | Releasing (Ok (Some sb)) | Finished (Ok (Some sb)) => R = [sb]
  | Releasing (Ok None) => False
  | _ => True
  end.

Definition invariant (challenge : Challenge.t) (user_id : option Z) (c : config) : Prop :=
  let R := rows challenge user_id (world c) in
  (length R <= 1)%nat /\
  count critical (threads c) = (if held challenge user_id (world c) then 1 else 0)%nat /\
  Forall (consistent R) (threads c) /\
  ((0 < count waited (threads c))%nat ->
   R ≠ [] \/ (0 < count critical (threads c))%nat \/ (0 < count raised (threads c))%nat).

(** *** Two interleavings *)

(** Two workers start the challenge of the scenario for user 8 at the
    same time; worker 0 wins the lock while worker 1 polls. *)
Definition race : list (nat * action) :=
  [(0%nat, Advance); (1%nat, Advance); (0%nat, Advance); (1%nat, Advance);
   (0%nat, Advance); (1%nat, Advance); (0%nat, Advance); (0%nat, Advance);
   (1%nat, Advance); (1%nat, Advance); (1%nat, Advance)].

Definition after_race : config :=
  default (start 2 Scenario.world) (run Scenario.web (Some 8) race (start 2 Scenario.world)).

(** One worker starts the challenge whose image never becomes healthy. *)
Definition lonely : list (nat * action) :=
  [(0%nat, Advance); (0%nat, Advance); (0%nat, Advance); (0%nat, Advance);
   (0%nat, Advance)].

Definition after_lonely : config :=
  default (start 1 stuck_world) (run stuck (Some 8) lonely (start 1 stuck_world)).

End Concurrent.

(** Computations that leave the relational store and the locks alone. *)
Module Frame.

Definition same_store (w w' : World) : Prop :=
  db w' = db w /\ locks w' = locks w.

Definition quiet {A} (c : M World A) : Prop :=
  forall w, same_store w (state_of (c w)).

(** A handler that cleans up and re-raises. *)
Definition reraises {A} (c : M World A) : Prop :=
  forall w, exists e, result_of (c w) = Raise e.

(** [_create_sandbox] either inserts one active row for its challenge
    and user, or raises and leaves the store as it was. *)
Definition inserted (challenge : Challenge.t) (user_id : option Z)
    (w : World) (sb : Sandbox.t) (w' : World) : Prop :=
  sandboxes (db w') = (sandboxes (db w) ++ [sb])%list /\
  locks w' = locks w /\
  Sandbox.challenge_id sb = Challenge.id challenge /\
  Sandbox.user_id sb = user_id /\
  Sandbox.active sb = true.

Definition creates (challenge : Challenge.t) (user_id : option Z)
    (c : M World Sandbox.t) : Prop :=
  forall w, match c w with
            | (Ok sb, w') => inserted challenge user_id w sb w'
            | (Raise _, w') => same_store w w'
            end.

End Frame.

(** ** Specifications of computations: pre- and postconditions *)

Module Hoare.

(** [triple P c Q E]: started in a state of [P], the computation [c]
    ends in a state of [Q a] when it returns [a] and in a state of [E]
    when it raises. *)
Definition triple {S A} (P : S -> Prop) (c : M S A) (Q : A -> S -> Prop) (E : S -> Prop)
  : Prop :=
  forall s, P s -> match c s with
                   | (Ok a, s') => Q a s'
                   | (Raise _, s') => E s'
                   end.

(** [c] keeps the invariant [I], however it ends. *)
Definition keeps {S A} (I : S -> Prop) (c : M S A) : Prop :=
  triple I c (fun _ => I) I.

End Hoare.

(** ** What the firewall holds, and the commands that leave a port alone *)

Module FirewallFrame.

Import Nft Firewall.

(** The elements of the two sets and of the map. *)
Definition contents (fs : FirewallService) : gset Z * gset Z * gset (Z * string) :=
  (ports_of StaticPorts (nft fs), ports_of SandboxPorts (nft fs), map_of (nft fs)).

(** The rules of a chain, in the order [initialize_firewall] adds them. *)
Definition chain_rules : list rule :=
  [AcceptNonSandbox; AcceptStatic; VerdictMap; RejectReset].

(** The rule set that [initialize_firewall] builds on a host without
    the table. *)
Definition fresh_table : table :=
  Table (Some ∅) (Some ∅) (Some ∅) (Some chain_rules) (Some chain_rules).

(** A command that adds or deletes no element of [keep]: it lists,
    creates an object, or names a port outside [keep]. *)
Definition spares (keep : gset Z) (c : command) : bool :=
  match c with
  | AddSetElement _ p | DeleteSetElement _ p
  | AddMapElement p _ | DeleteMapElement p _ => bool_decide (p ∉ keep)
  | _ => true
  end.

(** The elements keyed on a port of [keep] are the same in both states. *)
Definition same_on (keep : gset Z) (fs fs' : FirewallService) : Prop :=
  forall p, p ∈ keep ->
    (forall s, p ∈ ports_of s (nft fs') <-> p ∈ ports_of s (nft fs)) /\
    (forall ip, (p, ip) ∈ map_of (nft fs') <-> (p, ip) ∈ map_of (nft fs)).

(** The service is not initialised and holds what [fs0] holds. *)
Definition unset (fs0 : FirewallService) (s : FirewallService) : Prop :=
  (forall p, same_on {[p]} fs0 s) /\ initialized s = false.

End FirewallFrame.

(** ** Texts without surrounding white space *)

Module PySpec.

(** No character of [s] is white space. *)
Fixpoint spaceless (s : string) : bool :=
  match s with
  | EmptyString => true
  | String a rest => negb (Py.is_space a) && spaceless rest
  end.

End PySpec.

(** ** The challenge service: encodings and counts *)

Module ServiceSpec.

(** [port_mappings] as [_create_sandbox] writes it for a container. *)
Definition encode_ports (ports : list (Z * Z)) : list (string * Py.json) :=
  (fun m => (pretty m.1, Py.JStr (pretty m.2))) <$> ports.

(** The correct submissions of a user for a challenge. *)
Definition correct_submissions (user_id challenge_id : Z) (db : Store)
  : list Submission.t :=
  filter (fun s => Submission.user_id s = user_id /\
                   Submission.challenge_id s = challenge_id /\
                   Submission.correct s = true)
         (submissions db).

(** The clock and the daemon's port counter, which the volume
    commands and the firewall leave alone. *)
Definition at_ (t n : Z) (w : World) : Prop :=
  now w = t /\ Docker.next_port (docker w) = n.

End ServiceSpec.

(** ** States of the firewall service *)

Module FirewallStates.

Import Nft.

(** The table has its map and its two sets. *)
Definition furnished (t : table) : Prop :=
  is_Some (static_ports t) /\ is_Some (sandbox_ports t) /\
  is_Some (sandbox_port_to_ip t).

(** A host whose command line runs; the table, if it is there, is
    furnished, and a service that has no table yet is uninitialised. *)
Definition working (fs : FirewallService) : Prop :=
  faults (nft fs) = [] /\
  match ruleset (nft fs) with
  | Some t => furnished t
  | None => initialized fs = false
  end.

(** Initialised on a working host. *)
Definition serving (fs : FirewallService) : Prop :=
  initialized fs = true /\ faults (nft fs) = [] /\
  exists t, ruleset (nft fs) = Some t /\ furnished t.

(** The keys that pair each port of [ports] with [ip]. *)
Definition keys_for (ip : string) (ports : list Z) : gset (Z * string) :=
  list_to_set ((fun p => (p, ip)) <$> ports).

End FirewallStates.

(** ** The periodic tasks: expiry and referential integrity *)

Module TaskSpec.

(** A session that [cleanup_expired_sessions] has to close at time [t]. *)
Definition expired (t : Z) (s : UserSession.t) : Prop :=
  UserSession.active s = true /\ UserSession.expires_at s <= t.

(** Referential integrity of [Sandbox.challenge]. *)
Definition challenges_present (db : Store) : Prop :=
  forall sb, sb ∈ sandboxes db -> is_Some (Db.get_challenge (Sandbox.challenge_id sb) db).

(** The sessions closed one after the other. *)
Definition close_all (l : list UserSession.t) (db : Store) : Store :=
  foldl (fun d s => Db.deactivate_session (UserSession.id s) d) db l.

Definition expired_sessions (t : Z) (db : Store) : list UserSession.t :=
  filter (fun s => UserSession.active s = true /\ UserSession.expires_at s <= t)
         (sessions db).

End TaskSpec.

(** ** user_auth/views.py: logging out *)

Module AuthViews.

Import Http.

(** [logout_view] for the authenticated user [u] ([login_required]
    lets no other request in).  [django_logout], which ends the browser
    session, acts on no part of the state kept here. *)
Definition logout_view (r : request) (u : User.t) : M World response :=
  let client_ip := Views.get_client_ip r in
  user_session <- gets (fun w =>
    head (Db.active_sessions_at (User.id u) client_ip (db w))) ;;
  match user_session with
  | Some session =>
      try_except
        (on_firewall Firewall.initialize_firewall ;;;
         active_sandboxes <- gets (fun w => Views.active_sandboxes (User.id u) (db w)) ;;
         on_firewall
           (for_each active_sandboxes
              (fun sc => if Challenge.static sc.2 then ret tt
                         else Views.remove_mappings sc.1 client_ip)))
        (fun _ => ret tt) ;;;
      with_db (Db.deactivate_session (UserSession.id session))
  | None => ret tt
  end ;;;
  ret (Redirect "home" "").

End AuthViews.

(** ** challenge/views.py *)

Module ChallengeViews.

Import Http.

(** The level at which a view posts its message. *)
Inductive level : Type := Success | Warning | Error.

(** What a view answers: a redirect to the sandbox, or a redirect to
    the home page with a message. *)
Inductive outcome : Type :=
| Go (url : string)
| Home (l : level) (message : string).

Definition lower_ascii (a : ascii) : ascii :=
  let n := nat_of_ascii a in
  if ((65 <=? n) && (n <=? 90))%nat then ascii_of_nat (n + 32) else a.

(** [str.lower()] *)
Fixpoint lower (s : string) : string :=
  match s with
  | EmptyString => EmptyString
  | String a rest => String (lower_ascii a) (lower rest)
  end.

(** [needle in s] *)
Fixpoint contains (needle s : string) : bool :=
  String.prefix needle s ||
  match s with
  | EmptyString => false
  | String _ rest => contains needle rest
  end.

Definition is_digit (a : ascii) : bool :=
  match Py.digit_of a with Some _ => true | None => false end.

(** The string is one or more digits, then nothing or one newline:
    what [\d+$] matches to the end. *)
Fixpoint digits_to_end (seen : bool) (s : string) : bool :=
  match s with
  | EmptyString => seen
  | String a rest =>
      if is_digit a then digits_to_end true rest
      else seen && Ascii.eqb a "010"%char &&
           match rest with EmptyString => true | _ => false end
  end.

Fixpoint keep_newline (s : string) : string :=
  match s with
  | EmptyString => EmptyString
  | String a rest => if Ascii.eqb a "010"%char then s else keep_newline rest
  end.

(** [re.sub(r":\d+$", replacement, s)] *)
Fixpoint sub_port (replacement s : string) : string :=
  match s with
  | EmptyString => EmptyString
  | String a rest =>
      if Ascii.eqb a ":"%char && digits_to_end false rest
      then replacement +:+ keep_newline rest
      else String a (sub_port replacement rest)
  end.

Definition _generate_sandbox_url (server_name : string) (sandbox : Sandbox.t) : string :=
  "http://" +:+ sub_port (":" +:+ pretty (Sandbox.container_port sandbox)) server_name.

(** [time.sleep(seconds)] *)
Definition sleep (seconds : Z) : M World unit :=
  modify (fun w => MkWorld (db w) (firewall w) (docker w) (volumes w) (locks w)
                           (now w + seconds)).

(** The waiting loop of [start_challenge]: up to [retries] rounds of
    six seconds, each followed by a look at the sandbox table.  As with
    [acquire_lock], this is the loop as one request sees it: nobody
    else writes to the table while it sleeps. *)
Fixpoint poll (retries : nat) (challenge : Challenge.t) (u : User.t)
  : M World (option Sandbox.t) :=
  match retries with
  | O => ret None
  | S k =>
      sleep 6 ;;;
      sandbox <- gets (fun w =>
        head (Db.active_sandboxes_for (Challenge.id challenge)
                (if Challenge.static challenge then None else Some (User.id u))
                (db w))) ;;
      match sandbox with
      | Some sb => ret (Some sb)
      | None => poll k challenge u
      end
  end.

(** [start_challenge] for the authenticated user [u]; [server_name] is
    [settings.SERVER_NAME]. *)
Definition start_challenge (server_name : string) (u : User.t) (challenge_id : Z)
  : M World outcome :=
  found <- gets (fun w => Db.get_challenge challenge_id (db w)) ;;
  match found with
  | None => ret (Home Error "Challenge not found.")
  | Some challenge =>
      if negb (Challenge.active challenge)
      then ret (Home Error "Challenge is not active.")
      else
        solved <- ChallengeService.check_user_solved_challenge
                    (Some (User.id u)) challenge_id ;;
        if solved then ret (Home Warning "You have already solved it.")
        else
          try_except
            (let user_id_for_sandbox :=
               if Challenge.static challenge then None else Some (User.id u) in
             sandbox <- ChallengeService.get_or_create_sandbox
                          challenge user_id_for_sandbox ;;
             match sandbox with
             | Some sb => ret (Go (_generate_sandbox_url server_name sb))
             | None =>
                 polled <- poll 10 challenge u ;;
                 match polled with
                 | Some sb => ret (Go (_generate_sandbox_url server_name sb))
                 | None =>
                     ret (Home Error "Error starting challenge, check with admins.")
                 end
             end)
            (fun e =>
               match e with
               | SandboxCreateTimeoutException =>
                   ret (Home Error "Challenge stuck in unhealthy state")
               | _ => ret (Home Error "Error starting challenge")
               end)
  end.

(** [submit_flag] (the view) for the authenticated user [u]. *)
Definition submit_flag (r : request) (u : User.t) (challenge_id : Z)
  : M World outcome :=
  found <- gets (fun w => Db.get_challenge challenge_id (db w)) ;;
  match found with
  | None => ret (Home Error "Challenge not found.")
  | Some _ =>
      let flag := Py.strip (lookup "flag" (POST r)) in
      if negb (nonempty flag) then ret (Home Error "Invalid flag submission.")
      else if (500 <? String.length flag)%nat then ret (Home Error "Flag is too long.")
      else
        answer <- ChallengeService.submit_flag (User.id u) challenge_id flag ;;
        let (success, message) := answer in
        if success then ret (Home Success message)
        else if contains "already" (lower message) then ret (Home Warning message)
        else ret (Home Error message)
  end.

End ChallengeViews.

(** ** tasks/tasks.py and events/signals.py: scheduling clean-ups *)

Module Scheduling.

(** [Exists(Submission.objects.filter(challenge_id=OuterRef("challenge_id"),
    user_id=OuterRef("user_id"), correct=True))] *)
Definition solved_by_owner (sb : Sandbox.t) (db : Store) : Prop :=
  Exists (fun s => Submission.challenge_id s = Sandbox.challenge_id sb /\
                   Some (Submission.user_id s) = Sandbox.user_id sb /\
                   Submission.correct s = true)
         (submissions db).

(** [challenge__static=False]: the join with the challenge row. *)
Definition non_static (sb : Sandbox.t) (db : Store) : bool :=
  match Db.get_challenge (Sandbox.challenge_id sb) db with
  | Some c => negb (Challenge.static c)
  | None => false
  end.

(** The rows that [destroy_non_static_sandboxes] selects at time [t]. *)
Definition to_destroy (t : Z) (db : Store) : list Sandbox.t :=
  filter (fun sb => Sandbox.active sb = true /\ non_static sb db = true /\
                    (solved_by_owner sb db \/ Sandbox.created_at sb <= t - 7200))
         (sandboxes db).

(** A task handed to the queue with [.delay(...)]. *)
Inductive job : Type :=
| CleanupSandbox (sandbox_id : Z)
| SendNotification (message : string) (user_id : option Z) (to_all : bool).

(** [destroy_non_static_sandboxes]: the tasks it queues, in order. *)
Definition destroy_non_static_sandboxes : M World (list job) :=
  t <- gets now ;;
  gets (fun w => (fun sb => CleanupSandbox (Sandbox.id sb)) <$> to_destroy t (db w)).

Definition get_user (id : Z) (db : Store) : option User.t :=
  head (filter (fun u => User.id u = id) (users db)).

(** [handle_user_ban], run before a user row is saved as [instance]:
    the tasks it queues. *)
Definition handle_user_ban (instance : User.t) : M World (list job) :=
  if User.id instance =? 0 then ret []
  else
    old <- gets (fun w => get_user (User.id instance) (db w)) ;;
    match old with
    | None => ret []
    | Some old_instance =>
        if negb (User.banned old_instance) && User.banned instance
        then gets (fun w =>
               (fun sb => CleanupSandbox (Sandbox.id sb))
                 <$> Db.active_sandboxes_of (User.id instance) (db w))
        else ret []
    end.

(** [handle_challenge_deactivation], run before a challenge row is
    saved as [instance]: the tasks it queues. *)
Definition handle_challenge_deactivation (instance : Challenge.t) : M World (list job) :=
  if Challenge.id instance =? 0 then ret []
  else
    old <- gets (fun w => Db.get_challenge (Challenge.id instance) (db w)) ;;
    match old with
    | None => ret []
    | Some old_instance =>
        if Challenge.active old_instance && negb (Challenge.active instance)
        then
          active_sandboxes <- gets (fun w =>
            Db.active_sandboxes_for (Challenge.id instance) None (db w)) ;;
          ret ((((fun sb => CleanupSandbox (Sandbox.id sb)) <$> active_sandboxes) ++
                [SendNotification
                   ("Challenge " +:+ Challenge.name instance +:+ " has been deactivated.")
                   None true])%list)
        else ret []
    end.

(** The [cleanup_sandbox] tasks of a queue. *)
Definition cleanups (jobs : list job) : list Z :=
  omap (fun j => match j with
                 | CleanupSandbox sandbox_id => Some sandbox_id
                 | SendNotification _ _ _ => None
                 end) jobs.

(** The worker running the queued [cleanup_sandbox] tasks one after
    the other. *)
Definition run_cleanups (jobs : list job) : M World unit :=
  for_each (cleanups jobs) Tasks.cleanup_sandbox.

End Scheduling.

(** ** Server names *)

Module UrlSpec.

Import ChallengeViews.

(** One or more decimal digits. *)
Fixpoint all_digits (s : string) : bool :=
  match s with
  | EmptyString => true
  | String a rest => is_digit a && all_digits rest
  end.

Definition port_text (s : string) : bool := all_digits s && negb (String.eqb s "").

(** No colon, and no newline. *)
Fixpoint plain (s : string) : bool :=
  match s with
  | EmptyString => true
  | String a rest =>
      negb (Ascii.eqb a ":"%char) && negb (Ascii.eqb a "010"%char) && plain rest
  end.

End UrlSpec.

(** ** The effect of a run of clean-up tasks *)

Module SchedulingSpec.

(** What a run of clean-up tasks for the sandboxes [ids] may do to the
    database and must do to those sandboxes. *)
Definition swept (ids : list Z) (w w' : World) : Prop :=
  challenges (db w') = challenges (db w) /\
  submissions (db w') = submissions (db w) /\
  users (db w') = users (db w) /\
  sessions (db w') = sessions (db w) /\
  now w' = now w /\
  (forall r, r ∈ sandboxes (db w') -> Sandbox.active r = true ->
             r ∈ sandboxes (db w) /\ Sandbox.id r ∉ ids) /\
  (forall r, Sandbox.id r ∉ ids -> r ∈ sandboxes (db w') <-> r ∈ sandboxes (db w)).

End SchedulingSpec.

(** ** xctf/apps.py: rebuilding the firewall rules at start-up *)

Module Apps.

(** A [for] loop that updates a local variable. *)
Fixpoint fold_each {S A B} (xs : list A) (acc : B) (body : A -> B -> M S B) : M S B :=
  match xs with
  | [] => ret acc
  | x :: rest => acc' <- body x acc ;; fold_each rest acc' body
  end.

(** [Sandbox.objects.filter(active=True, challenge__static=True)] *)
Definition static_sandboxes (db : Store) : list Sandbox.t :=
  filter (fun sb => Sandbox.active sb = true /\
                    match Db.get_challenge (Sandbox.challenge_id sb) db with
                    | Some c => Challenge.static c
                    | None => false
                    end = true)
         (sandboxes db).

(** The body of the thread that [XctfConfig.ready] starts.  The
    database is always there in this model, so the handler for
    [ProgrammingError] and [OperationalError] has nothing to catch. *)
Definition initialize_firewall_sync : M World unit :=
  try_except
    (on_firewall Firewall.initialize_firewall ;;;
     active_sessions <- gets (fun w =>
       filter (fun s => UserSession.active s = true) (sessions (db w))) ;;
     active_ports <- fold_each active_sessions (∅ : gset Z)
       (fun session active_ports =>
          active_sandboxes <- gets (fun w =>
            Views.active_sandboxes (UserSession.user_id session) (db w)) ;;
          fold_each active_sandboxes active_ports
            (fun sc active_ports =>
               let sandbox := sc.1 in
               if negb (Challenge.static sc.2)
               then
                 on_firewall (Firewall.add_port_ip_mapping
                                (Sandbox.container_port sandbox)
                                (UserSession.ip_address session)) ;;;
                 fold_each (ChallengeService.mapped_ports sandbox)
                   ({[Sandbox.container_port sandbox]} ∪ active_ports)
                   (fun port_int active_ports =>
                      on_firewall (Firewall.add_port_ip_mapping
                                     port_int (UserSession.ip_address session)) ;;;
                      ret ({[port_int]} ∪ active_ports))
               else ret active_ports)) ;;
     static_sandboxes <- gets (fun w => static_sandboxes (db w)) ;;
     active_ports <- fold_each static_sandboxes active_ports
       (fun sandbox active_ports =>
          on_firewall (Firewall.add_static_port (Sandbox.container_port sandbox)) ;;;
          fold_each (ChallengeService.mapped_ports sandbox)
            ({[Sandbox.container_port sandbox]} ∪ active_ports)
            (fun port_int active_ports =>
               on_firewall (Firewall.add_static_port port_int) ;;;
               ret ({[port_int]} ∪ active_ports))) ;;
     on_firewall (Firewall.clean_orphan_ports active_ports) ;;;
     ret tt)
    (fun _ => ret tt).

End Apps.

(** ** The rules that start-up has to put in place *)

Module StartupSpec.

Import Nft.

(** A rule that the start-up has to put in place. *)
Inductive rule_needed : Type :=
| Mapped (port : Z) (ip : string)
| Static (port : Z).

Definition port_of (r : rule_needed) : Z :=
  match r with Mapped p _ | Static p => p end.

Definition in_place (r : rule_needed) (fs : FirewallService) : Prop :=
  match r with
  | Mapped p ip => p ∈ ports_of SandboxPorts (nft fs) /\ (p, ip) ∈ map_of (nft fs)
  | Static p => p ∈ ports_of StaticPorts (nft fs)
  end.

(** The state of the rebuild after the rules [rs]: the firewall serves,
    the rules are in place and their ports have been noted, and nothing
    but the firewall has changed since [w]. *)
Definition rebuilt (w : World) (rs : list rule_needed) (active_ports : gset Z)
    (v : World) : Prop :=
  db v = db w /\
  FirewallStates.serving (firewall v) /\
  forall r, r ∈ rs -> in_place r (firewall v) /\ port_of r ∈ active_ports.

(** The rules that the rows of the database call for: for every active
    session, the ports of the active non-static sandboxes of its user,
    paired with the address of the session; and the ports of the active
    sandboxes of static challenges. *)
Definition rules_needed (db : Store) : list rule_needed :=
  ((filter (fun s => UserSession.active s = true) (sessions db) ≫= fun session =>
      Views.active_sandboxes (UserSession.user_id session) db ≫= fun sc =>
        if negb (Challenge.static sc.2)
        then (fun p => Mapped p (UserSession.ip_address session))
               <$> Tasks.ports_of_sandbox sc.1
        else []) ++
   (Apps.static_sandboxes db ≫= fun sb => Static <$> Tasks.ports_of_sandbox sb))%list.

End StartupSpec.

(* ===================================================================== *)
(** * Verified properties *)
(* ===================================================================== *)

(** ** Python helpers on concrete inputs *)

Example strip_flag : Py.strip "  FLAG{test123}  " = "FLAG{test123}".
Proof. reflexivity. Qed.

Example int_of_string_ok : Py.int_of_string " 32_768 " = Some 32768.
Proof. reflexivity. Qed.

Example int_of_string_bad : Py.int_of_string "0x10" = None.
Proof. reflexivity. Qed.

Set Warnings "-clear-no-such-hyp".

(** ** Facts about the monad *)

Lemma for_each_app {S A} (xs ys : list A) (body : A -> M S unit) s :
  for_each (xs ++ ys) body s =
  match for_each xs body s with
  | (Ok _, s') => for_each ys body s'
  | (Raise e, s') => (Raise e, s')
  end.
Proof.
  revert s. induction xs as [|x xs IH]; intros s; simpl.
  - reflexivity.
  - unfold bind. destruct (body x s) as [[[]|e] s']; [apply IH | reflexivity].
Qed.

(** ** Facts about the packet filter *)

Module NftFacts.

Import Nft.

(** The contents of the sets and of the map do not depend on the fault
    script; only the runner consumes it. *)
Lemma ports_of_ruleset s st f f' : ports_of s (Host st f) = ports_of s (Host st f').
Proof. reflexivity. Qed.

Lemma map_of_ruleset st f f' : map_of (Host st f) = map_of (Host st f').
Proof. reflexivity. Qed.

Ltac case_table st :=
  destruct st as [[[?|] [?|] [?|] ? ?]|]; simpl; repeat case_decide; simpl.

Lemma exec_delete_set_element s p st f :
  let st' := snd (exec (DeleteSetElement s p) st) in
  ports_of s (Host st' f) = ports_of s (Host st f) ∖ {[p]}.
Proof.
  destruct s; case_table st; unfold ports_of; simpl; set_solver.
Qed.

Lemma exec_delete_set_element_other s s' p st f :
  s ≠ s' ->
  ports_of s' (Host (snd (exec (DeleteSetElement s p) st)) f) = ports_of s' (Host st f).
Proof.
  intros Hne. destruct s, s'; try congruence; case_table st; reflexivity.
Qed.

Lemma exec_delete_set_element_map s p st f :
  map_of (Host (snd (exec (DeleteSetElement s p) st)) f) = map_of (Host st f).
Proof. destruct s; case_table st; reflexivity. Qed.

Lemma exec_delete_map_element p ip st f :
  map_of (Host (snd (exec (DeleteMapElement p ip) st)) f) = map_of (Host st f) ∖ {[(p, ip)]}.
Proof. case_table st; unfold map_of; simpl; set_solver. Qed.

Lemma exec_delete_map_element_ports s p ip st f :
  ports_of s (Host (snd (exec (DeleteMapElement p ip) st)) f) = ports_of s (Host st f).
Proof. destruct s; case_table st; reflexivity. Qed.

End NftFacts.

(** ** The firewall service *)

Module FirewallFacts.

Import Nft Firewall NftFacts Samples FirewallSpec.

(** On a host whose command line always runs, the runner is [exec]. *)
Lemma run_no_fault c check fs :
  faults (nft fs) = [] ->
  _run_nftables_command c check fs =
  let '(ok, out, st') := exec c (ruleset (nft fs)) in
  (if ok then Ok (true, out) else if check then Raise RuntimeError else Ok (false, out),
   MkFirewallService (initialized fs) (Host st' [])).
Proof.
  intros Hf. unfold _run_nftables_command. rewrite Hf. simpl.
  destruct (exec c (ruleset (nft fs))) as [[ok out] st'].
  destruct ok, check; reflexivity.
Qed.

(** The runner never touches the [_initialized] flag, and without
    [check] it never raises. *)
Lemma run_initialized c check fs :
  initialized (state_of (_run_nftables_command c check fs)) = initialized fs.
Proof.
  unfold _run_nftables_command.
  destruct (faults (nft fs)) as [|[] rest];
    destruct (exec c (ruleset (nft fs))) as [[[] out] st'];
    destruct check; reflexivity.
Qed.

Lemma run_unchecked c fs :
  exists ok out, result_of (_run_nftables_command c false fs) = Ok (ok, out).
Proof.
  unfold _run_nftables_command.
  destruct (faults (nft fs)) as [|[] rest];
    destruct (exec c (ruleset (nft fs))) as [[[] out] st']; simpl; eauto.
Qed.

(** A checked run raises exactly when the unchecked run reports a
    failure, and both leave the same state behind. *)
Lemma run_checked_fails c fs :
  invocation_fails c fs = true ->
  result_of (_run_nftables_command c true fs) = Raise RuntimeError.
Proof.
  unfold invocation_fails, _run_nftables_command.
  destruct (faults (nft fs)) as [|[] rest];
    destruct (exec c (ruleset (nft fs))) as [[[] out] st']; simpl; congruence.
Qed.

Lemma run_checked_succeeds c fs :
  invocation_fails c fs = false ->
  exists out, result_of (_run_nftables_command c true fs) = Ok (true, out).
Proof.
  unfold invocation_fails, _run_nftables_command.
  destruct (faults (nft fs)) as [|[] rest];
    destruct (exec c (ruleset (nft fs))) as [[[] out] st']; simpl;
    try congruence; eauto.
Qed.

Lemma run_state_check c fs :
  state_of (_run_nftables_command c true fs) =
  state_of (_run_nftables_command c false fs).
Proof.
  unfold _run_nftables_command.
  destruct (faults (nft fs)) as [|[] rest];
    destruct (exec c (ruleset (nft fs))) as [[[] out] st']; reflexivity.
Qed.

(** C9: on an initialised service, [remove_all_ports_for_ip] returns
    [True] and changes nothing: the port-to-address map, the
    [sandbox_ports] set and the [static_ports] set are what they were
    (the whole service state is). *)
Theorem remove_all_ports_for_ip_is_a_stub (ip_address : string) (fs : FirewallService) :
  initialized fs = true ->
  let (r, fs') := remove_all_ports_for_ip ip_address fs in
  r = Ok true /\ fs' = fs /\
  map_of (nft fs') = map_of (nft fs) /\
  ports_of SandboxPorts (nft fs') = ports_of SandboxPorts (nft fs) /\
  ports_of StaticPorts (nft fs') = ports_of StaticPorts (nft fs).
Proof.
  intros Hinit.
  unfold remove_all_ports_for_ip, try_except, bind, gets, ret.
  rewrite Hinit. simpl. auto.
Qed.

Lemma remove_all_ports_for_ip_is_a_stub_witness :
  let (r, fs') := remove_all_ports_for_ip "10.0.0.1" (MkFirewallService true sample_host) in
  r = Ok true /\ fs' = MkFirewallService true sample_host /\
  map_of (nft fs') = map_of sample_host /\
  ports_of SandboxPorts (nft fs') = ports_of SandboxPorts sample_host /\
  ports_of StaticPorts (nft fs') = ports_of StaticPorts sample_host.
Proof.
  apply (remove_all_ports_for_ip_is_a_stub "10.0.0.1" (MkFirewallService true sample_host)).
  reflexivity.
Defined.

(** *** [add_port_ip_mapping]: which failure is fatal *)

Lemma add_port_ip_mapping_unfold port ip fs fs0 :
  ensure_initialized fs = (Ok tt, fs0) ->
  let fs1 := state_of (_run_nftables_command (AddSetElement SandboxPorts port) false fs0) in
  add_port_ip_mapping port ip fs =
  match _run_nftables_command (AddMapElement port ip) true fs1 with
  | (Ok result, fs2) => (Ok (fst result), fs2)
  | (Raise _, fs2) => (Ok false, fs2)
  end.
Proof.
  intros Hinit fs1. subst fs1.
  unfold add_port_ip_mapping, try_except, bind at 1. rewrite Hinit.
  unfold bind at 1.
  destruct (run_unchecked (AddSetElement SandboxPorts port) fs0) as (ok & out & Hrun).
  destruct (_run_nftables_command (AddSetElement SandboxPorts port) false fs0)
    as [r s1] eqn:E.
  simpl in Hrun. subst r. simpl. unfold bind.
  destruct (_run_nftables_command (AddMapElement port ip) true s1) as [[[b o]|e] s2];
    simpl; [destruct b|]; reflexivity.
Qed.



(** The map insertion fails (second invocation): [False] is returned
    although the port did enter the set. *)
Example add_port_ip_mapping_map_failure :
  let fs := MkFirewallService true (Host (ruleset sample_host) [false; true]) in
  result_of (add_port_ip_mapping 40000 "10.0.0.2" fs) = Ok false /\
  bool_decide (40000 ∈ ports_of SandboxPorts
                 (nft (state_of (add_port_ip_mapping 40000 "10.0.0.2" fs)))) = true.
Proof. vm_compute. split; reflexivity. Qed.

(** A port that is in the set already does not make the operation fail. *)
Example add_port_ip_mapping_duplicate_port :
  result_of (add_port_ip_mapping 32768 "10.0.0.2" (MkFirewallService true sample_host))
  = Ok true.
Proof. vm_compute. reflexivity. Qed.

(** *** Adding then removing a mapping *)

Ltac fw_compute :=
  cbv [add_then_remove add_port_ip_mapping remove_port_ip_mapping
       ensure_initialized initialize_firewall install_rules set_initialized
       _run_nftables_command try_except bind ret raise gets modify
       state_of result_of exec failed put_map put_set put_chain get_set
       get_chain empty_table nft initialized ruleset faults static_ports
       sandbox_ports sandbox_port_to_ip prerouting input tail negb fst snd
       map_of ports_of default].

Lemma remove_port_ip_mapping_keeps_sets s port ip fs :
  ports_of s (nft (state_of (remove_port_ip_mapping port ip fs))) = ports_of s (nft fs).
Proof.
  destruct fs as [[] [[[st sp [m|] pre inp]|] [|[] rest]]]; destruct s;
    fw_compute; repeat case_decide; reflexivity.
Qed.

(** C7 as stated fails: when [(p, ip)] is in the map before, adding it
    changes nothing and removing it deletes the entry that was there. *)
Lemma add_remove_roundtrip_counterexample :
  ~ (forall port ip fs,
       map_of (nft (add_then_remove port ip fs)) = map_of (nft fs)).
Proof.
  intros H.
  specialize (H 32768 "10.0.0.1" (MkFirewallService true sample_host)).
  apply (f_equal (fun m => bool_decide ((32768, "10.0.0.1") ∈ m))) in H.
  vm_compute in H. discriminate H.
Qed.

(** C7, amended: on a host whose command line runs, and for a pair
    [(p, ip)] that is not in the map, [add_port_ip_mapping(p, ip)]
    followed by [remove_port_ip_mapping(p, ip)] leaves the map equal to
    its initial value; and [remove_port_ip_mapping] never changes the
    membership of the [sandbox_ports] set, in any state. *)
Theorem add_remove_roundtrip port ip fs :
  faults (nft fs) = [] ->
  (port, ip) ∉ map_of (nft fs) ->
  map_of (nft (add_then_remove port ip fs)) = map_of (nft fs) /\
  (forall fs' port' ip',
      ports_of SandboxPorts (nft (state_of (remove_port_ip_mapping port' ip' fs')))
      = ports_of SandboxPorts (nft fs')).
Proof.
  intros Hf Hfresh. split; [|intros; apply remove_port_ip_mapping_keeps_sets].
  destruct fs as [init [st f]]. simpl in Hf. subst f. revert Hfresh.
  destruct init; destruct st as [[[st|] [sp|] [m|] [pre|] [inp|]]|];
    fw_compute; intros Hfresh; repeat case_decide; set_solver.
Qed.

Lemma add_remove_roundtrip_witness :
  let fs := MkFirewallService true sample_host in
  map_of (nft (add_then_remove 32768 "10.0.0.2" fs)) = map_of (nft fs) /\
  (forall fs' port' ip',
      ports_of SandboxPorts (nft (state_of (remove_port_ip_mapping port' ip' fs')))
      = ports_of SandboxPorts (nft fs')).
Proof.
  intros fs. apply (add_remove_roundtrip 32768 "10.0.0.2" fs).
  - reflexivity.
  - apply (proj1 (bool_decide_eq_false _)). vm_compute. reflexivity.
Defined.

(** *** Sweeping orphan ports *)

Lemma elem_of_expand_singleton p q :
  p ∈ expand_element (q, None) <-> p = q /\ in_sandbox_range q = true.
Proof.
  unfold expand_element. simpl.
  replace (q + 1 - q) with 1 by lia.
  change (seqZ q 1) with [0 + q].
  rewrite Z.add_0_l, list_elem_of_filter, list_elem_of_singleton.
  split; intros [H1 H2]; subst; auto.
Qed.

Lemma elem_of_parse_ports_listing (sp : gset Z) p :
  p ∈ parse_ports (SetListing ((fun p => (p, None)) <$> elements sp)) <->
  p ∈ sp /\ in_sandbox_range p = true.
Proof.
  unfold parse_ports. rewrite elem_of_list_to_set, list_elem_of_bind.
  split.
  - intros (e & Hp & He).
    apply list_elem_of_fmap in He as (q & -> & Hq).
    apply elem_of_expand_singleton in Hp as [-> Hr].
    apply elem_of_elements in Hq. auto.
  - intros [Hp Hr]. exists (p, None). split.
    + apply elem_of_expand_singleton. auto.
    + apply list_elem_of_fmap. exists p. split; [reflexivity|].
      apply elem_of_elements. exact Hp.
Qed.

(** The inner loop: deleting the listed addresses of one port. *)
Lemma delete_map_entries_loop port init st sp pre inp (ips : list string) :
  forall m : gset (Z * string),
  exists m',
    for_each ips
      (fun ip => _run_nftables_command (DeleteMapElement port ip) false ;;; ret tt)
      (MkFirewallService init (Host (Some (Table st sp (Some m) pre inp)) []))
    = (Ok tt, MkFirewallService init (Host (Some (Table st sp (Some m') pre inp)) []))
    /\ m' = m ∖ list_to_set ((fun ip => (port, ip)) <$> ips).
Proof.
  induction ips as [|ip ips IH]; intros m.
  - exists m. split; [reflexivity | set_solver].
  - simpl. unfold bind at 1. unfold bind at 1.
    rewrite run_no_fault by reflexivity. simpl.
    case_decide; simpl.
    + destruct (IH (m ∖ {[(port, ip)]})) as (m' & Heq & ->).
      eexists. split; [exact Heq | set_solver].
    + destruct (IH m) as (m' & Heq & ->).
      eexists. split; [exact Heq | set_solver].
Qed.

Lemma ip_matches_listing (port : Z) (m : gset (Z * string)) :
  list_to_set ((fun ip => (port, ip)) <$> ip_matches port (MapListing (elements m)))
  = filter (fun e => e.1 = port) m.
Proof.
  apply set_eq. intros [p ip].
  rewrite elem_of_list_to_set, list_elem_of_fmap, elem_of_filter. unfold ip_matches.
  split.
  - intros (ip' & [= -> ->] & Hin).
    apply list_elem_of_fmap in Hin as ([p' ip''] & -> & Hin).
    apply list_elem_of_filter in Hin as [Heq Hin]. simpl in *. subst p'.
    apply elem_of_elements in Hin. auto.
  - simpl. intros [-> Hin]. exists ip. split; [reflexivity|].
    apply list_elem_of_fmap. exists (port, ip). split; [reflexivity|].
    apply list_elem_of_filter. split; [reflexivity|]. apply elem_of_elements, Hin.
Qed.

(** One orphan port, on a host whose command line runs. *)
Lemma clean_orphan_port_effect port init t :
  exists t',
    clean_orphan_port port (MkFirewallService init (Host (Some t) []))
    = (Ok tt, MkFirewallService init (Host (Some t') [])) /\
    default ∅ (sandbox_ports t') = default ∅ (sandbox_ports t) ∖ {[port]} /\
    default ∅ (static_ports t') = default ∅ (static_ports t) ∖ {[port]} /\
    default ∅ (sandbox_port_to_ip t')
    = filter (fun e => e.1 ≠ port) (default ∅ (sandbox_port_to_ip t)).
Proof.
  destruct t as [st sp m pre inp].
  unfold clean_orphan_port, try_except, bind at 1.
  rewrite run_no_fault by reflexivity.
  set (r1 := exec (DeleteSetElement SandboxPorts port) _).
  assert (exists sp', r1.2 = Some (Table st sp' m pre inp) /\
                      default ∅ sp' = default ∅ sp ∖ {[port]}) as (sp' & Hr1 & Hsp').
  { subst r1. destruct sp as [sp|]; simpl; [case_decide|]; simpl;
      eexists; (split; [reflexivity|]); simpl; set_solver. }
  destruct r1 as [[ok1 out1] st1]. simpl in Hr1. subst st1.
  assert ((if ok1 then Ok (true, out1) else Ok (false, out1)) =
          Ok (ok1, out1)) as -> by (destruct ok1; reflexivity).
  unfold bind at 1. rewrite run_no_fault by reflexivity. simpl ruleset.
  set (r2 := exec (DeleteSetElement StaticPorts port) _).
  assert (exists st', r2.2 = Some (Table st' sp' m pre inp) /\
                      default ∅ st' = default ∅ st ∖ {[port]}) as (st' & Hr2 & Hst').
  { subst r2. destruct st as [st|]; simpl; [case_decide|]; simpl;
      eexists; (split; [reflexivity|]); simpl; set_solver. }
  destruct r2 as [[ok2 out2] st2]. simpl in Hr2. subst st2.
  assert ((if ok2 then Ok (true, out2) else Ok (false, out2)) =
          Ok (ok2, out2)) as -> by (destruct ok2; reflexivity).
  unfold bind at 1. rewrite run_no_fault by reflexivity. simpl.
  destruct m as [m|]; simpl.
  - unfold delete_map_entries.
    destruct (delete_map_entries_loop port init st' sp' pre inp
                (ip_matches port (MapListing (elements m))) m) as (m' & -> & Hm').
    eexists. split; [reflexivity|]. simpl. repeat split; [assumption..|].
    rewrite Hm', ip_matches_listing. set_solver.
  - eexists. split; [reflexivity|]. simpl. repeat split; [assumption..|].
    set_solver.
Qed.

Lemma clean_orphan_loop init (l : list Z) :
  forall t, exists t',
    for_each l clean_orphan_port (MkFirewallService init (Host (Some t) []))
    = (Ok tt, MkFirewallService init (Host (Some t') [])) /\
    default ∅ (sandbox_ports t') = default ∅ (sandbox_ports t) ∖ list_to_set l /\
    default ∅ (static_ports t') = default ∅ (static_ports t) ∖ list_to_set l /\
    default ∅ (sandbox_port_to_ip t')
    = filter (fun e => e.1 ∉ (list_to_set l : gset Z)) (default ∅ (sandbox_port_to_ip t)).
Proof.
  induction l as [|p l IH]; intros t.
  - exists t. split; [reflexivity|]. repeat split; [set_solver..|].
    apply set_eq. intros e. rewrite elem_of_filter. set_solver.
  - destruct (clean_orphan_port_effect p init t) as (t1 & Hrun & Hsp & Hst & Hm).
    destruct (IH t1) as (t' & Hloop & Hsp' & Hst' & Hm').
    exists t'. split.
    + simpl. unfold bind. rewrite Hrun. exact Hloop.
    + rewrite Hsp', Hst', Hm', Hsp, Hst, Hm. repeat split; [set_solver..|].
      apply set_eq. intros e. rewrite !elem_of_filter. set_solver.
Qed.

Lemma code_orphans_eq (active sp : gset Z) :
  (list_to_set (((fun p => (p, None)) <$> elements sp) ≫= expand_element) : gset Z)
    ∖ active
  = filter (fun p => in_sandbox_range p = true /\ p ∉ active) sp.
Proof.
  change (list_to_set (((fun p => (p, None)) <$> elements sp) ≫= expand_element))
    with (parse_ports (SetListing ((fun p => (p, None)) <$> elements sp))).
  apply set_eq. intros p.
  rewrite elem_of_difference, elem_of_parse_ports_listing, elem_of_filter.
  tauto.
Qed.

Lemma clean_orphan_ports_effect (active : gset Z) st :
  let fs := MkFirewallService true (Host st []) in
  exists r st',
    clean_orphan_ports active fs = (r, MkFirewallService true (Host st' [])) /\
    ports_of SandboxPorts (Host st' [])
    = ports_of SandboxPorts (Host st []) ∖ orphans active fs /\
    ports_of StaticPorts (Host st' [])
    = ports_of StaticPorts (Host st []) ∖ orphans active fs /\
    map_of (Host st' [])
    = filter (fun e => e.1 ∉ orphans active fs) (map_of (Host st [])).
Proof.
  intros fs. subst fs.
  unfold orphans, clean_orphan_ports, try_except, bind at 1. simpl.
  unfold bind at 1. rewrite run_no_fault by reflexivity. simpl ruleset.
  destruct st as [[st [sp|] m pre inp]|]; simpl.
  - rewrite code_orphans_eq. case_decide as Horph.
    + simpl. do 2 eexists. split; [reflexivity|].
      unfold ports_of, map_of. simpl. rewrite Horph.
      rewrite !difference_empty_L. repeat split.
      apply set_eq. intros e. rewrite elem_of_filter. clear Horph. set_solver.
    + unfold bind.
      destruct (clean_orphan_loop true
                  (elements (filter (fun p => in_sandbox_range p = true /\ p ∉ active) sp))
                  (Table st (Some sp) m pre inp))
        as (t' & -> & Hsp' & Hst' & Hm').
      simpl. do 2 eexists. split; [reflexivity|].
      unfold ports_of, map_of. simpl.
      revert Hsp' Hst' Hm'. rewrite list_to_set_elements_L. simpl.
      intros -> -> ->. repeat split; reflexivity.
  - do 2 eexists. split; [reflexivity|].
    unfold ports_of, map_of. simpl. rewrite filter_empty_L, !difference_empty_L.
    repeat split.
    all: try apply _.
    apply set_eq. intros e. rewrite elem_of_filter. set_solver.
  - do 2 eexists. split; [reflexivity|].
    unfold ports_of, map_of. simpl. rewrite filter_empty_L, !difference_empty_L.
    repeat split. all: apply _.
Qed.

(** C5, amended: on an initialised service whose command line runs,
    [clean_orphan_ports(active)] removes exactly the orphans -- the
    members of [sandbox_ports] inside 32768..65535 that are not active
    -- from both sets, and every map entry keyed on an orphan.  Hence
    every port left in [sandbox_ports] inside that range is active, and
    every surviving map key whose port was a member of [sandbox_ports]
    inside that range has its port in [active].  Ports outside the
    range and map entries of ports that are not in the set stay. *)
Theorem clean_orphan_ports_sweeps (active : gset Z) fs :
  initialized fs = true ->
  faults (nft fs) = [] ->
  let fs' := state_of (clean_orphan_ports active fs) in
  ports_of SandboxPorts (nft fs') = ports_of SandboxPorts (nft fs) ∖ orphans active fs /\
  ports_of StaticPorts (nft fs') = ports_of StaticPorts (nft fs) ∖ orphans active fs /\
  map_of (nft fs') = filter (fun e => e.1 ∉ orphans active fs) (map_of (nft fs)) /\
  (forall p, p ∈ ports_of SandboxPorts (nft fs') ->
             in_sandbox_range p = true -> p ∈ active) /\
  (forall p ip, (p, ip) ∈ map_of (nft fs') ->
                p ∈ ports_of SandboxPorts (nft fs) ->
                in_sandbox_range p = true -> p ∈ active).
Proof.
  intros Hinit Hf fs'.
  destruct fs as [init [st f]]. simpl in Hinit, Hf. subst init f.
  destruct (clean_orphan_ports_effect active st) as (r & st' & Hrun & Hsp & Hst & Hm).
  subst fs'. rewrite Hrun. simpl.
  repeat split; try assumption.
  - intros p Hp Hr. rewrite Hsp in Hp. unfold orphans in Hp.
    apply elem_of_difference in Hp as [Hp Hno].
    destruct (decide (p ∈ active)); [assumption|].
    exfalso. apply Hno. apply elem_of_filter. auto.
  - intros p ip Hp Hin Hr. rewrite Hm in Hp.
    apply elem_of_filter in Hp as [Hno _]. simpl in Hno. unfold orphans in Hno.
    destruct (decide (p ∈ active)); [assumption|].
    exfalso. apply Hno. apply elem_of_filter. auto.
Qed.

(** C5 as stated fails: port 8080 is in [sandbox_ports], is not
    active and lies outside 32768..65535, so the sweep never looks at
    it; it is still in the set afterwards. *)
Lemma clean_orphan_ports_counterexample :
  ~ (forall (active : gset Z) fs,
       let fs' := state_of (clean_orphan_ports active fs) in
       ports_of SandboxPorts (nft fs') ∖ active = ∅ /\
       (forall p ip, (p, ip) ∈ map_of (nft fs') -> p ∈ active)).
Proof.
  intros H.
  destruct (H {[32770]} (MkFirewallService true stale_host)) as [Hset _].
  apply (f_equal (fun s => bool_decide (8080 ∈ s))) in Hset.
  vm_compute in Hset. discriminate Hset.
Qed.

Lemma clean_orphan_ports_sweeps_witness :
  let fs := MkFirewallService true orphan_host in
  let active : gset Z := {[32770; 40000]} in
  let fs' := state_of (clean_orphan_ports active fs) in
  ports_of SandboxPorts (nft fs') = ports_of SandboxPorts (nft fs) ∖ orphans active fs /\
  ports_of StaticPorts (nft fs') = ports_of StaticPorts (nft fs) ∖ orphans active fs /\
  map_of (nft fs') = filter (fun e => e.1 ∉ orphans active fs) (map_of (nft fs)) /\
  (forall p, p ∈ ports_of SandboxPorts (nft fs') ->
             in_sandbox_range p = true -> p ∈ active) /\
  (forall p ip, (p, ip) ∈ map_of (nft fs') ->
                p ∈ ports_of SandboxPorts (nft fs) ->
                in_sandbox_range p = true -> p ∈ active).
Proof.
  intros fs active.
  apply (clean_orphan_ports_sweeps active fs); reflexivity.
Defined.

(** Scenario "orphan sweep": [sandbox_ports] holds 32770, 32771 and
    40000, the active sandboxes publish 32770 and 40000. *)
Example orphan_sweep_scenario :
  let fs' := state_of (clean_orphan_ports {[32770; 40000]}
                         (MkFirewallService true orphan_host)) in
  elements (ports_of SandboxPorts (nft fs')) = elements ({[32770; 40000]} : gset Z) /\
  bool_decide ((32771, "10.0.0.7") ∈ map_of (nft fs')) = false /\
  bool_decide ((32770, "10.0.0.7") ∈ map_of (nft fs')) = true.
Proof. vm_compute. repeat split; reflexivity. Qed.

(** Two more states the sweep leaves alone: an uninitialised service,
    and a map entry whose port is not in [sandbox_ports]. *)
Example clean_orphan_ports_uninitialised :
  clean_orphan_ports ∅ (MkFirewallService false orphan_host)
  = (Ok false, MkFirewallService false orphan_host).
Proof. reflexivity. Qed.

Example clean_orphan_ports_keeps_unlisted_entry :
  bool_decide ((32771, "10.0.0.1") ∈
     map_of (nft (state_of (clean_orphan_ports {[32770]}
                              (MkFirewallService true stale_host))))) = true.
Proof. vm_compute. reflexivity. Qed.

(** *** Removing every rule of a sandbox *)

Lemma delete_map_entries_none port init st sp pre inp (ips : list string) :
  for_each ips
    (fun ip => _run_nftables_command (DeleteMapElement port ip) false ;;; ret tt)
    (MkFirewallService init (Host (Some (Table st sp None pre inp)) []))
  = (Ok tt, MkFirewallService init (Host (Some (Table st sp None pre inp)) [])).
Proof.
  induction ips as [|ip ips IH]; [reflexivity|].
  simpl. unfold bind at 1. unfold bind at 1.
  rewrite run_no_fault by reflexivity. simpl. exact IH.
Qed.

Lemma delete_map_entries_effect port out init t :
  exists t',
    delete_map_entries port out (MkFirewallService init (Host (Some t) []))
    = (Ok tt, MkFirewallService init (Host (Some t') [])) /\
    sandbox_ports t' = sandbox_ports t /\
    static_ports t' = static_ports t /\
    default ∅ (sandbox_port_to_ip t')
    = default ∅ (sandbox_port_to_ip t)
        ∖ list_to_set ((fun ip => (port, ip)) <$> ip_matches port out).
Proof.
  destruct t as [st sp [m|] pre inp]; unfold delete_map_entries.
  - destruct (delete_map_entries_loop port init st sp pre inp (ip_matches port out) m)
      as (m' & -> & ->).
    eexists. split; [reflexivity|]. simpl. auto.
  - rewrite delete_map_entries_none. eexists. split; [reflexivity|].
    simpl. repeat split. set_solver.
Qed.

Lemma run_delete_set_element s port init t :
  exists r t',
    _run_nftables_command (DeleteSetElement s port) false
      (MkFirewallService init (Host (Some t) []))
    = (Ok r, MkFirewallService init (Host (Some t') [])) /\
    default ∅ (get_set s t') = default ∅ (get_set s t) ∖ {[port]} /\
    (forall s', s' ≠ s -> get_set s' t' = get_set s' t) /\
    sandbox_port_to_ip t' = sandbox_port_to_ip t.
Proof.
  rewrite run_no_fault by reflexivity.
  destruct t as [st sp m pre inp].
  destruct s; simpl.
  - destruct st as [st|]; simpl; [case_decide|]; simpl;
      do 2 eexists; (split; [reflexivity|]); simpl;
      (split; [set_solver | split; [intros [] ?; (congruence || reflexivity) | reflexivity]]).
  - destruct sp as [sp|]; simpl; [case_decide|]; simpl;
      do 2 eexists; (split; [reflexivity|]); simpl;
      (split; [set_solver | split; [intros [] ?; (congruence || reflexivity) | reflexivity]]).
Qed.

Lemma remove_port_rules_effect ok out port init t :
  exists t',
    remove_port_rules ok out port (MkFirewallService init (Host (Some t) []))
    = (Ok tt, MkFirewallService init (Host (Some t') [])) /\
    default ∅ (sandbox_ports t') = default ∅ (sandbox_ports t) ∖ {[port]} /\
    default ∅ (static_ports t') = default ∅ (static_ports t) ∖ {[port]} /\
    default ∅ (sandbox_port_to_ip t')
    = default ∅ (sandbox_port_to_ip t)
        ∖ (if ok then list_to_set ((fun ip => (port, ip)) <$> ip_matches port out)
           else ∅).
Proof.
  unfold remove_port_rules, bind at 1.
  destruct (run_delete_set_element SandboxPorts port init t)
    as (r1 & t1 & -> & Hsp1 & Hother1 & Hm1).
  unfold bind at 1.
  destruct (run_delete_set_element StaticPorts port init t1)
    as (r2 & t2 & -> & Hst2 & Hother2 & Hm2).
  simpl in *.
  pose proof (Hother1 StaticPorts ltac:(congruence)) as Hst1.
  pose proof (Hother2 SandboxPorts ltac:(congruence)) as Hsp2.
  simpl in *.
  destruct ok.
  - destruct (delete_map_entries_effect port out init t2) as (t3 & -> & Hsp3 & Hst3 & Hm3).
    exists t3. split; [reflexivity|].
    rewrite Hsp3, Hst3, Hm3, Hsp2, Hst2, Hm2, Hsp1, Hst1, Hm1. auto.
  - exists t2. split; [reflexivity|].
    rewrite Hsp2, Hst2, Hm2, Hsp1, Hst1, Hm1. repeat split. set_solver.
Qed.

Lemma remove_port_rules_loop ok out init (l : list Z) :
  forall t, exists t',
    for_each l (remove_port_rules ok out) (MkFirewallService init (Host (Some t) []))
    = (Ok tt, MkFirewallService init (Host (Some t') [])) /\
    default ∅ (sandbox_ports t') = default ∅ (sandbox_ports t) ∖ list_to_set l /\
    default ∅ (static_ports t') = default ∅ (static_ports t) ∖ list_to_set l /\
    default ∅ (sandbox_port_to_ip t')
    = default ∅ (sandbox_port_to_ip t)
        ∖ (if ok
           then list_to_set (l ≫= fun p => (fun ip => (p, ip)) <$> ip_matches p out)
           else ∅).
Proof.
  induction l as [|p l IH]; intros t.
  - exists t. split; [reflexivity|]. destruct ok; repeat split; set_solver.
  - destruct (remove_port_rules_effect ok out p init t) as (t1 & Hrun & Hsp & Hst & Hm).
    destruct (IH t1) as (t' & Hloop & Hsp' & Hst' & Hm').
    exists t'. split.
    + simpl. unfold bind. rewrite Hrun. exact Hloop.
    + rewrite Hsp', Hst', Hm', Hsp, Hst, Hm.
      destruct ok; simpl; repeat split; set_solver.
Qed.

Lemma remove_port_rules_no_table ok out init (l : list Z) :
  for_each l (remove_port_rules ok out) (MkFirewallService init (Host None []))
  = (Ok tt, MkFirewallService init (Host None [])).
Proof.
  induction l as [|p l IH]; [reflexivity|].
  simpl. unfold bind at 1, remove_port_rules, bind at 1.
  rewrite run_no_fault by reflexivity. simpl.
  unfold bind at 1. rewrite run_no_fault by reflexivity. simpl.
  destruct ok; [|exact IH].
  unfold delete_map_entries.
  assert (forall ips,
             for_each ips
               (fun ip => _run_nftables_command (DeleteMapElement p ip) false ;;; ret tt)
               (MkFirewallService init (Host None []))
             = (Ok tt, MkFirewallService init (Host None []))) as ->.
  { induction ips as [|ip ips IHips]; [reflexivity|].
    simpl. unfold bind at 1. unfold bind at 1.
    rewrite run_no_fault by reflexivity. simpl. exact IHips. }
  exact IH.
Qed.

Lemma elem_of_collect_ports p vs : forall acc,
  p ∈ collect_ports acc vs <-> p ∈ acc \/ p ∈ omap Py.coerce_port vs.
Proof.
  unfold omap.
  induction vs as [|v vs IH]; intros acc; simpl.
  - rewrite elem_of_nil. tauto.
  - destruct (Py.coerce_port v) as [q|]; [case_decide|]; rewrite IH;
      rewrite ?elem_of_app, ?elem_of_cons, ?list_elem_of_singleton, ?elem_of_nil;
      try tauto.
    split; [tauto|]. intros [?|[->|?]]; auto.
Qed.

(** What is removed: every listed port leaves both sets, and every
    entry of the map keyed on a listed port is deleted. *)
Lemma remove_all_port_mappings_effect sandbox_port port_mappings st :
  let fs := MkFirewallService true (Host st []) in
  let cleaned : gset Z :=
    list_to_set (collect_ports [sandbox_port] (Py.values port_mappings)) in
  exists st',
    remove_all_port_mappings_for_sandbox sandbox_port port_mappings fs
    = (Ok true, MkFirewallService true (Host st' [])) /\
    ports_of SandboxPorts (Host st' []) = ports_of SandboxPorts (Host st []) ∖ cleaned /\
    ports_of StaticPorts (Host st' []) = ports_of StaticPorts (Host st []) ∖ cleaned /\
    map_of (Host st' []) = filter (fun e => e.1 ∉ cleaned) (map_of (Host st [])).
Proof.
  intros fs cleaned. subst fs.
  unfold remove_all_port_mappings_for_sandbox, try_except, bind at 1. simpl.
  unfold bind at 1. rewrite run_no_fault by reflexivity. simpl ruleset.
  destruct st as [t|]; simpl.
  - set (l := collect_ports [sandbox_port] (Py.values port_mappings)) in *.
    destruct t as [st sp [m|] pre inp]; simpl; unfold bind.
    + destruct (remove_port_rules_loop true (MapListing (elements m)) true l
                  (Table st sp (Some m) pre inp)) as (t' & -> & Hsp & Hst & Hm).
      simpl in *. exists (Some t'). split; [reflexivity|].
      unfold ports_of, map_of. simpl. rewrite Hsp, Hst, Hm.
      repeat split.
      apply set_eq. intros [p ip].
      rewrite elem_of_difference, elem_of_filter, elem_of_list_to_set, list_elem_of_bind.
      subst cleaned. rewrite elem_of_list_to_set. simpl.
      split.
      * intros [Hin Hno]. split; [|assumption]. intros Hp. apply Hno.
        exists p. split; [|assumption].
        apply list_elem_of_fmap. exists ip. split; [reflexivity|].
        unfold ip_matches. apply list_elem_of_fmap. exists (p, ip).
        split; [reflexivity|]. apply list_elem_of_filter. split; [reflexivity|].
        apply elem_of_elements, Hin.
      * intros [Hno Hin]. split; [assumption|]. intros (q & Hq & Hl).
        apply list_elem_of_fmap in Hq as (ip' & [= -> ->] & _). auto.
    + destruct (remove_port_rules_loop false ErrorMessage true l
                  (Table st sp None pre inp)) as (t' & -> & Hsp & Hst & Hm).
      simpl in *. exists (Some t'). split; [reflexivity|].
      unfold ports_of, map_of. simpl. rewrite Hsp, Hst, Hm.
      repeat split;
        try (apply set_eq; intros e; rewrite elem_of_filter; set_solver).
  - unfold bind. rewrite remove_port_rules_no_table. simpl.
    exists None. split; [reflexivity|].
    unfold ports_of, map_of. simpl.
    repeat split; try set_solver;
      try (apply set_eq; intros e; rewrite elem_of_filter; set_solver).
Qed.

(** Whatever the state, the removal reports a boolean: every exception
    is caught inside the service. *)
Lemma remove_all_port_mappings_total sandbox_port port_mappings fs :
  exists b fs',
    remove_all_port_mappings_for_sandbox sandbox_port port_mappings fs = (Ok b, fs').
Proof.
  unfold remove_all_port_mappings_for_sandbox, try_except.
  match goal with |- context [match ?c fs with _ => _ end] =>
    destruct (c fs) as [[b|e] fs'] end; simpl; eauto.
Qed.

End FirewallFacts.
(** ** The store, the volumes and the container daemon *)

Module StoreFacts.

Lemma head_filter_Some {A} (P : A -> Prop) `{!forall x, Decision (P x)} (l : list A) x :
  head (filter P l) = Some x -> P x /\ x ∈ l.
Proof.
  intros Hhd. assert (x ∈ filter P l) as Hin.
  { destruct (filter P l); simplify_eq/=. left. }
  apply list_elem_of_filter in Hin. exact Hin.
Qed.

Lemma get_sandbox_id id db S : Db.get_sandbox id db = Some S -> Sandbox.id S = id.
Proof. intros H. apply head_filter_Some in H as [H _]. exact H. Qed.

Lemma get_sandbox_update id db S S' :
  Db.get_sandbox id db = Some S ->
  Sandbox.id S' = id ->
  Db.get_sandbox id (Db.update_sandbox S' db) = Some S'.
Proof.
  unfold Db.get_sandbox, Db.update_sandbox. simpl.
  intros Hget Hid. induction (sandboxes db) as [|r rows IH]; [discriminate|].
  rewrite fmap_cons. rewrite filter_cons in Hget.
  destruct (decide (Sandbox.id r = Sandbox.id S')) as [E|E]; rewrite filter_cons.
  - rewrite decide_True by assumption. reflexivity.
  - rewrite decide_False by congruence.
    rewrite decide_False in Hget by congruence. apply IH, Hget.
Qed.

End StoreFacts.

Module VolumeFacts.

Import Utils.

Lemma clean_up_volume_removes_image challenge_id user_id v :
  exists v',
    clean_up_volume challenge_id user_id v = (Ok tt, v') /\
    volume_file_of challenge_id user_id ∉ files v'.
Proof.
  unfold clean_up_volume, unmount_volume, run_command, os_remove, os_rmdir,
    try_except, bind, gets, modify, ret, raise.
  set (f := volume_file_of challenge_id user_id).
  set (m := mount_point_of challenge_id user_id).
  destruct v as [fs ds ms faults]. simpl.
  destruct faults as [|[] faults]; simpl;
    repeat (case_bool_decide; simpl);
    eexists; (split; [reflexivity|]); simpl; set_solver.
Qed.

End VolumeFacts.

Module DockerFacts.

Lemma stop_and_remove_container_total container_id d :
  exists b d', Docker.stop_and_remove_container container_id d = (Ok b, d').
Proof.
  unfold Docker.stop_and_remove_container, Docker.stop_container,
    Docker.remove_container, Docker.get_container, try_except, bind, modify, ret.
  destruct (head (filter _ (Docker.containers d))); simpl; eauto.
  all: destruct (head (filter _ _)); simpl; eauto.
Qed.

End DockerFacts.

(** ** The periodic tasks *)

Module TaskFacts.

Import Nft Firewall FirewallFacts StoreFacts VolumeFacts DockerFacts.

(** One run of the task on an existing sandbox: each best-effort step
    is absorbed, the row is closed and the volume image is removed; the
    firewall is left as [remove_all_port_mappings_for_sandbox] leaves
    it. *)
Lemma cleanup_sandbox_unfold sandbox_id S w :
  Db.get_sandbox sandbox_id (db w) = Some S ->
  exists dk' vol',
    Tasks.cleanup_sandbox sandbox_id w
    = (Ok tt,
       MkWorld (Db.update_sandbox (Tasks.destroyed S (now w)) (db w))
               (state_of (remove_all_port_mappings_for_sandbox
                            (Sandbox.container_port S) (Sandbox.port_mappings S)
                            (firewall w)))
               dk' vol' (locks w) (now w)) /\
    Utils.volume_file_of (Sandbox.challenge_id S) (Sandbox.user_id S) ∉ files vol'.
Proof.
  intros Hget.
  destruct w as [store fs dk vol lk t]. simpl in *.
  destruct (remove_all_port_mappings_total (Sandbox.container_port S)
              (Sandbox.port_mappings S) fs) as (ok & fs' & Hfw).
  destruct (stop_and_remove_container_total (Sandbox.container_id S) dk)
    as (b & dk' & Hdk).
  destruct (clean_up_volume_removes_image (Sandbox.challenge_id S) (Sandbox.user_id S) vol)
    as (vol' & Hvol & Hfile).
  exists dk', vol'. split; [|exact Hfile].
  unfold Tasks.cleanup_sandbox, bind at 1, gets at 1. simpl. rewrite Hget.
  unfold bind at 1, try_except at 1, bind at 1, on_firewall, zoom. simpl.
  rewrite Hfw. simpl.
  unfold bind at 1, try_except at 1, bind at 1, on_docker, zoom. simpl.
  rewrite Hdk. simpl.
  unfold bind, gets, with_db, modify, on_volumes, zoom. simpl.
  rewrite Hvol. reflexivity.
Qed.




(** The same run, evaluated: both ports of the sandbox are gone from
    the set and from the map, and the container is removed. *)
Example cleanup_sandbox_run :
  let w' := state_of (Tasks.cleanup_sandbox 1 Scenario.world) in
  elements (ports_of SandboxPorts (nft (firewall w'))) = [] /\
  elements (map_of (nft (firewall w'))) = [] /\
  Docker.containers (docker w') = [] /\
  elements (files (volumes w')) = [].
Proof. vm_compute. repeat split; reflexivity. Qed.

(** The run in the uninitialised process: the row is closed and the
    image removed all the same, the rules stay. *)
Example cleanup_sandbox_cold_run :
  let w' := state_of (Tasks.cleanup_sandbox 1 Scenario.cold_world) in
  firewall w' = firewall Scenario.cold_world /\
  (Sandbox.active <$> sandboxes (db w')) = [false] /\
  elements (files (volumes w')) = [].
Proof. vm_compute. repeat split; reflexivity. Qed.

End TaskFacts.

(** ** The challenge service *)

Module ChallengeFacts.

Import ChallengeService ChallengeSpec.

(** C6: for a challenge whose stored flag is [FLAG{test123}] (up to
    surrounding whitespace, which the comparison strips on both sides):
    submitting ["  FLAG{test123}  "] returns [(True, "correct flag")]
    and a submission with [correct=True] is stored when the user has
    no correct submission yet; when one exists, the call returns
    [(False, "You have already solved this challenge.")] and stores
    nothing. *)
Theorem submit_flag_with_whitespace (user_id : Z) (challenge : Challenge.t) (w : World) :
  Db.get_challenge (Challenge.id challenge) (db w) = Some challenge ->
  Py.strip (Challenge.flag challenge) = "FLAG{test123}" ->
  let r := submit_flag user_id (Challenge.id challenge) "  FLAG{test123}  " w in
  (Db.solved user_id (Challenge.id challenge) (db w) = false ->
     result_of r = Ok (true, "correct flag") /\
     (exists pk, Submission.Make pk user_id (Challenge.id challenge) true
                 ∈ submissions (db (state_of r))) /\
     Db.solved user_id (Challenge.id challenge) (db (state_of r)) = true) /\
  (Db.solved user_id (Challenge.id challenge) (db w) = true ->
     result_of r = Ok (false, "You have already solved this challenge.") /\
     state_of r = w).
Proof.
  intros Hget Hflag r. subst r.
  unfold submit_flag, bind, gets. simpl. rewrite Hget. simpl.
  split; intros Hsolved; rewrite Hsolved; simpl; [|auto].
  rewrite Hflag. simpl. split; [reflexivity|]. split.
  - eexists. apply elem_of_app. right. apply list_elem_of_singleton. reflexivity.
  - unfold Db.solved. simpl. apply bool_decide_eq_true.
    apply Exists_app. right. apply Exists_cons. left. simpl. auto.
Qed.

Lemma submit_flag_with_whitespace_witness :
  let r := submit_flag 7 1 "  FLAG{test123}  " Scenario.world in
  result_of r = Ok (true, "correct flag") /\
  (exists pk, Submission.Make pk 7 1 true ∈ submissions (db (state_of r))) /\
  Db.solved 7 1 (db (state_of r)) = true.
Proof.
  destruct (submit_flag_with_whitespace 7 Scenario.web Scenario.world) as [Hfirst _];
    try reflexivity.
  apply Hfirst. reflexivity.
Defined.

(** The scenarios of the test-suite. *)
Example submit_flag_correct :
  result_of (submit_flag 7 1 "FLAG{test123}" Scenario.world) = Ok (true, "correct flag").
Proof. reflexivity. Qed.

Example submit_flag_incorrect :
  result_of (submit_flag 7 1 "FLAG{wrong}" Scenario.world) = Ok (false, "incorrect flag").
Proof. reflexivity. Qed.

Example submit_flag_challenge_not_found :
  result_of (submit_flag 7 99999 "FLAG{test}" Scenario.world)
  = Ok (false, "Challenge not found").
Proof. reflexivity. Qed.

Example submit_flag_already_solved :
  let w := state_of (submit_flag 7 1 "FLAG{test123}" Scenario.world) in
  result_of (submit_flag 7 1 "  FLAG{test123}  " w)
  = Ok (false, "You have already solved this challenge.").
Proof. reflexivity. Qed.

(** *** The ports requested from the container daemon *)

Lemma elem_of_dict_keys p l : forall seen,
  p ∈ dict_keys seen l <-> (p ∈ l) /\ (p ∉ seen).
Proof.
  induction l as [|x l IH]; intros seen; simpl.
  - rewrite elem_of_nil. tauto.
  - case_decide as Hseen.
    + rewrite IH, elem_of_cons. split; [tauto|].
      intros [[->|Hl] Hno]; [contradiction | auto].
    + rewrite elem_of_cons, IH, !elem_of_cons.
      destruct (decide (p = x)) as [->|Hne]; [tauto|]. tauto.
Qed.

(** With a non-empty [tcp_ports] the request is exactly [tcp_ports];
    without, it is 8000 alone. *)
Lemma challenge_ports_spec (challenge : Challenge.t) :
  (list_to_set (challenge_ports challenge) : gset Z) =
  match Challenge.tcp_ports challenge with
  | Some (p :: rest) => list_to_set (p :: rest)
  | _ => {[8000]}
  end.
Proof.
  unfold challenge_ports. destruct (Challenge.tcp_ports challenge) as [[|p rest]|].
  - set_solver.
  - apply set_eq. intros q.
    rewrite !elem_of_list_to_set, elem_of_dict_keys, elem_of_nil. tauto.
  - set_solver.
Qed.

(** C2 fails on the code: for a challenge whose [tcp_ports] is [[9000]]
    the daemon is asked to publish 9000/tcp only -- 8000/tcp, which the
    specification puts in every request, is missing -- and
    [_create_sandbox] then raises [ValueError] because the container
    has no mapping for 8000/tcp. *)
Theorem challenge_ports_omits_8000 :
  challenge_ports two_port_challenge = [9000] /\
  (8000 ∉ challenge_ports two_port_challenge) /\
  ((list_to_set (challenge_ports two_port_challenge) : gset Z)
     ≠ requested_ports two_port_challenge) /\
  result_of (_create_sandbox two_port_challenge (Some 8) Scenario.world)
    = Raise ValueError.
Proof.
  split; [reflexivity|]. split; [|split].
  - apply (proj1 (bool_decide_eq_false _)). vm_compute. reflexivity.
  - intros Heq.
    apply (f_equal (fun s => bool_decide (8000 ∈ s))) in Heq.
    vm_compute in Heq. discriminate Heq.
  - vm_compute. reflexivity.
Qed.

(** Without [tcp_ports], and with a list that names 8000 itself, the
    request is the one the specification describes. *)
Lemma challenge_ports_default (challenge : Challenge.t) :
  Challenge.tcp_ports challenge = None \/ Challenge.tcp_ports challenge = Some [] ->
  (list_to_set (challenge_ports challenge) : gset Z) = requested_ports challenge.
Proof.
  unfold requested_ports. rewrite challenge_ports_spec.
  intros [-> | ->]; simpl; set_solver.
Qed.

Lemma challenge_ports_with_8000 (challenge : Challenge.t) ports :
  Challenge.tcp_ports challenge = Some ports ->
  8000 ∈ ports ->
  (list_to_set (challenge_ports challenge) : gset Z) = requested_ports challenge.
Proof.
  unfold requested_ports. rewrite challenge_ports_spec.
  intros -> Hin. destruct ports as [|p rest]; [inversion Hin|].
  assert (8000 ∈ (list_to_set (p :: rest) : gset Z)) as Hset
    by (apply elem_of_list_to_set; exact Hin).
  simpl in *. set_solver.
Qed.

End ChallengeFacts.

(** ** Sessions and the hand-over of firewall rules *)

Module HandOverFacts.

Import Nft Firewall FirewallFacts SessionSpec.

Lemma initialize_firewall_ready fs :
  usable fs -> faults (nft fs) = [] ->
  exists fs', initialize_firewall fs = (Ok true, fs') /\ ready fs' /\
              map_of (nft fs') = map_of (nft fs).
Proof.
  intros Husable Hf. destruct fs as [init [st f]]. simpl in Hf. subst f.
  unfold usable in Husable. simpl in Husable.
  destruct st as [t|].
  - destruct Husable as [m Hm]. destruct init.
    + eexists. split; [reflexivity|]. split; [|reflexivity].
      repeat split. exists t. split; [reflexivity|]. rewrite Hm. eauto.
    + eexists. split; [reflexivity|]. split; [|reflexivity].
      repeat split. exists t. split; [reflexivity|]. rewrite Hm. eauto.
  - simpl in Husable. subst init.
    eexists. split; [reflexivity|]. split; [|reflexivity].
    repeat split. eexists. split; [reflexivity|]. simpl. eauto.
Qed.

Lemma remove_port_ip_mapping_ready port ip fs :
  ready fs ->
  exists fs', remove_port_ip_mapping port ip fs = (Ok true, fs') /\ ready fs' /\
              map_of (nft fs') = map_of (nft fs) ∖ {[(port, ip)]}.
Proof.
  intros (Hinit & Hf & t & Ht & m & Hm).
  destruct fs as [init [st f]]. simpl in *. subst init f st.
  destruct t as [sta sp mo pre inp]. simpl in Hm. subst mo.
  unfold remove_port_ip_mapping, try_except, bind, gets, ret. simpl.
  rewrite run_no_fault by reflexivity. simpl.
  case_decide; simpl; eexists; (split; [reflexivity|]); split.
  1,3: repeat split; eexists; (split; [reflexivity|]); simpl; eauto.
  all: unfold map_of; simpl; set_solver.
Qed.

Lemma add_port_ip_mapping_ready port ip fs :
  ready fs ->
  exists fs', add_port_ip_mapping port ip fs = (Ok true, fs') /\ ready fs' /\
              map_of (nft fs') = {[(port, ip)]} ∪ map_of (nft fs).
Proof.
  intros (Hinit & Hf & t & Ht & m & Hm).
  destruct fs as [init [st f]]. simpl in *. subst init f st.
  destruct t as [sta sp mo pre inp]. simpl in Hm. subst mo.
  unfold add_port_ip_mapping, ensure_initialized, try_except, bind, gets, ret. simpl.
  rewrite run_no_fault by reflexivity.
  destruct sp as [sp|]; simpl;
    eexists; (split; [reflexivity|]); split.
  1,3: repeat split; eexists; (split; [reflexivity|]); simpl; eauto.
  all: reflexivity.
Qed.

Lemma remove_ports_ready ip (l : list Z) : forall fs,
  ready fs ->
  exists fs',
    for_each l (fun p => remove_port_ip_mapping p ip ;;; ret tt) fs = (Ok tt, fs') /\
    ready fs' /\
    map_of (nft fs') = map_of (nft fs) ∖ list_to_set ((fun p => (p, ip)) <$> l).
Proof.
  induction l as [|p l IH]; intros fs Hready.
  - exists fs. split; [reflexivity|]. split; [assumption|]. set_solver.
  - destruct (remove_port_ip_mapping_ready p ip fs Hready) as (fs1 & Hrun & Hr1 & Hm1).
    destruct (IH fs1 Hr1) as (fs' & Hloop & Hr' & Hm').
    exists fs'. split; [|split; [assumption|]].
    + simpl. unfold bind at 1. unfold bind at 1. rewrite Hrun. exact Hloop.
    + rewrite Hm', Hm1. set_solver.
Qed.

Lemma add_ports_ready ip (l : list Z) : forall fs,
  ready fs ->
  exists fs',
    for_each l (fun p => add_port_ip_mapping p ip ;;; ret tt) fs = (Ok tt, fs') /\
    ready fs' /\
    map_of (nft fs') = list_to_set ((fun p => (p, ip)) <$> l) ∪ map_of (nft fs).
Proof.
  induction l as [|p l IH]; intros fs Hready.
  - exists fs. split; [reflexivity|]. split; [assumption|]. set_solver.
  - destruct (add_port_ip_mapping_ready p ip fs Hready) as (fs1 & Hrun & Hr1 & Hm1).
    destruct (IH fs1 Hr1) as (fs' & Hloop & Hr' & Hm').
    exists fs'. split; [|split; [assumption|]].
    + simpl. unfold bind at 1. unfold bind at 1. rewrite Hrun. exact Hloop.
    + rewrite Hm', Hm1. set_solver.
Qed.

Lemma remove_mappings_ready sb ip fs :
  ready fs ->
  exists fs',
    Views.remove_mappings sb ip fs = (Ok tt, fs') /\ ready fs' /\
    map_of (nft fs')
    = map_of (nft fs) ∖ list_to_set ((fun p => (p, ip)) <$> Tasks.ports_of_sandbox sb).
Proof.
  intros Hready. unfold Views.remove_mappings, bind at 1.
  destruct (remove_port_ip_mapping_ready (Sandbox.container_port sb) ip fs Hready)
    as (fs1 & -> & Hr1 & Hm1).
  destruct (remove_ports_ready ip (ChallengeService.mapped_ports sb) fs1 Hr1)
    as (fs' & -> & Hr' & Hm').
  exists fs'. split; [reflexivity|]. split; [assumption|].
  rewrite Hm', Hm1. unfold Tasks.ports_of_sandbox. set_solver.
Qed.

Lemma add_mappings_ready sb ip fs :
  ready fs ->
  exists fs',
    Views.add_mappings sb ip fs = (Ok tt, fs') /\ ready fs' /\
    map_of (nft fs')
    = list_to_set ((fun p => (p, ip)) <$> Tasks.ports_of_sandbox sb) ∪ map_of (nft fs).
Proof.
  intros Hready. unfold Views.add_mappings, bind at 1.
  destruct (add_port_ip_mapping_ready (Sandbox.container_port sb) ip fs Hready)
    as (fs1 & -> & Hr1 & Hm1).
  destruct (add_ports_ready ip (ChallengeService.mapped_ports sb) fs1 Hr1)
    as (fs' & -> & Hr' & Hm').
  exists fs'. split; [reflexivity|]. split; [assumption|].
  rewrite Hm', Hm1. unfold Tasks.ports_of_sandbox. set_solver.
Qed.

Lemma rule_keys_cons ip sc scs :
  rule_keys ip (sc :: scs)
  = (if Challenge.static sc.2 then ∅
     else list_to_set ((fun p => (p, ip)) <$> Tasks.ports_of_sandbox sc.1))
      ∪ rule_keys ip scs.
Proof.
  unfold rule_keys. simpl. rewrite list_to_set_app_L.
  destruct (Challenge.static sc.2); reflexivity.
Qed.

Lemma revoke_loop_ready ip (scs : list (Sandbox.t * Challenge.t)) : forall fs,
  ready fs ->
  exists fs',
    for_each scs (fun sc => if Challenge.static sc.2 then ret tt
                            else Views.remove_mappings sc.1 ip) fs = (Ok tt, fs') /\
    ready fs' /\
    map_of (nft fs') = map_of (nft fs) ∖ rule_keys ip scs.
Proof.
  induction scs as [|sc scs IH]; intros fs Hready.
  - exists fs. split; [reflexivity|]. split; [assumption|].
    unfold rule_keys. set_solver.
  - rewrite rule_keys_cons. simpl. unfold bind.
    destruct (Challenge.static sc.2).
    + destruct (IH fs Hready) as (fs' & Hloop & Hr' & Hm').
      exists fs'. split; [exact Hloop|]. split; [assumption|].
      rewrite Hm'. set_solver.
    + destruct (remove_mappings_ready sc.1 ip fs Hready) as (fs1 & -> & Hr1 & Hm1).
      destruct (IH fs1 Hr1) as (fs' & Hloop & Hr' & Hm').
      exists fs'. split; [exact Hloop|]. split; [assumption|].
      rewrite Hm', Hm1. set_solver.
Qed.

Lemma grant_loop_ready ip (scs : list (Sandbox.t * Challenge.t)) : forall fs,
  ready fs ->
  exists fs',
    for_each scs (fun sc => if negb (Challenge.static sc.2)
                            then Views.add_mappings sc.1 ip else ret tt) fs
    = (Ok tt, fs') /\
    ready fs' /\
    map_of (nft fs') = rule_keys ip scs ∪ map_of (nft fs).
Proof.
  induction scs as [|sc scs IH]; intros fs Hready.
  - exists fs. split; [reflexivity|]. split; [assumption|].
    unfold rule_keys. set_solver.
  - rewrite rule_keys_cons. simpl. unfold bind.
    destruct (Challenge.static sc.2); simpl.
    + destruct (IH fs Hready) as (fs' & Hloop & Hr' & Hm').
      exists fs'. split; [exact Hloop|]. split; [assumption|].
      rewrite Hm'. set_solver.
    + destruct (add_mappings_ready sc.1 ip fs Hready) as (fs1 & -> & Hr1 & Hm1).
      destruct (IH fs1 Hr1) as (fs' & Hloop & Hr' & Hm').
      exists fs'. split; [exact Hloop|]. split; [assumption|].
      rewrite Hm', Hm1. set_solver.
Qed.

(** The login hand-over on a usable service: the keys of the old
    address go, the keys of the new address are there. *)
Lemma hand_over_effect old_ip client_ip scs fs :
  usable fs -> faults (nft fs) = [] ->
  old_ip ≠ "" -> old_ip ≠ client_ip ->
  exists fs',
    Views.hand_over (Some old_ip) client_ip scs fs = (Ok tt, fs') /\
    map_of (nft fs') = rule_keys client_ip scs ∪ (map_of (nft fs) ∖ rule_keys old_ip scs).
Proof.
  intros Husable Hf Hne Hdiff.
  destruct (initialize_firewall_ready fs Husable Hf) as (fs0 & Hinit & Hr0 & Hm0).
  unfold Views.hand_over, bind at 1. rewrite Hinit.
  rewrite bool_decide_eq_true_2.
  2:{ split; [|congruence]. simpl. unfold Http.nonempty.
      destruct (String.eqb_spec old_ip ""); [contradiction | reflexivity]. }
  unfold bind at 1.
  assert (exists fs1,
    for_each scs (fun sc => if negb (Challenge.static sc.2)
                            then Views.remove_mappings sc.1 (default "" (Some old_ip))
                            else ret tt) fs0 = (Ok tt, fs1) /\
    ready fs1 /\ map_of (nft fs1) = map_of (nft fs0) ∖ rule_keys old_ip scs)
    as (fs1 & -> & Hr1 & Hm1).
  { destruct (revoke_loop_ready old_ip scs fs0 Hr0) as (fs1 & Hloop & Hr1 & Hm1).
    exists fs1. split; [|split; assumption]. rewrite <- Hloop.
    clear. revert fs0. induction scs as [|sc scs IH]; intros fs0; [reflexivity|].
    simpl. unfold bind. destruct (Challenge.static sc.2); simpl.
    - apply IH.
    - destruct (Views.remove_mappings sc.1 old_ip fs0) as [[[]|e] s]; [apply IH|reflexivity]. }
  destruct (grant_loop_ready client_ip scs fs1 Hr1) as (fs' & -> & Hr' & Hm').
  exists fs'. split; [reflexivity|]. rewrite Hm', Hm1, Hm0. reflexivity.
Qed.

End HandOverFacts.

Module SessionFacts.

Import Nft Firewall FirewallFacts SessionSpec HandOverFacts.

Lemma elem_of_rule_keys e ip scs :
  e ∈ rule_keys ip scs <->
  exists sb c p, (sb, c) ∈ scs /\ Challenge.static c = false /\
                 p ∈ Tasks.ports_of_sandbox sb /\ e = (p, ip).
Proof.
  unfold rule_keys. rewrite elem_of_list_to_set, list_elem_of_bind. split.
  - intros ([sb c] & He & Hin). cbn beta iota delta [fst snd] in He.
    destruct (Challenge.static c) eqn:Hs; [inversion He|].
    apply list_elem_of_fmap in He as (p & -> & Hp). eauto 10.
  - intros (sb & c & p & Hin & Hs & Hp & ->). exists (sb, c).
    cbn beta iota delta [fst snd]. rewrite Hs.
    split; [|assumption]. apply list_elem_of_fmap. eauto.
Qed.

Lemma active_sessions_deactivated user_id db :
  Db.active_sessions_of user_id (Db.deactivate_sessions_of user_id db) = [].
Proof.
  unfold Db.active_sessions_of, Db.deactivate_sessions_of. simpl.
  induction (sessions db) as [|s ss IH]; [reflexivity|].
  rewrite fmap_cons, filter_cons, IH.
  destruct (decide (UserSession.user_id s = user_id /\ UserSession.active s = true))
    as [Hold|Hold].
  - rewrite decide_False; [reflexivity|]. simpl. intros [_ ?]. discriminate.
  - rewrite decide_False; [reflexivity|]. exact Hold.
Qed.

Lemma active_sessions_inserted user_id ip expires_at db :
  Db.active_sessions_of user_id (Db.insert_session user_id ip expires_at db)
  = (Db.active_sessions_of user_id db
       ++ [UserSession.Make (Db.fresh_id UserSession.id (sessions db)) user_id ip
                            expires_at true])%list.
Proof.
  unfold Db.active_sessions_of, Db.insert_session. simpl.
  rewrite filter_app. f_equal.
  rewrite filter_cons, decide_True by (simpl; auto). reflexivity.
Qed.



(** Scenario "IP handoff", evaluated. *)
Example ip_handoff_scenario :
  let w' := state_of (Views.login_view Scenario.login_request Scenario.world) in
  bool_decide ((32768, "10.0.0.2") ∈ map_of (nft (firewall w'))) = true /\
  bool_decide ((32768, "10.0.0.1") ∈ map_of (nft (firewall w'))) = false /\
  UserSession.ip_address <$> Db.active_sessions_of 7 (db w') = ["10.0.0.2"].
Proof. vm_compute. repeat split; reflexivity. Qed.

End SessionFacts.

(** ** The IP-mismatch middleware *)

Module MiddlewareFacts.

Import Nft Firewall SessionSpec StoreFacts.

Lemma deactivate_session_inactive id db s' :
  s' ∈ sessions (Db.deactivate_session id db) ->
  UserSession.id s' = id -> UserSession.active s' = false.
Proof.
  unfold Db.deactivate_session. simpl. intros Hin Hid.
  apply list_elem_of_fmap in Hin as (r & -> & _).
  destruct (decide (UserSession.id r = id)) as [|Hne]; [reflexivity|].
  contradiction.
Qed.

Lemma deactivate_session_member id db s :
  s ∈ sessions db -> UserSession.id s = id ->
  Db.deactivated s ∈ sessions (Db.deactivate_session id db).
Proof.
  unfold Db.deactivate_session. simpl. intros Hin Hid.
  apply list_elem_of_fmap. exists s. split; [|assumption].
  rewrite decide_True by assumption. reflexivity.
Qed.

Lemma deactivate_session_no_active user_id db s :
  head (Db.active_sessions_of user_id db) = Some s ->
  at_most_one_active user_id db ->
  Db.active_sessions_of user_id (Db.deactivate_session (UserSession.id s) db) = [].
Proof.
  unfold at_most_one_active, Db.active_sessions_of, Db.deactivate_session. simpl.
  intros Hhead Hone.
  assert (forall r, r ∈ sessions db ->
                    UserSession.user_id r = user_id /\ UserSession.active r = true ->
                    r = s) as Honly.
  { intros r Hr HP.
    assert (r ∈ filter (fun s => UserSession.user_id s = user_id /\
                                 UserSession.active s = true) (sessions db)) as Hin
      by (apply list_elem_of_filter; auto).
    destruct (filter _ (sessions db)) as [|a [|b l]]; simpl in *;
      [discriminate | | lia].
    apply list_elem_of_singleton in Hin. congruence. }
  clear Hhead Hone. induction (sessions db) as [|r rows IH]; [reflexivity|].
  rewrite fmap_cons, filter_cons, IH.
  2:{ intros r' Hr'. apply Honly. right. exact Hr'. }
  destruct (decide (UserSession.id r = UserSession.id s)) as [Hsame|Hother].
  - rewrite decide_False; [reflexivity|]. simpl. intros [_ ?]. discriminate.
  - rewrite decide_False; [reflexivity|]. intros HP.
    apply Hother. f_equal. apply Honly; [left | exact HP].
Qed.

(** Whatever the firewall phase does, the store ends up with the old
    session deactivated. *)
Lemma process_request_store r u s w :
  Http.user r = Some u ->
  User.banned u = false ->
  User.is_admin u = false ->
  Http._ip_session_checked r = false ->
  Db.active_sessions_at (User.id u) (service_get_client_ip r) (db w) = [] ->
  head (Db.active_sessions_of (User.id u) (db w)) = Some s ->
  exists fs',
    Middleware.process_request r w
    = (Ok (Middleware.checked r,
           Some (Http.Redirect "login"
                   "Your session IP address has changed. Please log in again.")),
       MkWorld (Db.deactivate_session (UserSession.id s) (db w)) fs'
               (docker w) (volumes w) (locks w) (now w)).
Proof.
  intros Huser Hban Hadmin Hchecked Hnone Hold.
  unfold Middleware.process_request. rewrite Huser, Hban, Hadmin, Hchecked. simpl.
  unfold bind at 1, gets at 1. rewrite Hnone. simpl.
  unfold bind at 1, gets at 1. rewrite Hold.
  unfold bind at 1, try_except, bind at 1, gets at 1, bind at 1, on_firewall, zoom.
  destruct (Middleware.revoke (UserSession.ip_address s)
              (Views.active_sandboxes (User.id u) (db w)) (firewall w))
    as [[[]|e] fs']; simpl; exists fs'; reflexivity.
Qed.



(** In that run the firewall phase did raise: the service is still not
    initialised and the rules of the old address are still in place
    elsewhere, yet the session is closed. *)
Example ip_mismatch_with_failing_firewall :
  let w' := state_of (Middleware.process_request Scenario.roaming_request
                        Scenario.broken_world) in
  result_of (Middleware.revoke "10.0.0.1"
               (Views.active_sandboxes 7 (db Scenario.broken_world))
               (firewall Scenario.broken_world)) = Raise RuntimeError /\
  initialized (firewall w') = false /\
  UserSession.active <$> sessions (db w') = [false].
Proof. vm_compute. repeat split; reflexivity. Qed.

(** With a working firewall the rules of the old address are revoked
    before the session is closed. *)
Example ip_mismatch_revokes_rules :
  let w' := state_of (Middleware.process_request Scenario.roaming_request
                        Scenario.world) in
  elements (map_of (nft (firewall w'))) = [] /\
  UserSession.active <$> sessions (db w') = [false].
Proof. vm_compute. repeat split; reflexivity. Qed.

End MiddlewareFacts.

(** ** Concurrent get-or-create *)

Module FrameFacts.

Import Frame.

Lemma same_store_refl w : same_store w w.
Proof. split; reflexivity. Qed.

Lemma same_store_trans w1 w2 w3 :
  same_store w1 w2 -> same_store w2 w3 -> same_store w1 w3.
Proof. intros [? ?] [? ?]. split; congruence. Qed.

Lemma quiet_ret {A} (a : A) : quiet (ret a).
Proof. intros w. apply same_store_refl. Qed.

Lemma quiet_raise {A} e : quiet (@raise World A e).
Proof. intros w. apply same_store_refl. Qed.

Lemma quiet_gets {A} (f : World -> A) : quiet (gets f).
Proof. intros w. apply same_store_refl. Qed.

Lemma quiet_bind {A B} (c : M World A) (k : A -> M World B) :
  quiet c -> (forall a, quiet (k a)) -> quiet (bind c k).
Proof.
  intros Hc Hk w. unfold bind. specialize (Hc w).
  destruct (c w) as [[a|e] w1]; simpl in *; [|exact Hc].
  eapply same_store_trans; [exact Hc | apply Hk].
Qed.

Lemma quiet_try_except {A} (c : M World A) (h : exn -> M World A) :
  quiet c -> (forall e, quiet (h e)) -> quiet (try_except c h).
Proof.
  intros Hc Hh w. unfold try_except. specialize (Hc w).
  destruct (c w) as [[a|e] w1]; simpl in *; [exact Hc|].
  eapply same_store_trans; [exact Hc | apply Hh].
Qed.

Lemma quiet_for_each {A} (l : list A) (body : A -> M World unit) :
  (forall a, quiet (body a)) -> quiet (for_each l body).
Proof.
  intros Hbody. induction l as [|a l IH]; simpl.
  - apply quiet_ret.
  - apply quiet_bind; [apply Hbody | intros _; exact IH].
Qed.

Lemma quiet_on_firewall {A} (c : M FirewallService A) : quiet (on_firewall c).
Proof.
  intros w. unfold on_firewall, zoom. destruct (c (firewall w)). split; reflexivity.
Qed.

Lemma quiet_on_docker {A} (c : M Docker.daemon A) : quiet (on_docker c).
Proof.
  intros w. unfold on_docker, zoom. destruct (c (docker w)). split; reflexivity.
Qed.

Lemma quiet_on_volumes {A} (c : M Volumes A) : quiet (on_volumes c).
Proof.
  intros w. unfold on_volumes, zoom. destruct (c (volumes w)). split; reflexivity.
Qed.

Create HintDb quiet.
#[local] Hint Resolve quiet_ret quiet_raise quiet_gets quiet_on_firewall quiet_on_docker
  quiet_on_volumes : quiet.

Ltac quiet_auto :=
  repeat first
    [ apply quiet_bind; [|intros ?]
    | apply quiet_try_except; [|intros ?]
    | apply quiet_for_each; intros ?
    | solve [auto with quiet]
    | match goal with
      | |- quiet (if ?b then _ else _) => destruct b
      | |- quiet (match ?x with _ => _ end) => destruct x
      end ].

Lemma quiet_add_sandbox_firewall_rules sb c :
  quiet (ChallengeService._add_sandbox_firewall_rules sb c).
Proof. unfold ChallengeService._add_sandbox_firewall_rules. quiet_auto. Qed.

Lemma add_sandbox_firewall_rules_total sb c w :
  exists w', ChallengeService._add_sandbox_firewall_rules sb c w = (Ok tt, w').
Proof.
  unfold ChallengeService._add_sandbox_firewall_rules, try_except.
  match goal with |- context [match ?body w with _ => _ end] =>
    destruct (body w) as [[[]|e] w'] end; eauto.
Qed.

Lemma quiet_rollback_container c : quiet (ChallengeService.rollback_container c).
Proof. unfold ChallengeService.rollback_container. quiet_auto. Qed.

Lemma reraises_cleanup {A B} (c : M World A) e :
  reraises (bind c (fun _ => @raise World B e)).
Proof.
  intros w. unfold bind. destruct (c w) as [[a|e'] w']; simpl; eauto.
Qed.

Lemma creates_raise challenge user_id e : creates challenge user_id (raise e).
Proof. intros w. apply same_store_refl. Qed.

Lemma creates_bind {A} challenge user_id (c : M World A) (k : A -> M World Sandbox.t) :
  quiet c -> (forall a, creates challenge user_id (k a)) ->
  creates challenge user_id (bind c k).
Proof.
  intros Hc Hk w. unfold bind. specialize (Hc w).
  destruct (c w) as [[a|e] w1]; simpl in *; [|exact Hc].
  specialize (Hk a w1). destruct (k a w1) as [[sb|e] w2].
  - destruct Hc as [Hdb Hlocks]. destruct Hk as (Hrows & Hl & Hrest).
    split; [congruence|]. split; [congruence | exact Hrest].
  - eapply same_store_trans; eassumption.
Qed.

Lemma creates_try_except challenge user_id (c : M World Sandbox.t) h :
  creates challenge user_id c ->
  (forall e, quiet (h e) /\ reraises (h e)) ->
  creates challenge user_id (try_except c h).
Proof.
  intros Hc Hh w. unfold try_except. specialize (Hc w).
  destruct (c w) as [[sb|e] w1]; [exact Hc|].
  destruct (Hh e) as [Hq Hr]. specialize (Hq w1). destruct (Hr w1) as [e' He'].
  destruct (h e w1) as [r w2]. simpl in *. subst r.
  eapply same_store_trans; eassumption.
Qed.

Lemma create_sandbox_creates challenge user_id :
  creates challenge user_id (ChallengeService._create_sandbox challenge user_id).
Proof.
  unfold ChallengeService._create_sandbox.
  apply creates_bind; [quiet_auto|]. intros mount_point.
  apply creates_bind; [quiet_auto|]. intros container.
  apply creates_try_except.
  2:{ intros e. split.
      - apply quiet_bind; [apply quiet_rollback_container|]. intros _. quiet_auto.
      - unfold reraises. intros w. unfold bind.
        destruct (ChallengeService.rollback_container container w) as [[[]|e1] w1];
          simpl; eauto.
        destruct (on_volumes _ w1) as [[[]|e2] w2]; simpl; eauto. }
  apply creates_bind; [quiet_auto|]. intros healthy.
  destruct (negb healthy); [apply creates_raise|].
  destruct (ChallengeService.host_port_of 8000 container) as [container_port|];
    [|apply creates_raise].
  apply creates_bind; [quiet_auto|]. intros _.
  apply creates_try_except.
  2:{ intros e. split.
      - apply quiet_bind; [apply quiet_rollback_container|]. intros _. quiet_auto.
      - unfold reraises. intros w. unfold bind.
        destruct (ChallengeService.rollback_container container w) as [[[]|e1] w1];
          simpl; eauto.
        destruct (on_volumes _ w1) as [[[]|e2] w2]; simpl; eauto. }
  intros w. unfold bind at 1, gets at 1. unfold bind at 1, get at 1.
  unfold Db.insert_sandbox. unfold bind at 1, with_db, modify. simpl.
  unfold bind.
  match goal with
  | |- context [ChallengeService._add_sandbox_firewall_rules ?sb ?c ?w1] =>
      pose proof (quiet_add_sandbox_firewall_rules sb c w1) as [Hdb Hlocks];
      destruct (add_sandbox_firewall_rules_total sb c w1) as [w2 Hrun];
      rewrite Hrun in *
  end; simpl in *.
  repeat split; try assumption. rewrite Hdb. reflexivity.
Qed.

End FrameFacts.

Module ConcurrentFacts.

Import Frame FrameFacts Concurrent StoreFacts.

Lemma count_app f l1 l2 : count f (l1 ++ l2) = (count f l1 + count f l2)%nat.
Proof. unfold count. rewrite filter_app, length_app. reflexivity. Qed.

Lemma count_cons f t l :
  count f (t :: l) = ((if f t then 1 else 0) + count f l)%nat.
Proof.
  unfold count. rewrite filter_cons.
  destruct (decide (f t = true)) as [Hf|Hf].
  - rewrite Hf. reflexivity.
  - destruct (f t); [contradiction | reflexivity].
Qed.

Lemma count_middle f l1 t l2 :
  count f (l1 ++ t :: l2) = (count f l1 + (if f t then 1 else 0) + count f l2)%nat.
Proof. rewrite count_app, count_cons. lia. Qed.

Lemma count_zero f l : count f l = 0%nat -> Forall (fun t => f t = false) l.
Proof.
  induction l as [|t l IH]; [constructor|].
  rewrite count_cons. destruct (f t) eqn:Hf; [discriminate|].
  intros H. constructor; [assumption | apply IH; exact H].
Qed.

Lemma count_pos f l t : t ∈ l -> f t = true -> (0 < count f l)%nat.
Proof.
  intros Hin Hf. apply list_elem_of_split in Hin as (l1 & l2 & ->).
  rewrite count_middle, Hf. lia.
Qed.

(** A move rewrites one worker in place. *)
Lemma step_split challenge user_id i a c c' :
  step challenge user_id i a c = Some c' ->
  exists l1 t l2 t',
    threads c = (l1 ++ t :: l2)%list /\ threads c' = (l1 ++ t' :: l2)%list /\
    step_thread challenge user_id a t (world c) = Some (t', world c').
Proof.
  unfold step. destruct (threads c !! i) as [t|] eqn:Hi; [|discriminate].
  destruct (step_thread challenge user_id a t (world c)) as [[t' w']|] eqn:Hs;
    [|discriminate].
  intros [= <-]. simpl.
  exists (take i (threads c)), t, (drop (S i) (threads c)), t'.
  split; [symmetry; apply take_drop_middle; exact Hi|]. split; [|exact Hs].
  apply insert_take_drop. apply lookup_lt_Some in Hi. exact Hi.
Qed.

Section Key.

Variables (challenge : Challenge.t) (user_id who : option Z) (lock_name : string).
Hypothesis Hkey : ChallengeService.sandbox_key challenge user_id = Some (who, lock_name).

Lemma rows_key w :
  rows challenge user_id w = Db.active_sandboxes_for (Challenge.id challenge) who (db w).
Proof. unfold rows. rewrite Hkey. reflexivity. Qed.

Lemma held_key w : held challenge user_id w = bool_decide (lock_name ∈ locks w).
Proof. unfold held. rewrite Hkey. reflexivity. Qed.

Lemma rows_same_store w w' :
  same_store w w' -> rows challenge user_id w' = rows challenge user_id w.
Proof. intros [Hdb _]. rewrite !rows_key, Hdb. reflexivity. Qed.

Lemma held_same_store w w' :
  same_store w w' -> held challenge user_id w' = held challenge user_id w.
Proof. intros [_ Hl]. rewrite !held_key, Hl. reflexivity. Qed.

Lemma who_user_id : who = None \/ who = user_id.
Proof.
  unfold ChallengeService.sandbox_key in Hkey.
  destruct (Challenge.static challenge); [left; congruence|].
  destruct user_id as [u|]; [|discriminate].
  destruct (Db.truthy (Some u)); [right; congruence | discriminate].
Qed.

Lemma rows_inserted w sb w' :
  inserted challenge user_id w sb w' ->
  rows challenge user_id w' = (rows challenge user_id w ++ [sb])%list /\
  held challenge user_id w' = held challenge user_id w.
Proof.
  intros (Hrows & Hlocks & Hc & Hu & Ha). split.
  - rewrite !rows_key. unfold Db.active_sandboxes_for.
    destruct who_user_id as [-> | ->].
    + rewrite Hrows, filter_app. f_equal.
      rewrite filter_cons, decide_True by auto. reflexivity.
    + destruct user_id as [u|].
      * rewrite Hrows, filter_app. f_equal.
        rewrite filter_cons, decide_True by auto. reflexivity.
      * rewrite Hrows, filter_app. f_equal.
        rewrite filter_cons, decide_True by auto. reflexivity.
  - rewrite !held_key, Hlocks. reflexivity.
Qed.

Lemma find_sandbox_rows w :
  ChallengeService.find_sandbox challenge who w
  = (Ok (head (rows challenge user_id w)), w).
Proof. rewrite rows_key. reflexivity. Qed.

Lemma head_short {A} (l : list A) x :
  (length l <= 1)%nat -> head l = Some x -> l = [x].
Proof. destruct l as [|a [|b l]]; simpl; intros; simplify_eq; [reflexivity | lia]. Qed.

Lemma head_none {A} (l : list A) : head l = None -> l = [].
Proof. destruct l; [reflexivity | discriminate]. Qed.

Lemma rows_db w w' : db w' = db w -> rows challenge user_id w' = rows challenge user_id w.
Proof. intros Hdb. rewrite !rows_key, Hdb. reflexivity. Qed.

Lemma try_lock_spec w :
  let (t', w') := try_lock lock_name w in
  db w' = db w /\
  ((held challenge user_id w = true /\ t' = Polling /\
    held challenge user_id w' = true) \/
   (held challenge user_id w = false /\ t' = Locked /\
    held challenge user_id w' = true)).
Proof.
  unfold try_lock, on_locks, zoom, Utils.setnx, bind, gets, modify, ret. simpl.
  rewrite !held_key.
  destruct (bool_decide (lock_name ∈ locks w)) eqn:Hheld; simpl.
  - split; [reflexivity|]. left. rewrite held_key. simpl. auto.
  - split; [reflexivity|]. right. rewrite held_key. simpl.
    rewrite bool_decide_eq_true_2 by set_solver. auto.
Qed.

Lemma release_lock_spec w :
  exists w', on_locks (Utils.release_lock lock_name) w = (Ok tt, w') /\
             db w' = db w /\ held challenge user_id w' = false.
Proof.
  unfold on_locks, zoom, Utils.release_lock, modify. simpl.
  eexists. split; [reflexivity|]. split; [reflexivity|].
  rewrite held_key. simpl. apply bool_decide_eq_false_2. set_solver.
Qed.

(** Workers that do not hold the lock and are consistent with no row
    stay consistent when a row appears. *)
Lemma consistent_others R' l :
  Forall (consistent []) l ->
  Forall (fun t => critical t = false) l ->
  Forall (consistent R') l.
Proof.
  intros Hc Hn. induction l as [|t l IH]; [constructor|].
  inversion Hc as [|? ? Ht Hl]; inversion Hn as [|? ? Hnt Hnl]; subst.
  constructor; [|apply IH; assumption].
  destruct t as [| | | | |[[sb|]|e]|[[sb|]|e]]; simpl in *;
    try discriminate; try exact I.
Qed.

Ltac rebuild :=
  apply Forall_app; split; [assumption|];
  constructor; [first [exact I | assumption | reflexivity] | assumption].

Lemma step_invariant i a c c' :
  invariant challenge user_id c ->
  step challenge user_id i a c = Some c' ->
  invariant challenge user_id c'.
Proof.
  intros (Hlen & Hcrit & Hcons & Hwait) Hstep.
  apply step_split in Hstep as (l1 & t & l2 & t' & Hth & Hth' & Hst).
  unfold invariant. rewrite Hth in *. rewrite Hth'. clear Hth Hth'.
  rewrite !count_middle in *.
  apply Forall_app in Hcons as [Hc1 Hc2].
  apply Forall_cons in Hc2 as [Hct Hc2].
  unfold step_thread in Hst. rewrite Hkey in Hst.
  set (R := rows challenge user_id (world c)) in *.
  destruct t as [| | | | |r|r]; destruct a; try discriminate.
  - (* Called *)
    rewrite find_sandbox_rows in Hst. fold R in Hst.
    destruct (head R) as [sb|] eqn:Hhead; injection Hst as <- <-; fold R; simpl in *.
    + pose proof (head_short _ _ Hlen Hhead) as HR.
      split; [assumption|]. split; [assumption|]. split; [rebuild | assumption].
    + split; [assumption|]. split; [assumption|]. split; [rebuild | assumption].
  - (* Acquiring *)
    injection Hst as Hst. pose proof (try_lock_spec (world c)) as Hspec.
    rewrite Hst in Hspec. destruct Hspec as [Hdb [(Hh & -> & Hh') | (Hh & -> & Hh')]];
      rewrite (rows_db _ _ Hdb), Hh'; fold R; rewrite Hh in Hcrit; simpl in *.
    + split; [assumption|]. split; [assumption|]. split; [rebuild|].
      intros _. right. left. lia.
    + split; [assumption|]. split; [lia|]. split; [rebuild|].
      intros _. right. left. lia.
  - (* Polling, retry *)
    injection Hst as Hst. pose proof (try_lock_spec (world c)) as Hspec.
    rewrite Hst in Hspec. destruct Hspec as [Hdb [(Hh & -> & Hh') | (Hh & -> & Hh')]];
      rewrite (rows_db _ _ Hdb), Hh'; fold R; rewrite Hh in Hcrit; simpl in *.
    + split; [assumption|]. split; [assumption|]. split; [rebuild | assumption].
    + split; [assumption|]. split; [lia|]. split; [rebuild|].
      intros _. right. left. lia.
  - (* Polling, time-out *)
    injection Hst as <- <-. fold R. simpl in *.
    split; [assumption|]. split; [assumption|]. split; [rebuild | assumption].
  - (* Locked *)
    rewrite find_sandbox_rows in Hst. fold R in Hst.
    destruct (head R) as [sb|] eqn:Hhead; injection Hst as <- <-; fold R; simpl in *.
    + pose proof (head_short _ _ Hlen Hhead) as HR.
      split; [assumption|]. split; [assumption|]. split; [rebuild | assumption].
    + pose proof (head_none _ Hhead) as HR.
      split; [assumption|]. split; [assumption|]. split; [rebuild | assumption].
  - (* Creating *)
    pose proof (create_sandbox_creates challenge user_id (world c)) as Hcreate.
    simpl in Hct.
    destruct (ChallengeService._create_sandbox challenge user_id (world c))
      as [[sb|e] w'] eqn:Hrun; injection Hst as <- <-; simpl in *.
    + apply rows_inserted in Hcreate as [HR' Hheld'].
      fold R in HR'. rewrite Hct in HR'. simpl in HR'.
      rewrite HR', Hheld'. simpl.
      assert (count critical l1 = 0 /\ count critical l2 = 0)%nat as [Hn1 Hn2]
        by (destruct (held challenge user_id (world c)); lia).
      rewrite Hct in Hc1, Hc2.
      split; [lia|]. split; [assumption|]. split.
      * apply Forall_app. split.
        -- apply consistent_others; [assumption | apply count_zero; assumption].
        -- constructor; [reflexivity|].
           apply consistent_others; [assumption | apply count_zero; assumption].
      * intros _. left. discriminate.
    + rewrite (rows_same_store _ _ Hcreate), (held_same_store _ _ Hcreate). fold R.
      split; [assumption|]. split; [assumption|]. split; [rebuild|].
      intros _. right. right. lia.
  - (* Releasing *)
    destruct (release_lock_spec (world c)) as (w' & Hrel & Hdb & Hh').
    rewrite Hrel in Hst. injection Hst as <- <-.
    rewrite (rows_db _ _ Hdb), Hh'. fold R. simpl in *.
    assert (count critical l1 = 0 /\ count critical l2 = 0)%nat as [Hn1 Hn2]
      by (destruct (held challenge user_id (world c)); lia).
    destruct r as [[sb|]|e]; simpl in *; try contradiction.
    + split; [assumption|]. split; [lia|]. split; [rebuild|].
      intros _. left. rewrite Hct. discriminate.
    + split; [assumption|]. split; [lia|]. split; [rebuild|].
      intros _. right. right. lia.
Qed.

End Key.

Lemma run_invariant challenge user_id schedule : forall c c',
  is_Some (ChallengeService.sandbox_key challenge user_id) ->
  invariant challenge user_id c ->
  run challenge user_id schedule c = Some c' ->
  invariant challenge user_id c'.
Proof.
  induction schedule as [|[i a] rest IH]; intros c c' Hkey Hinv Hrun; simpl in Hrun.
  - injection Hrun as <-. exact Hinv.
  - destruct (step challenge user_id i a c) as [c1|] eqn:Hstep; [|discriminate].
    destruct Hkey as [[who lock_name] Hkey].
    apply (IH c1 c'); [eauto | | exact Hrun].
    exact (step_invariant challenge user_id who lock_name Hkey i a c c1 Hinv Hstep).
Qed.

Lemma run_length challenge user_id schedule : forall c c',
  run challenge user_id schedule c = Some c' ->
  length (threads c') = length (threads c).
Proof.
  induction schedule as [|[i a] rest IH]; intros c c' Hrun; simpl in Hrun.
  - injection Hrun as <-. reflexivity.
  - destruct (step challenge user_id i a c) as [c1|] eqn:Hstep; [|discriminate].
    rewrite (IH c1 c' Hrun).
    apply step_split in Hstep as (l1 & t & l2 & t' & -> & -> & _).
    rewrite !length_app. reflexivity.
Qed.

Lemma start_invariant challenge user_id n w :
  is_Some (ChallengeService.sandbox_key challenge user_id) ->
  lock_free challenge user_id w ->
  (length (rows challenge user_id w) <= 1)%nat ->
  invariant challenge user_id (start n w).
Proof.
  intros [[who lock_name] Hkey] Hfree Hlen.
  unfold lock_free in Hfree. rewrite Hkey in Hfree.
  assert (forall f, f Called = false -> count f (replicate n Called) = 0%nat) as Hzero.
  { intros f Hf. induction n as [|n IH]; [reflexivity|].
    simpl. rewrite count_cons, Hf. exact IH. }
  unfold invariant. simpl.
  rewrite (held_key challenge user_id who lock_name Hkey).
  rewrite bool_decide_eq_false_2 by assumption.
  rewrite !Hzero by reflexivity.
  split; [assumption|]. split; [reflexivity|]. split; [|lia].
  apply Forall_replicate. exact I.
Qed.

Lemma invariant_at_most_one challenge user_id c :
  invariant challenge user_id c -> at_most_one_after challenge user_id c.
Proof.
  intros (Hlen & _ & Hcons & _). split; [exact Hlen|].
  intros sb Hin. rewrite Forall_forall in Hcons. exact (Hcons _ Hin).
Qed.

Lemma invariant_exactly_one challenge user_id c :
  invariant challenge user_id c ->
  quiescent c ->
  threads c ≠ [] ->
  count raised (threads c) = 0%nat ->
  exactly_one_after challenge user_id c.
Proof.
  intros (Hlen & Hcrit & Hcons & Hwait) Hq Hne Hraised.
  set (R := rows challenge user_id (world c)) in *.
  assert (count critical (threads c) = 0%nat) as Hnocrit.
  { clear -Hq. unfold quiescent in Hq. induction Hq as [|t l Ht _ IH]; [reflexivity|].
    rewrite count_cons, IH. destruct t; simpl in *; try discriminate. reflexivity. }
  assert (exists sb, R = [sb]) as [sb HR].
  { unfold quiescent in Hq.
    destruct (threads c) as [|t l] eqn:Hth; [contradiction|].
    apply Forall_cons in Hcons as [Ht _]. apply Forall_cons in Hq as [Hft _].
    rewrite count_cons in Hraised, Hwait.
    destruct t as [| | | | |r|[[sb|]|e]]; simpl in *; try discriminate.
    - eauto.
    - rewrite !count_cons in *. simpl in *.
      destruct Hwait as [HRne | [Hc | Hr]]; try lia.
      destruct R as [|sb [|sb' R']]; [contradiction | eauto | simpl in Hlen; lia]. }
  exists sb. split; [exact HR|].
  intros sb' Hin. rewrite Forall_forall in Hcons. specialize (Hcons _ Hin).
  simpl in Hcons. fold R in Hcons. congruence.
Qed.


Lemma after_race_run :
  run Scenario.web (Some 8) race (start 2 Scenario.world) = Some after_race.
Proof. vm_compute. reflexivity. Qed.

Lemma after_lonely_run :
  run stuck (Some 8) lonely (start 1 stuck_world) = Some after_lonely.
Proof. vm_compute. reflexivity. Qed.



(** The race, evaluated: both workers return row 2, the only active row
    of the key, and the lock is free again. *)
Example race_outcome :
  Sandbox.id <$> rows Scenario.web (Some 8) (world after_race) = [2] /\
  threads after_race
  = [Finished (Ok (head (rows Scenario.web (Some 8) (world after_race))));
     Finished (Ok (head (rows Scenario.web (Some 8) (world after_race))))] /\
  elements (locks (world after_race)) = [].
Proof. vm_compute. repeat split; reflexivity. Qed.

(** A worker that runs alone does what the function does. *)
Example single_worker_agrees :
  run Scenario.web (Some 8) lonely (start 1 Scenario.world)
  = Some (Config (state_of (ChallengeService.get_or_create_sandbox
                              Scenario.web (Some 8) Scenario.world))
                 [Finished (result_of (ChallengeService.get_or_create_sandbox
                                         Scenario.web (Some 8) Scenario.world))]).
Proof. vm_compute. reflexivity. Qed.

End ConcurrentFacts.

(** ** Rules for pre- and postconditions *)

Module HoareFacts.
Import Hoare.

Lemma triple_ret {S A} (P : S -> Prop) (a : A) (Q : A -> S -> Prop) E :
  (forall s, P s -> Q a s) -> triple P (ret a) Q E.
Proof. intros H s Hs. simpl. auto. Qed.

Lemma triple_raise {S A} (P : S -> Prop) e (Q : A -> S -> Prop) (E : S -> Prop) :
  (forall s, P s -> E s) -> triple P (raise e) Q E.
Proof. intros H s Hs. simpl. auto. Qed.

Lemma triple_gets {S A} (P : S -> Prop) (f : S -> A) (Q : A -> S -> Prop) E :
  (forall s, P s -> Q (f s) s) -> triple P (gets f) Q E.
Proof. intros H s Hs. simpl. auto. Qed.

Lemma triple_modify {S} (P : S -> Prop) (f : S -> S) (Q : unit -> S -> Prop) E :
  (forall s, P s -> Q tt (f s)) -> triple P (modify f) Q E.
Proof. intros H s Hs. simpl. auto. Qed.

Lemma triple_bind {S A B} (P : S -> Prop) (c : M S A) (k : A -> M S B)
    (Q : A -> S -> Prop) (R : B -> S -> Prop) E :
  triple P c Q E -> (forall a, triple (Q a) (k a) R E) -> triple P (bind c k) R E.
Proof.
  intros Hc Hk s Hs. unfold bind. specialize (Hc s Hs).
  destruct (c s) as [[a|e] s']; [exact (Hk a s' Hc) | exact Hc].
Qed.

Lemma triple_try_except {S A} (P : S -> Prop) (c : M S A) (h : exn -> M S A)
    (Q : A -> S -> Prop) (E E' : S -> Prop) :
  triple P c Q E -> (forall e, triple E (h e) Q E') -> triple P (try_except c h) Q E'.
Proof.
  intros Hc Hh s Hs. unfold try_except. specialize (Hc s Hs).
  destruct (c s) as [[a|e] s']; [exact Hc | exact (Hh e s' Hc)].
Qed.

Lemma triple_try_finally {S A} (P : S -> Prop) (c : M S A) (f : M S unit)
    (Q : A -> S -> Prop) (E : S -> Prop) (Q' : A -> S -> Prop) (E' : S -> Prop) :
  triple P c Q E ->
  (forall a, triple (Q a) f (fun _ => Q' a) E') ->
  triple E f (fun _ => E') E' ->
  triple P (try_finally c f) Q' E'.
Proof.
  intros Hc Hq He s Hs. unfold try_finally. specialize (Hc s Hs).
  destruct (c s) as [[a|e] s'].
  - specialize (Hq a s' Hc). destruct (f s') as [[[]|e'] s'']; exact Hq.
  - specialize (He s' Hc). destruct (f s') as [[[]|e'] s'']; exact He.
Qed.

Lemma triple_weaken {S A} (P P' : S -> Prop) (c : M S A)
    (Q Q' : A -> S -> Prop) (E E' : S -> Prop) :
  triple P c Q E ->
  (forall s, P' s -> P s) -> (forall a s, Q a s -> Q' a s) -> (forall s, E s -> E' s) ->
  triple P' c Q' E'.
Proof.
  intros Hc HP HQ HE s Hs. specialize (Hc s (HP s Hs)).
  destruct (c s) as [[a|e] s']; auto.
Qed.

Lemma triple_for_each {S A} (I : S -> Prop) (l : list A) (body : A -> M S unit) :
  (forall x, x ∈ l -> keeps I (body x)) -> keeps I (for_each l body).
Proof.
  induction l as [|x l IH]; intros Hbody; simpl.
  - apply triple_ret. auto.
  - eapply triple_bind.
    + apply Hbody. apply list_elem_of_here.
    + intros u. apply IH. intros y Hy. apply Hbody. apply list_elem_of_further, Hy.
Qed.

Lemma triple_zoom {S T A} (proj : T -> S) (inj : S -> T -> T) (c : M S A)
    (P : T -> Prop) (Q : A -> T -> Prop) (E : T -> Prop) :
  (forall t, P t ->
     match c (proj t) with
     | (Ok a, s') => Q a (inj s' t)
     | (Raise _, s') => E (inj s' t)
     end) ->
  triple P (zoom proj inj c) Q E.
Proof.
  intros H t Ht. unfold zoom. specialize (H t Ht).
  destruct (c (proj t)) as [[a|e] s']; exact H.
Qed.

Lemma keeps_bind {S A B} (I : S -> Prop) (c : M S A) (k : A -> M S B) :
  keeps I c -> (forall a, keeps I (k a)) -> keeps I (bind c k).
Proof. intros Hc Hk. eapply triple_bind; [exact Hc | exact Hk]. Qed.

Lemma keeps_try_except {S A} (I : S -> Prop) (c : M S A) (h : exn -> M S A) :
  keeps I c -> (forall e, keeps I (h e)) -> keeps I (try_except c h).
Proof. intros Hc Hh. eapply triple_try_except; [exact Hc | exact Hh]. Qed.

Lemma keeps_ret {S A} (I : S -> Prop) (a : A) : keeps I (ret a).
Proof. apply triple_ret. auto. Qed.

Lemma keeps_raise {S A} (I : S -> Prop) e : keeps I (@raise S A e).
Proof. apply triple_raise. auto. Qed.

Lemma keeps_gets {S A} (I : S -> Prop) (f : S -> A) : keeps I (gets f).
Proof. apply triple_gets. auto. Qed.

Lemma keeps_state {S A} (I : S -> Prop) (c : M S A) s :
  keeps I c -> I s -> I (state_of (c s)).
Proof.
  intros H Hs. specialize (H s Hs). destruct (c s) as [[a|e] s']; exact H.
Qed.

End HoareFacts.

(** ** The firewall service: what each operation leaves alone *)

Module FirewallFrameFacts.

Import Nft Firewall FirewallFacts Hoare HoareFacts FirewallFrame.

Lemma same_on_refl keep fs : same_on keep fs fs.
Proof. intros p Hp. split; intros; reflexivity. Qed.

Lemma same_on_trans keep fs1 fs2 fs3 :
  same_on keep fs1 fs2 -> same_on keep fs2 fs3 -> same_on keep fs1 fs3.
Proof.
  intros H12 H23 p Hp. destruct (H12 p Hp) as [Hs12 Hm12].
  destruct (H23 p Hp) as [Hs23 Hm23]. split.
  - intros s. rewrite Hs23. apply Hs12.
  - intros ip. rewrite Hm23. apply Hm12.
Qed.

(** One run of the command line with a command that spares [keep]:
    whatever the fault script and the outcome, the elements of [keep]
    are untouched. *)
Lemma exec_spares keep c st :
  spares keep c = true ->
  forall p, p ∈ keep ->
    (forall s, p ∈ ports_of s (Host (exec c st).2 []) <-> p ∈ ports_of s (Host st [])) /\
    (forall ip, (p, ip) ∈ map_of (Host (exec c st).2 []) <-> (p, ip) ∈ map_of (Host st [])).
Proof.
  intros Hc p Hp.
  destruct st as [[sta sp m pre inp]|];
    [|destruct c; simpl; split; intros; try destruct s; reflexivity].
  destruct c as [| | |s0|ch|ch r|s0 q|s0 q|q ip0|q ip0|s0|]; simpl in Hc;
    try (apply bool_decide_eq_true in Hc);
    try destruct s0; try destruct ch;
    unfold ports_of, map_of, exec, failed, get_set, put_set, put_map, get_chain, put_chain;
    simpl;
    repeat (case_match; simpl);
    (split; [intros []; simpl|intros ip; simpl]); try reflexivity;
    set_solver.
Qed.

Lemma run_spares keep c check fs :
  spares keep c = true ->
  same_on keep fs (state_of (_run_nftables_command c check fs)).
Proof.
  intros Hc. unfold _run_nftables_command.
  pose proof (exec_spares keep c (ruleset (nft fs)) Hc) as Hexec.
  destruct (faults (nft fs)) as [|[] rest];
    destruct (exec c (ruleset (nft fs))) as [[[] out] st'];
    destruct check; simpl in *; try apply same_on_refl.
  all: try (intros p Hp; destruct (Hexec p Hp) as [Hs Hm]; split; [exact Hs | exact Hm]).
  all: intros p Hp; split; intros; reflexivity.
Qed.


Lemma keeps_run keep fs0 c check :
  spares keep c = true ->
  keeps (same_on keep fs0) (_run_nftables_command c check).
Proof.
  intros Hc s Hs. pose proof (run_spares keep c check s Hc) as Hrun.
  destruct (_run_nftables_command c check s) as [[a|e] s']; simpl in Hrun;
    exact (same_on_trans _ _ _ _ Hs Hrun).
Qed.

Lemma keeps_delete_map_entries keep fs0 port out :
  port ∉ keep -> keeps (same_on keep fs0) (delete_map_entries port out).
Proof.
  intros Hport. unfold delete_map_entries. apply triple_for_each. intros ip _.
  apply keeps_bind; [|intros; apply keeps_ret].
  apply keeps_run. simpl. apply bool_decide_eq_true. exact Hport.
Qed.

Lemma keeps_clean_orphan_port keep fs0 port :
  port ∉ keep -> keeps (same_on keep fs0) (clean_orphan_port port).
Proof.
  intros Hport. unfold clean_orphan_port.
  apply keeps_try_except; [|intros; apply keeps_ret].
  apply keeps_bind; [apply keeps_run; simpl; apply bool_decide_eq_true, Hport|intros _].
  apply keeps_bind; [apply keeps_run; simpl; apply bool_decide_eq_true, Hport|intros _].
  apply keeps_bind; [apply keeps_run; reflexivity|intros [map_success map_output]].
  destruct map_success; [apply keeps_delete_map_entries, Hport | apply keeps_ret].
Qed.

Lemma keeps_clean_orphan_ports active fs0 :
  keeps (same_on active fs0) (clean_orphan_ports active).
Proof.
  unfold clean_orphan_ports.
  apply keeps_try_except; [|intros; apply keeps_ret].
  apply keeps_bind; [apply keeps_gets|intros init].
  destruct init; simpl; [|apply keeps_ret].
  apply keeps_bind; [apply keeps_run; reflexivity|intros [success out]].
  destruct success; simpl; [|apply keeps_ret].
  case_decide; [apply keeps_ret|].
  apply keeps_bind; [|intros; apply keeps_ret].
  apply triple_for_each. intros port Hport.
  apply keeps_clean_orphan_port.
  apply elem_of_elements in Hport. set_solver.
Qed.

Lemma keeps_remove_port_rules keep fs0 ok out port :
  port ∉ keep -> keeps (same_on keep fs0) (remove_port_rules ok out port).
Proof.
  intros Hport. unfold remove_port_rules.
  apply keeps_bind; [apply keeps_run; simpl; apply bool_decide_eq_true, Hport|intros _].
  apply keeps_bind; [apply keeps_run; simpl; apply bool_decide_eq_true, Hport|intros _].
  destruct ok; [apply keeps_delete_map_entries, Hport | apply keeps_ret].
Qed.

Lemma keeps_remove_all_port_mappings keep fs0 sandbox_port port_mappings :
  (forall p, p ∈ collect_ports [sandbox_port] (Py.values port_mappings) -> p ∉ keep) ->
  keeps (same_on keep fs0)
        (remove_all_port_mappings_for_sandbox sandbox_port port_mappings).
Proof.
  intros Hdisj. unfold remove_all_port_mappings_for_sandbox.
  apply keeps_try_except; [|intros; apply keeps_ret].
  apply keeps_bind; [apply keeps_gets|intros init].
  destruct init; simpl; [|apply keeps_ret].
  apply keeps_bind; [apply keeps_run; reflexivity|intros [map_success map_output]].
  apply keeps_bind; [|intros; apply keeps_ret].
  apply triple_for_each. intros port Hport.
  apply keeps_remove_port_rules, Hdisj, Hport.
Qed.

(** X1: the orphan sweep never touches an active port.  For every set
    of active ports, every state of the service and every fate of the
    command line, [clean_orphan_ports(active)] returns a boolean
    without raising and, for each active port, leaves its membership of
    [sandbox_ports] and of [static_ports] and its entries in the map
    exactly as they were. *)
Theorem clean_orphan_ports_spares_active (active : gset Z) (fs : FirewallService) :
  (exists b, result_of (clean_orphan_ports active fs) = Ok b) /\
  same_on active fs (state_of (clean_orphan_ports active fs)).
Proof.
  split.
  - unfold clean_orphan_ports, try_except.
    match goal with |- context [match ?c fs with _ => _ end] =>
      destruct (c fs) as [[b|e] fs'] end; simpl; eauto.
  - apply keeps_state; [apply keeps_clean_orphan_ports | apply same_on_refl].
Qed.

(** X2: removing the rules of one sandbox touches no other port.  A
    port that is neither the primary port nor an [int()]-coercible
    value of [port_mappings] keeps its membership of both sets and its
    map entries through [remove_all_port_mappings_for_sandbox], in
    every state and whatever the command line does. *)
Theorem remove_all_port_mappings_spares_others
    sandbox_port port_mappings (fs : FirewallService) (p : Z) :
  p ∉ collect_ports [sandbox_port] (Py.values port_mappings) ->
  let fs' := state_of (remove_all_port_mappings_for_sandbox sandbox_port port_mappings fs) in
  (forall s, p ∈ ports_of s (nft fs') <-> p ∈ ports_of s (nft fs)) /\
  (forall ip, (p, ip) ∈ map_of (nft fs') <-> (p, ip) ∈ map_of (nft fs)).
Proof.
  intros Hp fs'.
  assert (same_on {[p]} fs fs') as Hsame.
  { apply keeps_state; [|apply same_on_refl].
    apply keeps_remove_all_port_mappings. intros q Hq Hin.
    apply elem_of_singleton in Hin. subst q. contradiction. }
  apply Hsame. apply elem_of_singleton. reflexivity.
Qed.

Lemma remove_all_port_mappings_spares_others_witness :
  let fs := MkFirewallService true Samples.sample_host in
  let fs' := state_of (remove_all_port_mappings_for_sandbox
                         32768 (Some [("9000", Py.JStr "40000")]) fs) in
  (forall s, 32769 ∈ ports_of s (nft fs') <-> 32769 ∈ ports_of s (nft fs)) /\
  (forall ip, (32769, ip) ∈ map_of (nft fs') <-> (32769, ip) ∈ map_of (nft fs)).
Proof.
  apply (remove_all_port_mappings_spares_others 32768 (Some [("9000", Py.JStr "40000")])
           (MkFirewallService true Samples.sample_host) 32769).
  apply (proj1 (bool_decide_eq_false _)). vm_compute. reflexivity.
Defined.

End FirewallFrameFacts.

(** ** The firewall service: initialisation *)

Module InitFacts.

Import Nft Firewall FirewallFacts Hoare HoareFacts FirewallFrame FirewallFrameFacts.

Lemma same_on_contents fs fs' :
  (forall p, same_on {[p]} fs fs') -> contents fs' = contents fs.
Proof.
  intros H. unfold contents.
  assert (forall s, ports_of s (nft fs') = ports_of s (nft fs)) as Hs.
  { intros s. apply set_eq. intros p.
    apply (H p p). apply elem_of_singleton. reflexivity. }
  assert (map_of (nft fs') = map_of (nft fs)) as Hm.
  { apply set_eq. intros [p ip].
    apply (H p p). apply elem_of_singleton. reflexivity. }
  rewrite !Hs, Hm. reflexivity.
Qed.

(** Commands that create objects or list them. *)
Lemma keeps_unset_run fs0 c check :
  (forall keep, spares keep c = true) ->
  keeps (unset fs0) (_run_nftables_command c check).
Proof.
  intros Hc s [Hsame Hflag].
  pose proof (run_initialized c check s) as Hinit.
  assert (forall p, same_on {[p]} fs0 (state_of (_run_nftables_command c check s))) as H.
  { intros p. eapply same_on_trans; [apply Hsame|]. apply run_spares, Hc. }
  destruct (_run_nftables_command c check s) as [[a|e] s']; simpl in *;
    (split; [exact H | congruence]).
Qed.

Lemma keeps_unset_install_rules fs0 ch : keeps (unset fs0) (install_rules ch).
Proof.
  unfold install_rules.
  repeat (apply keeps_bind; [apply keeps_unset_run; reflexivity | intros ?]).
  apply keeps_ret.
Qed.

Lemma triple_initialize fs0 :
  triple (unset fs0) initialize_firewall
         (fun b s => b = true /\ initialized s = true /\ forall p, same_on {[p]} fs0 s)
         (unset fs0).
Proof.
  unfold initialize_firewall.
  eapply triple_bind with (Q := fun init s => init = false /\ unset fs0 s).
  { apply triple_gets. intros s [Hs Hf]. split; [exact Hf | split; [exact Hs | exact Hf]]. }
  intros init. destruct init.
  { intros s [Hfalse _]. discriminate Hfalse. }
  set (Q := fun (b : bool) (s : FirewallService) =>
              b = true /\ initialized s = true /\ forall p, same_on {[p]} fs0 s).
  apply (triple_weaken (unset fs0) _ _ Q Q (unset fs0) (unset fs0));
    [|intros s [_ Hs]; exact Hs|auto|auto].
  apply (triple_try_except _ _ _ _ (unset fs0) (unset fs0));
    [|intros e; apply triple_raise; auto].
  assert (triple (unset fs0) (bind set_initialized (fun _ => ret true)) Q (unset fs0))
    as Hset.
  { intros s [Hs Hf]. simpl. split; [reflexivity|]. split; [reflexivity|]. exact Hs. }
  eapply triple_bind; [apply keeps_unset_run; reflexivity|intros listed].
  destruct (fst listed); [exact Hset|].
  repeat (eapply triple_bind;
          [first [apply keeps_unset_run; reflexivity | apply keeps_unset_install_rules]
          |intros ?]).
  exact Hset.
Qed.


Lemma unset_refl fs : initialized fs = false -> unset fs fs.
Proof. intros Hinit. split; [intros p; apply same_on_refl | exact Hinit]. Qed.

Lemma initialize_firewall_contents (fs : FirewallService) :
  contents (state_of (initialize_firewall fs)) = contents fs.
Proof.
  destruct (initialized fs) eqn:Hinit.
  - unfold initialize_firewall, bind, gets. rewrite Hinit. reflexivity.
  - pose proof (triple_initialize fs fs (unset_refl fs Hinit)) as H.
    destruct (initialize_firewall fs) as [[b|e] fs']; simpl;
      apply same_on_contents, H.
Qed.

(** X3: [initialize_firewall] adds and removes no element, and it sets
    the [_initialized] flag exactly when it returns.  In every state and
    for every fate of the command line: the two sets and the map hold
    afterwards what they held before; the call either returns [True]
    with the flag set, or raises with the flag still unset. *)
Theorem initialize_firewall_outcome (fs : FirewallService) :
  let r := result_of (initialize_firewall fs) in
  let fs' := state_of (initialize_firewall fs) in
  contents fs' = contents fs /\
  ((r = Ok true /\ initialized fs' = true) \/
   (exists e, r = Raise e /\ initialized fs' = false /\ initialized fs = false)).
Proof.
  intros r fs'. subst r fs'.
  split; [apply initialize_firewall_contents|].
  destruct (initialized fs) eqn:Hinit.
  - unfold initialize_firewall, bind, gets. rewrite Hinit. simpl. auto.
  - pose proof (triple_initialize fs fs (unset_refl fs Hinit)) as H.
    destruct (initialize_firewall fs) as [[b|e] fs']; simpl.
    + destruct H as (-> & Hflag & _). left. auto.
    + destruct H as [_ Hflag]. right. eauto.
Qed.

(** X4: what [initialize_firewall] builds.  On a host whose command
    line runs, an uninitialised service that finds the table [inet xctf]
    takes it as it is -- nothing is created, even when the table lacks
    its map, sets or chains -- and a service that finds no table creates
    it with an empty map, two empty sets and, in each of the two chains,
    the four rules in the order accept-non-sandbox, accept-static,
    verdict map, reject. *)
Theorem initialize_firewall_installs (fs : FirewallService) :
  initialized fs = false ->
  faults (nft fs) = [] ->
  initialize_firewall fs =
  (Ok true,
   MkFirewallService true
     (Host (Some (default fresh_table (ruleset (nft fs)))) [])).
Proof.
  intros Hinit Hf. destruct fs as [init [st f]]. simpl in *. subst init f.
  destruct st as [t|]; reflexivity.
Qed.

Lemma initialize_firewall_installs_witness :
  initialize_firewall (MkFirewallService false (Host None [])) =
  (Ok true, MkFirewallService true (Host (Some fresh_table) [])).
Proof.
  apply (initialize_firewall_installs (MkFirewallService false (Host None [])));
    reflexivity.
Defined.

End InitFacts.

(** ** The firewall service: single ports *)

Module PortFacts.

Import Nft Firewall FirewallFacts Hoare HoareFacts FirewallFrame FirewallFrameFacts.

(** X5: [remove_sandbox_port] takes the port out of [sandbox_ports]
    and nothing else.  In every state the map and [static_ports] are
    left as they were, so the map entries keyed on the port stay behind;
    an uninitialised service returns [False] and changes nothing; an
    initialised one whose command line runs returns [True] and the
    port is no longer in [sandbox_ports]. *)
Theorem remove_sandbox_port_effect (port : Z) (fs : FirewallService) :
  let r := result_of (remove_sandbox_port port fs) in
  let fs' := state_of (remove_sandbox_port port fs) in
  map_of (nft fs') = map_of (nft fs) /\
  ports_of StaticPorts (nft fs') = ports_of StaticPorts (nft fs) /\
  (initialized fs = false -> r = Ok false /\ fs' = fs) /\
  (initialized fs = true -> faults (nft fs) = [] ->
   r = Ok true /\
   ports_of SandboxPorts (nft fs') = ports_of SandboxPorts (nft fs) ∖ {[port]}).
Proof.
  destruct fs as [init [st f]].
  unfold remove_sandbox_port, try_except, bind, gets, ret, _run_nftables_command.
  destruct init; simpl.
  - destruct f as [|[] rest]; simpl;
      destruct st as [[sta [sp|] m pre inp]|]; simpl;
      try case_decide; simpl; unfold map_of, ports_of; simpl;
      repeat split; try discriminate; try reflexivity; intros; try discriminate;
      try (split; [reflexivity|]); simpl; set_solver.
  - repeat split; intros; try discriminate; reflexivity.
Qed.

Lemma remove_sandbox_port_effect_witness :
  let fs := MkFirewallService true Samples.sample_host in
  let fs' := state_of (remove_sandbox_port 32768 fs) in
  result_of (remove_sandbox_port 32768 fs) = Ok true /\
  ports_of SandboxPorts (nft fs') = ports_of SandboxPorts (nft fs) ∖ {[32768]} /\
  map_of (nft fs') = map_of (nft fs).
Proof.
  destruct (remove_sandbox_port_effect 32768 (MkFirewallService true Samples.sample_host))
    as (Hmap & _ & _ & Hrun).
  destruct (Hrun eq_refl eq_refl) as [Hres Hsp].
  split; [exact Hres|]. split; [exact Hsp | exact Hmap].
Defined.

(** X6: a static port added and removed.  On an initialised service
    whose table has its [static_ports] set and whose command line runs,
    [add_static_port(p)] returns [True] and puts [p] in [static_ports];
    [remove_static_port(p)] then returns [True] and takes it out again;
    neither touches [sandbox_ports] or the map, and for a port that was
    not in [static_ports] the pair leaves the three collections as they
    were. *)
Theorem static_port_roundtrip (port : Z) (fs : FirewallService) (t : table) :
  initialized fs = true ->
  faults (nft fs) = [] ->
  ruleset (nft fs) = Some t ->
  is_Some (static_ports t) ->
  let fs1 := state_of (add_static_port port fs) in
  let fs2 := state_of (remove_static_port port fs1) in
  result_of (add_static_port port fs) = Ok true /\
  ports_of StaticPorts (nft fs1) = {[port]} ∪ ports_of StaticPorts (nft fs) /\
  result_of (remove_static_port port fs1) = Ok true /\
  ports_of StaticPorts (nft fs2) = ports_of StaticPorts (nft fs) ∖ {[port]} /\
  ports_of SandboxPorts (nft fs2) = ports_of SandboxPorts (nft fs) /\
  map_of (nft fs2) = map_of (nft fs) /\
  (port ∉ ports_of StaticPorts (nft fs) -> contents fs2 = contents fs).
Proof.
  intros Hinit Hf Ht [sta Hsta].
  destruct fs as [init [st f]]. simpl in *. subst init f st.
  destruct t as [sta' sp m pre inp]. simpl in Hsta. subst sta'.
  unfold add_static_port, remove_static_port, ensure_initialized, try_except, bind,
    gets, ret, _run_nftables_command, contents, ports_of, map_of.
  simpl. rewrite decide_True by set_solver. simpl.
  repeat split; try reflexivity; try set_solver.
  intros Hfresh. do 2 f_equal. set_solver.
Qed.

Lemma static_port_roundtrip_witness :
  let fs := MkFirewallService true Samples.sample_host in
  let fs2 := state_of (remove_static_port 8080 (state_of (add_static_port 8080 fs))) in
  result_of (add_static_port 8080 fs) = Ok true /\
  contents fs2 = contents fs.
Proof.
  destruct (static_port_roundtrip 8080 (MkFirewallService true Samples.sample_host)
              (Table (Some {[8000]}) (Some {[32768; 32769]})
                     (Some {[(32768, "10.0.0.1")]}) (Some []) (Some [])))
    as (Hadd & _ & _ & _ & _ & _ & Hround); try reflexivity.
  - eexists. reflexivity.
  - split; [exact Hadd|]. apply Hround.
    apply (proj1 (bool_decide_eq_false _)). vm_compute. reflexivity.
Defined.

End PortFacts.

(** ** Python helpers: [strip] and [int] *)

Module PyFacts.

Import Py PySpec.

Lemma lstrip_spaceless s : spaceless s = true -> lstrip s = s.
Proof.
  destruct s as [|a rest]; [reflexivity|]. simpl.
  intros H. apply andb_prop in H as [Ha _].
  destruct (is_space a); [discriminate | reflexivity].
Qed.

Lemma rstrip_spaceless s : spaceless s = true -> rstrip s = s.
Proof.
  induction s as [|a rest IH]; [reflexivity|]. simpl.
  intros H. apply andb_prop in H as [Ha Hrest].
  rewrite (IH Hrest). destruct rest as [|b rest'].
  - destruct (is_space a); [discriminate | reflexivity].
  - reflexivity.
Qed.

Lemma strip_spaceless s : spaceless s = true -> strip s = s.
Proof.
  intros H. unfold strip. rewrite (lstrip_spaceless s H). apply rstrip_spaceless, H.
Qed.

Lemma digit_of_pretty_char (d : N) :
  (d < 10)%N ->
  digit_of (pretty_N_char d) = Some (Z.of_N d) /\
  is_space (pretty_N_char d) = false.
Proof.
  intros Hd.
  assert (d = 0 \/ d = 1 \/ d = 2 \/ d = 3 \/ d = 4 \/ d = 5 \/ d = 6 \/ d = 7 \/
          d = 8 \/ d = 9)%N as Hcases by lia.
  repeat (destruct Hcases as [->|Hcases]; [split; reflexivity|]).
  subst d. split; reflexivity.
Qed.

(** The digits that [pretty] puts in front of [s] are read back by
    [digits] as the number they print. *)
Lemma digits_pretty_go (x : N) :
  (0 < x)%N ->
  forall s, exists k : Z,
    0 <= k /\
    (forall acc b, digits acc b (pretty_N_go x s) = digits (acc * 10 ^ k + Z.of_N x) true s) /\
    (spaceless s = true -> spaceless (pretty_N_go x s) = true) /\
    (exists c rest d, pretty_N_go x s = String c rest /\ digit_of c = Some d).
Proof.
  induction (N.lt_wf_0 x) as [x _ IH]. intros Hx s.
  rewrite pretty_N_go_step by exact Hx.
  destruct (digit_of_pretty_char (x `mod` 10)%N) as [Hdigit Hspace].
  { apply N.mod_lt. discriminate. }
  destruct (decide (x `div` 10 = 0)%N) as [Hsmall|Hbig].
  - rewrite Hsmall, pretty_N_go_0. exists 1. split; [lia|]. split; [|split].
    + intros acc b. simpl. rewrite Hdigit. f_equal.
      assert (x `mod` 10 = x)%N as ->; [|rewrite Z.pow_1_r; lia].
      apply N.mod_small. apply N.div_small_iff in Hsmall; [exact Hsmall | discriminate].
    + intros Hs. simpl. rewrite Hspace, Hs. reflexivity.
    + eauto.
  - destruct (IH (x `div` 10)%N) with (s := String (pretty_N_char (x `mod` 10)) s)
      as (k & Hk & Hread & Hclean & Hhead).
    { apply N.div_lt; [exact Hx | reflexivity]. }
    { apply N.neq_0_lt_0. exact Hbig. }
    exists (k + 1). split; [lia|]. split; [|split].
    + intros acc b. rewrite Hread. simpl. rewrite Hdigit. f_equal.
      rewrite Z.pow_add_r, Z.pow_1_r by lia.
      pose proof (N.div_mod x 10 ltac:(discriminate)) as Hdm.
      assert (Z.of_N x = 10 * Z.of_N (x `div` 10) + Z.of_N (x `mod` 10)) by lia.
      lia.
    + intros Hs. apply Hclean. simpl. rewrite Hspace, Hs. reflexivity.
    + exact Hhead.
Qed.

Lemma int_of_string_digit_led c rest d :
  digit_of c = Some d ->
  strip (String c rest) = String c rest ->
  int_of_string (String c rest) = digits 0 false (String c rest).
Proof.
  intros Hd Hstrip. unfold int_of_string. rewrite Hstrip.
  destruct c as [[] [] [] [] [] [] [] []]; try discriminate Hd; reflexivity.
Qed.

Lemma int_of_string_pretty_N (x : N) : int_of_string (pretty x) = Some (Z.of_N x).
Proof.
  unfold pretty, pretty_N. case_decide as Hx; [subst x; reflexivity|].
  destruct (digits_pretty_go x ltac:(lia) "") as (k & Hk & Hread & Hclean & c & rest & d & Hs & Hd).
  pose proof (strip_spaceless _ (Hclean eq_refl)) as Hstrip.
  rewrite Hs in Hstrip |- *.
  rewrite (int_of_string_digit_led c rest d Hd Hstrip).
  rewrite <- Hs, Hread. simpl. f_equal; lia.
Qed.

(** [int(str(z))] is [z]. *)
Lemma int_of_string_pretty (z : Z) : int_of_string (pretty z) = Some z.
Proof.
  destruct z as [|p|p].
  - reflexivity.
  - change (pretty (Z.pos p)) with (pretty (N.pos p)).
    rewrite int_of_string_pretty_N. reflexivity.
  - change (pretty (Z.neg p)) with ("-" +:+ pretty (N.pos p)).
    unfold pretty, pretty_N. rewrite decide_False by discriminate.
    destruct (digits_pretty_go (N.pos p) ltac:(lia) "")
      as (k & Hk & Hread & Hclean & _).
    unfold int_of_string.
    rewrite strip_spaceless.
    2:{ simpl. apply Hclean. reflexivity. }
    simpl. rewrite Hread. simpl. f_equal; lia.
Qed.

End PyFacts.

(** ** The challenge service: provisioning *)

Module ServiceFacts.

Import Nft Firewall FirewallFacts Hoare HoareFacts FirewallFrame FirewallFrameFacts.
Import ChallengeService ServiceSpec PyFacts.

Lemma mapped_ports_encode (ports : list (Z * Z)) :
  omap Py.coerce_port (snd <$> encode_ports ports) = snd <$> ports.
Proof.
  induction ports as [|[c h] ports IH]; [reflexivity|].
  simpl. rewrite int_of_string_pretty. simpl. f_equal. exact IH.
Qed.

Lemma triple_then_raise {S A B} (P : S -> Prop) (c : M S A) e (Q : B -> S -> Prop) :
  triple P (bind c (fun _ => raise e)) Q (fun _ => True).
Proof.
  intros s _. unfold bind. destruct (c s) as [[a|e'] s']; simpl; exact I.
Qed.

Lemma reraises_raise {A} e : Frame.reraises (@raise World A e).
Proof. intros w. simpl. eauto. Qed.

Lemma reraises_bind {A B} (c : M World A) (k : A -> M World B) :
  (forall a, Frame.reraises (k a)) -> Frame.reraises (bind c k).
Proof.
  intros Hk w. unfold bind. destruct (c w) as [[a|e] w']; simpl; [apply Hk | eauto].
Qed.

Lemma triple_reraises {A} (P : World -> Prop) (c : M World A) (Q : A -> World -> Prop) :
  Frame.reraises c -> triple P c Q (fun _ => True).
Proof.
  intros Hc w _. destruct (Hc w) as [e He].
  destruct (c w) as [[a|e'] w']; simpl in *; [discriminate | exact I].
Qed.

Lemma triple_any {S A} (P : S -> Prop) (c : M S A) :
  triple P c (fun _ _ => True) (fun _ => True).
Proof. intros s _. destruct (c s) as [[a|e] s']; exact I. Qed.

Lemma on_volumes_at {A} t n (c : M Volumes A) : keeps (at_ t n) (on_volumes c).
Proof.
  intros w Hw. unfold on_volumes, zoom.
  destruct (c (volumes w)) as [[a|e] v']; exact Hw.
Qed.

Lemma on_firewall_now {A} t (c : M FirewallService A) :
  keeps (fun w => now w = t) (on_firewall c).
Proof.
  intros w Hw. unfold on_firewall, zoom.
  destruct (c (firewall w)) as [[a|e] v']; exact Hw.
Qed.

Lemma on_docker_now {A} t (c : M Docker.daemon A) :
  keeps (fun w => now w = t) (on_docker c).
Proof.
  intros w Hw. unfold on_docker, zoom.
  destruct (c (docker w)) as [[a|e] v']; exact Hw.
Qed.

Lemma publish_ports (ports : list Z) : forall n,
  (snd <$> Docker.publish ports n) = seqZ n (Z.of_nat (length ports)) /\
  (fst <$> Docker.publish ports n) = ports.
Proof.
  induction ports as [|p ports IH]; intros n; [split; reflexivity|].
  destruct (IH (n + 1)) as [Hs Hf].
  change (Docker.publish (p :: ports) n) with ((p, n) :: Docker.publish ports (n + 1)).
  rewrite !fmap_cons, Hs, Hf. split; [|reflexivity].
  change (length (p :: ports)) with (S (length ports)).
  rewrite Nat2Z.inj_succ. rewrite (seqZ_cons n) by lia.
  rewrite Z.pred_succ. reflexivity.
Qed.

(** The row that a successful [_create_sandbox] returns. *)
Lemma create_sandbox_row challenge user_id t n :
  triple (at_ t n) (_create_sandbox challenge user_id)
    (fun sb _ =>
       exists container,
         Docker.image container = Challenge.image_tag challenge /\
         Docker.name container = container_name challenge user_id /\
         Docker.ports container = Docker.publish (challenge_ports challenge) n /\
         Sandbox.container_id sb = Docker.id container /\
         host_port_of 8000 container = Some (Sandbox.container_port sb) /\
         Sandbox.port_mappings sb = Some (encode_ports (Docker.ports container)) /\
         Sandbox.created_at sb = t /\
         Sandbox.destroyed_at sb = None)
    (fun _ => True).
Proof.
  unfold _create_sandbox.
  eapply triple_bind with (Q := fun _ => at_ t n).
  { eapply triple_try_except with (E := at_ t n).
    - apply keeps_bind; [apply on_volumes_at | intros; apply on_volumes_at].
    - intros e. apply triple_then_raise. }
  intros mount_point.
  eapply triple_bind
    with (Q := fun container w =>
                 now w = t /\
                 Docker.image container = Challenge.image_tag challenge /\
                 Docker.name container = container_name challenge user_id /\
                 Docker.ports container = Docker.publish (challenge_ports challenge) n).
  { eapply triple_try_except with (E := fun _ => True); [|intros e; apply triple_then_raise].
    intros w [Hnow Hport]. unfold on_docker, zoom, Docker.create_container.
    destruct (head (filter _ (Docker.images (docker w)))) as [[img becomes_healthy]|];
      [|exact I].
    case_bool_decide; [exact I|]. simpl. rewrite Hport. auto. }
  intros container.
  eapply triple_try_except with (E := fun _ => True);
    [|intros e; apply triple_reraises; do 2 (apply reraises_bind; intros ?);
      apply reraises_raise].
  eapply triple_bind
    with (Q := fun _ w =>
                 now w = t /\
                 Docker.image container = Challenge.image_tag challenge /\
                 Docker.name container = container_name challenge user_id /\
                 Docker.ports container = Docker.publish (challenge_ports challenge) n).
  { intros w (Hnow & Hrest). pose proof (on_docker_now t
      (Docker.wait_for_healthy (Docker.id container)) w Hnow) as H.
    destruct (on_docker _ w) as [[a|e] w']; [split; [exact H | exact Hrest] | exact I]. }
  intros healthy. destruct (negb healthy); [apply triple_raise; auto|].
  destruct (host_port_of 8000 container) as [container_port|] eqn:Hhost;
    [|apply triple_raise; auto].
  eapply triple_bind
    with (Q := fun _ w =>
                 now w = t /\
                 Docker.image container = Challenge.image_tag challenge /\
                 Docker.name container = container_name challenge user_id /\
                 Docker.ports container = Docker.publish (challenge_ports challenge) n).
  { intros w (Hnow & Hrest). unfold try_except, on_volumes, zoom, modify. simpl.
    split; [exact Hnow | exact Hrest]. }
  intros _u.
  eapply triple_try_except with (E := fun _ => True);
    [|intros e; apply triple_reraises; do 2 (apply reraises_bind; intros ?);
      apply reraises_raise].
  intros w (Hnow & Himg & Hname & Hports).
  unfold bind at 1, gets at 1. unfold bind at 1, get at 1.
  unfold Db.insert_sandbox. unfold bind at 1, with_db, modify. simpl.
  unfold bind.
  match goal with
  | |- context [_add_sandbox_firewall_rules ?sb ?c ?w1] =>
      destruct (_add_sandbox_firewall_rules sb c w1) as [[[]|e] w2]
  end; [|exact I].
  simpl. exists container. rewrite Hnow. repeat split; try assumption; reflexivity.
Qed.


(** X7: the ports in the row are the ports the daemon published.  When
    [_create_sandbox] returns a sandbox, the ports that the firewall
    code reads back from its [port_mappings] (each value through
    [int()]) are exactly the host ports published for the container, in
    order -- one for each requested container port, counted from the
    daemon's next free port -- and the primary port [container_port]
    is one of them. *)
Theorem created_sandbox_ports challenge user_id (w : World) (sb : Sandbox.t) :
  result_of (_create_sandbox challenge user_id w) = Ok sb ->
  mapped_ports sb
  = seqZ (Docker.next_port (docker w)) (Z.of_nat (length (challenge_ports challenge))) /\
  Sandbox.container_port sb ∈ mapped_ports sb /\
  Sandbox.created_at sb = now w /\
  Sandbox.destroyed_at sb = None.
Proof.
  intros Hres.
  pose proof (create_sandbox_row challenge user_id (now w) (Docker.next_port (docker w)) w
                (conj eq_refl eq_refl)) as Hrow.
  destruct (_create_sandbox challenge user_id w) as [[sb'|e] w']; simpl in Hres;
    [|discriminate].
  injection Hres as ->.
  destruct Hrow as (container & _ & _ & Hports & _ & Hhost & Hmap & Hcreated & Hdestroyed).
  assert (mapped_ports sb = snd <$> Docker.ports container) as Hmapped.
  { unfold mapped_ports. rewrite Hmap. simpl. apply mapped_ports_encode. }
  split; [|split; [|split; assumption]].
  - rewrite Hmapped, Hports. apply publish_ports.
  - rewrite Hmapped. unfold host_port_of in Hhost.
    destruct (head (filter _ (Docker.ports container))) as [[c h]|] eqn:Hhead;
      [|discriminate].
    simpl in Hhost. injection Hhost as <-.
    apply head_Some_elem_of, list_elem_of_filter in Hhead as [_ Hin].
    apply list_elem_of_fmap. exists (c, h). split; [reflexivity | exact Hin].
Qed.

Lemma created_sandbox_ports_witness :
  exists sb,
    result_of (_create_sandbox Scenario.web (Some 8) Scenario.world) = Ok sb /\
    mapped_ports sb = [32770] /\
    Sandbox.container_port sb ∈ mapped_ports sb.
Proof.
  eexists. split; [vm_compute; reflexivity|].
  match goal with |- mapped_ports ?sb = _ /\ _ =>
    destruct (created_sandbox_ports Scenario.web (Some 8) Scenario.world sb)
      as (Hports & Hin & _)
  end.
  - vm_compute. reflexivity.
  - split; [exact Hports | exact Hin].
Defined.

Import Concurrent Frame FrameFacts ConcurrentFacts.

(** The path that provisions: no row is found, the lock is taken,
    [_create_sandbox] runs and the lock is given back. *)
Lemma get_or_create_sandbox_provisions challenge user_id who lock_name (w : World) :
  sandbox_key challenge user_id = Some (who, lock_name) ->
  lock_name ∉ locks w ->
  head (rows challenge user_id w) = None ->
  let w1 := MkWorld (db w) (firewall w) (docker w) (volumes w)
                    ({[lock_name]} ∪ locks w) (now w) in
  let unlocked w2 := MkWorld (db w2) (firewall w2) (docker w2) (volumes w2)
                             (locks w2 ∖ {[lock_name]}) (now w2) in
  get_or_create_sandbox challenge user_id w =
  match _create_sandbox challenge user_id w1 with
  | (Ok sb, w2) => (Ok (Some sb), unlocked w2)
  | (Raise e, w2) => (Raise e, unlocked w2)
  end.
Proof.
  intros Hkey Hfree Hhead w1 unlocked.
  unfold get_or_create_sandbox. rewrite Hkey.
  unfold bind at 1. rewrite (find_sandbox_rows challenge user_id who lock_name Hkey).
  rewrite Hhead.
  unfold bind at 1, on_locks at 1, zoom at 1, Utils.acquire_lock, Utils.setnx,
    bind at 1, gets at 1.
  rewrite bool_decide_eq_false_2 by exact Hfree.
  unfold bind at 1, modify at 1, ret at 1. cbn [negb].
  fold w1. unfold try_finally.
  unfold bind at 1. rewrite (find_sandbox_rows challenge user_id who lock_name Hkey).
  rewrite (rows_db challenge user_id who lock_name Hkey w w1 eq_refl), Hhead.
  unfold bind at 1.
  destruct (_create_sandbox challenge user_id w1) as [[sb|e] w2]; reflexivity.
Qed.

(** X8: [get_or_create_sandbox] run on its own.  Started with its lock
    free, the call leaves the lock free however it ends, also when
    provisioning raises.  If it returns a sandbox, that sandbox is the
    first active row of the key afterwards and a second call returns it
    again without changing anything; it returns [None] only for a
    non-static challenge asked for without a user, and then nothing has
    changed; if it raises, the database is as it was. *)
Theorem get_or_create_sandbox_alone challenge user_id (w : World) :
  lock_free challenge user_id w ->
  let r := result_of (get_or_create_sandbox challenge user_id w) in
  let w' := state_of (get_or_create_sandbox challenge user_id w) in
  locks w' = locks w /\
  match r with
  | Ok (Some sb) =>
      head (rows challenge user_id w') = Some sb /\
      get_or_create_sandbox challenge user_id w' = (Ok (Some sb), w')
  | Ok None => sandbox_key challenge user_id = None /\ w' = w
  | Raise _ => db w' = db w
  end.
Proof.
  intros Hfree. cbv zeta. unfold lock_free in Hfree.
  destruct (sandbox_key challenge user_id) as [[who lock_name]|] eqn:Hkey.
  2:{ unfold get_or_create_sandbox. rewrite Hkey. simpl. auto. }
  assert (forall v sb, head (rows challenge user_id v) = Some sb ->
            get_or_create_sandbox challenge user_id v = (Ok (Some sb), v)) as Hfound.
  { intros v sb Hhead. unfold get_or_create_sandbox. rewrite Hkey.
    unfold bind at 1. rewrite (find_sandbox_rows challenge user_id who lock_name Hkey).
    rewrite Hhead. reflexivity. }
  destruct (head (rows challenge user_id w)) as [sb|] eqn:Hhead.
  { rewrite (Hfound w sb Hhead). simpl. auto. }
  rewrite (get_or_create_sandbox_provisions challenge user_id who lock_name w
             Hkey Hfree Hhead).
  set (w1 := MkWorld (db w) (firewall w) (docker w) (volumes w)
                     ({[lock_name]} ∪ locks w) (now w)).
  pose proof (create_sandbox_creates challenge user_id w1) as Hcreate.
  destruct (_create_sandbox challenge user_id w1) as [[sb|e] w2];
    cbn [result_of state_of fst snd locks db].
  - destruct (rows_inserted challenge user_id who lock_name Hkey w1 sb w2 Hcreate)
      as [Hrows _].
    destruct Hcreate as (_ & Hlocks & _).
    rewrite (rows_db challenge user_id who lock_name Hkey w w1 eq_refl) in Hrows.
    rewrite (head_none _ Hhead) in Hrows. simpl in Hrows.
    set (w3 := MkWorld (db w2) (firewall w2) (docker w2) (volumes w2)
                       (locks w2 ∖ {[lock_name]}) (now w2)).
    assert (head (rows challenge user_id w3) = Some sb) as Hhead3.
    { rewrite (rows_db challenge user_id who lock_name Hkey w2 w3 eq_refl), Hrows.
      reflexivity. }
    split; [rewrite Hlocks; simpl; set_solver|].
    split; [exact Hhead3 | exact (Hfound w3 sb Hhead3)].
  - destruct Hcreate as [Hdb Hlocks].
    split; [rewrite Hlocks; simpl; set_solver | exact Hdb].
Qed.

Lemma get_or_create_sandbox_alone_witness :
  let r := result_of (get_or_create_sandbox Scenario.web (Some 8) Scenario.world) in
  let w' := state_of (get_or_create_sandbox Scenario.web (Some 8) Scenario.world) in
  locks w' = locks Scenario.world /\
  match r with
  | Ok (Some sb) =>
      head (rows Scenario.web (Some 8) w') = Some sb /\
      get_or_create_sandbox Scenario.web (Some 8) w' = (Ok (Some sb), w')
  | Ok None => sandbox_key Scenario.web (Some 8) = None /\ w' = Scenario.world
  | Raise _ => db w' = db Scenario.world
  end.
Proof.
  apply (get_or_create_sandbox_alone Scenario.web (Some 8) Scenario.world).
  unfold lock_free. simpl. apply not_elem_of_empty.
Defined.

End ServiceFacts.

(** ** The challenge service: submissions *)

Module SubmissionFacts.

Import ChallengeService ServiceSpec.

Lemma solved_correct_submissions user_id challenge_id db :
  Db.solved user_id challenge_id db = false ->
  correct_submissions user_id challenge_id db = [].
Proof.
  unfold Db.solved, correct_submissions. intros H.
  apply bool_decide_eq_false in H.
  apply not_Exists_Forall in H; [|intros; apply _].
  induction (submissions db) as [|s l IH]; [reflexivity|].
  apply Forall_cons in H as [Hs Hl].
  rewrite filter_cons, decide_False by exact Hs. apply IH, Hl.
Qed.

(** What [submit_flag] does to the world: nothing, or one more
    submission of that user for that challenge. *)
Lemma submit_flag_cases user_id challenge_id flag (w : World) :
  submit_flag user_id challenge_id flag w = (Ok (false, "Challenge not found"), w) /\
    Db.get_challenge challenge_id (db w) = None
  \/
  submit_flag user_id challenge_id flag w
    = (Ok (false, "You have already solved this challenge."), w) /\
    Db.solved user_id challenge_id (db w) = true
  \/
  exists challenge,
    Db.get_challenge challenge_id (db w) = Some challenge /\
    Db.solved user_id challenge_id (db w) = false /\
    let is_correct := bool_decide (Py.strip flag = Py.strip (Challenge.flag challenge)) in
    submit_flag user_id challenge_id flag w
    = (Ok (is_correct, if is_correct then "correct flag" else "incorrect flag"),
       MkWorld (Db.insert_submission user_id challenge_id is_correct (db w))
               (firewall w) (docker w) (volumes w) (locks w) (now w)).
Proof.
  unfold submit_flag, bind, gets. simpl.
  destruct (Db.get_challenge challenge_id (db w)) as [challenge|] eqn:Hget;
    [|left; auto].
  right. destruct (Db.solved user_id challenge_id (db w)) eqn:Hsolved; [left; auto|].
  right. exists challenge. split; [reflexivity|]. split; [reflexivity|].
  unfold try_except, with_db, modify. simpl.
  destruct (bool_decide _); reflexivity.
Qed.

(** X9: never two correct submissions.  If a user has at most one
    correct submission for a challenge, then after [submit_flag], for
    any flag, the user still has at most one; and a user who has
    already solved the challenge is answered "You have already solved
    this challenge." with nothing stored. *)
Theorem submit_flag_keeps_one_correct user_id challenge_id flag (w : World) :
  (length (correct_submissions user_id challenge_id (db w)) <= 1)%nat ->
  let w' := state_of (submit_flag user_id challenge_id flag w) in
  (length (correct_submissions user_id challenge_id (db w')) <= 1)%nat /\
  (forall u c, (u, c) ≠ (user_id, challenge_id) ->
     correct_submissions u c (db w') = correct_submissions u c (db w)) /\
  (correct_submissions user_id challenge_id (db w) ≠ [] ->
   submit_flag user_id challenge_id flag w
   = (Ok (false, "You have already solved this challenge."), w) \/
   submit_flag user_id challenge_id flag w = (Ok (false, "Challenge not found"), w)).
Proof.
  intros Hone w'. subst w'.
  destruct (submit_flag_cases user_id challenge_id flag w)
    as [[Hrun _]|[[Hrun _]|(challenge & Hget & Hsolved & Hrun)]].
  - rewrite Hrun. simpl. auto.
  - rewrite Hrun. simpl. auto.
  - cbv zeta in Hrun. rewrite Hrun. simpl.
    pose proof (solved_correct_submissions _ _ _ Hsolved) as Hnone.
    split; [|split].
    + unfold correct_submissions in *. simpl. rewrite filter_app, Hnone. simpl.
      rewrite filter_cons, filter_nil.
      destruct (bool_decide _); simpl; destruct (decide _); simpl; lia.
    + intros u c Hne. unfold correct_submissions. simpl. rewrite filter_app.
      rewrite filter_cons, decide_False, filter_nil, app_nil_r; [reflexivity|].
      simpl. intros (-> & -> & _). contradiction.
    + intros Hsome. contradiction.
Qed.

Lemma submit_flag_keeps_one_correct_witness :
  let w' := state_of (submit_flag 7 1 "FLAG{test123}" Scenario.world) in
  (length (correct_submissions 7 1 (db w')) <= 1)%nat.
Proof.
  apply (submit_flag_keeps_one_correct 7 1 "FLAG{test123}" Scenario.world).
  vm_compute. lia.
Defined.



End SubmissionFacts.

(** ** The challenge service: firewall rules of a new sandbox *)

Module ProvisionFacts.

Import Nft Firewall FirewallFacts Hoare HoareFacts FirewallFrame FirewallFrameFacts.
Import InitFacts FirewallStates ChallengeService.

Lemma initialize_working fs :
  working fs ->
  exists fs', initialize_firewall fs = (Ok true, fs') /\ serving fs' /\
              contents fs' = contents fs.
Proof.
  intros [Hf Hst]. destruct fs as [init [st f]]. simpl in *. subst f.
  destruct st as [t|].
  - destruct init; (eexists; split; [reflexivity|]; split; [|reflexivity]);
      (split; [reflexivity|]; split; [reflexivity|]; exists t; auto).
  - subst init. eexists. split; [reflexivity|]. split; [|reflexivity].
    split; [reflexivity|]. split; [reflexivity|]. eexists. split; [reflexivity|].
    repeat split; simpl; eauto.
Qed.

Lemma add_static_port_serving port fs :
  serving fs ->
  exists fs', add_static_port port fs = (Ok true, fs') /\ serving fs' /\
    ports_of StaticPorts (nft fs') = {[port]} ∪ ports_of StaticPorts (nft fs) /\
    ports_of SandboxPorts (nft fs') = ports_of SandboxPorts (nft fs) /\
    map_of (nft fs') = map_of (nft fs).
Proof.
  intros (Hinit & Hf & t & Ht & [sta Hsta] & [sp Hsp] & [m Hm]).
  destruct fs as [init [st f]]. simpl in *. subst init f st.
  destruct t as [sta' sp' m' pre inp]. simpl in *. subst sta' sp' m'.
  eexists. split; [reflexivity|]. split.
  - split; [reflexivity|]. split; [reflexivity|]. eexists. split; [reflexivity|].
    repeat split; simpl; eauto.
  - repeat split; reflexivity.
Qed.

Lemma add_port_ip_mapping_serving port ip fs :
  serving fs ->
  exists fs', add_port_ip_mapping port ip fs = (Ok true, fs') /\ serving fs' /\
    ports_of StaticPorts (nft fs') = ports_of StaticPorts (nft fs) /\
    ports_of SandboxPorts (nft fs') = {[port]} ∪ ports_of SandboxPorts (nft fs) /\
    map_of (nft fs') = {[(port, ip)]} ∪ map_of (nft fs).
Proof.
  intros (Hinit & Hf & t & Ht & [sta Hsta] & [sp Hsp] & [m Hm]).
  destruct fs as [init [st f]]. simpl in *. subst init f st.
  destruct t as [sta' sp' m' pre inp]. simpl in *. subst sta' sp' m'.
  eexists. split; [reflexivity|]. split.
  - split; [reflexivity|]. split; [reflexivity|]. eexists. split; [reflexivity|].
    repeat split; simpl; eauto.
  - repeat split; reflexivity.
Qed.

Lemma static_loop_serving (l : list Z) : forall w,
  serving (firewall w) ->
  exists fs',
    for_each l (fun port_int => on_firewall (add_static_port port_int) ;;; ret tt) w
    = (Ok tt, MkWorld (db w) fs' (docker w) (volumes w) (locks w) (now w)) /\
    serving fs' /\
    ports_of StaticPorts (nft fs') = list_to_set l ∪ ports_of StaticPorts (nft (firewall w)) /\
    ports_of SandboxPorts (nft fs') = ports_of SandboxPorts (nft (firewall w)) /\
    map_of (nft fs') = map_of (nft (firewall w)).
Proof.
  induction l as [|p l IH]; intros w Hs.
  - exists (firewall w). destruct w. simpl. rewrite union_empty_l_L.
    split; [reflexivity|]. split; [exact Hs|]. repeat split; reflexivity.
  - destruct (add_static_port_serving p (firewall w) Hs)
      as (fs1 & Hrun & Hs1 & Hsta & Hsp & Hm).
    set (w1 := MkWorld (db w) fs1 (docker w) (volumes w) (locks w) (now w)).
    destruct (IH w1 Hs1) as (fs2 & Hloop & Hs2 & Hsta2 & Hsp2 & Hm2).
    exists fs2. split; [|split; [exact Hs2|]].
    + simpl. unfold bind at 1, bind at 1, on_firewall, zoom. rewrite Hrun. simpl.
      fold w1. exact Hloop.
    + simpl in *. rewrite Hsta2, Hsp2, Hm2, Hsta, Hsp, Hm.
      repeat split; try reflexivity. set_solver.
Qed.

Lemma mapping_loop_serving ip (l : list Z) : forall w,
  serving (firewall w) ->
  exists fs',
    for_each l (fun port_int => on_firewall (add_port_ip_mapping port_int ip) ;;; ret tt) w
    = (Ok tt, MkWorld (db w) fs' (docker w) (volumes w) (locks w) (now w)) /\
    serving fs' /\
    ports_of StaticPorts (nft fs') = ports_of StaticPorts (nft (firewall w)) /\
    ports_of SandboxPorts (nft fs')
      = list_to_set l ∪ ports_of SandboxPorts (nft (firewall w)) /\
    map_of (nft fs') = keys_for ip l ∪ map_of (nft (firewall w)).
Proof.
  induction l as [|p l IH]; intros w Hs.
  - exists (firewall w). destruct w. unfold keys_for. simpl. rewrite !union_empty_l_L.
    split; [reflexivity|]. split; [exact Hs|]. repeat split; reflexivity.
  - destruct (add_port_ip_mapping_serving p ip (firewall w) Hs)
      as (fs1 & Hrun & Hs1 & Hsta & Hsp & Hm).
    set (w1 := MkWorld (db w) fs1 (docker w) (volumes w) (locks w) (now w)).
    destruct (IH w1 Hs1) as (fs2 & Hloop & Hs2 & Hsta2 & Hsp2 & Hm2).
    exists fs2. split; [|split; [exact Hs2|]].
    + simpl. unfold bind at 1, bind at 1, on_firewall, zoom. rewrite Hrun. simpl.
      fold w1. exact Hloop.
    + simpl in *. rewrite Hsta2, Hsp2, Hm2, Hsta, Hsp, Hm. unfold keys_for. simpl.
      repeat split; try reflexivity; set_solver.
Qed.


(** X11: without a session nothing is opened.  For a sandbox of a
    non-static challenge whose user is missing or has no active
    session, [_add_sandbox_firewall_rules] returns without raising and
    leaves the database, both port sets and the map as they were -- in
    every state of the firewall and whatever its command line does. *)
Theorem add_sandbox_firewall_rules_without_session sb challenge (w : World) :
  Challenge.static challenge = false ->
  Db.truthy (Sandbox.user_id sb) = false \/
  Db.active_sessions_of (default 0 (Sandbox.user_id sb)) (db w) = [] ->
  let w' := state_of (_add_sandbox_firewall_rules sb challenge w) in
  result_of (_add_sandbox_firewall_rules sb challenge w) = Ok tt /\
  db w' = db w /\
  contents (firewall w') = contents (firewall w).
Proof.
  intros Hstatic Hnone. cbv zeta.
  assert (exists fs1,
            _add_sandbox_firewall_rules sb challenge w
            = (Ok tt, MkWorld (db w) fs1 (docker w) (volumes w) (locks w) (now w)) /\
            contents fs1 = contents (firewall w)) as (fs1 & Hrun & Hcontents).
  { pose proof (initialize_firewall_contents (firewall w)) as Hcontents.
    unfold _add_sandbox_firewall_rules, try_except, bind at 1, on_firewall, zoom.
    rewrite Hstatic.
    destruct (initialize_firewall (firewall w)) as [[b|e] fs1]; simpl in *;
      [|exists fs1; auto].
    destruct Hnone as [Hfalsy|Hnone].
    - rewrite Hfalsy. simpl. exists fs1. auto.
    - destruct (Db.truthy (Sandbox.user_id sb)); simpl; [|exists fs1; auto].
      unfold bind, gets. simpl. rewrite Hnone. simpl. exists fs1. auto. }
  rewrite Hrun. simpl. auto.
Qed.

Lemma add_sandbox_firewall_rules_without_session_witness :
  let sb := Sandbox.Make 2 "ctr-xctf-1-8" 32770 5000 None 1 (Some 8) true None in
  let w' := state_of (_add_sandbox_firewall_rules sb Scenario.web Scenario.world) in
  result_of (_add_sandbox_firewall_rules sb Scenario.web Scenario.world) = Ok tt /\
  db w' = db Scenario.world /\
  contents (firewall w') = contents (firewall Scenario.world).
Proof.
  apply (add_sandbox_firewall_rules_without_session
           (Sandbox.Make 2 "ctr-xctf-1-8" 32770 5000 None 1 (Some 8) true None)
           Scenario.web Scenario.world).
  - reflexivity.
  - right. reflexivity.
Defined.



End ProvisionFacts.

(** ** The container daemon *)

Module DaemonFacts.

Import Docker.

Lemma stop_and_remove_container_effect container_id (d : daemon) :
  stop_and_remove_container container_id d
  = (Ok (bool_decide (Exists (fun c => id c = container_id) (containers d))),
     Daemon (filter (fun c => id c ≠ container_id) (containers d))
            (images d) (next_port d)).
Proof.
  unfold stop_and_remove_container, stop_container, remove_container, get_container,
    try_except, bind, modify, ret.
  destruct (head (filter (fun c => id c = container_id) (containers d)))
    as [c|] eqn:Hhead; simpl.
  - rewrite Hhead. simpl. f_equal. f_equal. symmetry. apply bool_decide_eq_true.
    apply head_Some_elem_of, list_elem_of_filter in Hhead as [Hid Hin].
    apply Exists_exists. eauto.
  - rewrite Hhead. simpl.
    apply head_None in Hhead.
    assert (Forall (fun c => id c ≠ container_id) (containers d)) as Hall.
    { apply Forall_forall. intros c Hin Hid.
      assert (c ∈ filter (fun c => id c = container_id) (containers d)) as Hc
        by (apply list_elem_of_filter; auto).
      rewrite Hhead in Hc. inversion Hc. }
    f_equal.
    + f_equal. symmetry. apply bool_decide_eq_false. intros Hex.
      apply Exists_exists in Hex as (c & Hin & Hid).
      rewrite Forall_forall in Hall. exact (Hall c Hin Hid).
    + destruct d as [cs imgs np]. simpl in *. f_equal.
      symmetry. clear Hhead. induction Hall as [|c cs' Hc _ IH]; [reflexivity|].
      rewrite filter_cons, decide_True by exact Hc. f_equal. exact IH.
Qed.

(** X13: [stop_and_remove_container] never raises; it returns [True]
    exactly when the daemon had a container with that id; afterwards no
    container has that id, and every other container, the images and
    the port counter are as before. *)
Theorem stop_and_remove_container_removes container_id (d : daemon) :
  let r := result_of (stop_and_remove_container container_id d) in
  let d' := state_of (stop_and_remove_container container_id d) in
  (exists b, r = Ok b /\
             (b = true <-> exists c, c ∈ containers d /\ id c = container_id)) /\
  (forall c, c ∈ containers d' <-> c ∈ containers d /\ id c ≠ container_id) /\
  images d' = images d /\ next_port d' = next_port d.
Proof.
  cbv zeta. rewrite stop_and_remove_container_effect. simpl. split; [|split].
  - eexists. split; [reflexivity|].
    rewrite bool_decide_eq_true, Exists_exists. reflexivity.
  - intros c. rewrite list_elem_of_filter. tauto.
  - auto.
Qed.

End DaemonFacts.

(** ** The periodic tasks: sweeps and clean-up *)

Module SweepFacts.

Import Nft Firewall FirewallFacts Hoare HoareFacts FirewallFrame FirewallFrameFacts.
Import TaskSpec.

(** X14: the periodic orphan sweep never cuts off a running sandbox.
    [clean_orphan_firewall_ports] returns without raising, leaves the
    database alone, and for every port of every active sandbox (the
    primary port and each [int()]-coercible value of [port_mappings])
    leaves its membership of both port sets and its map entries as they
    were -- in every state and whatever the command line does. *)
Theorem clean_orphan_firewall_ports_keeps_active (w : World) :
  let w' := state_of (Tasks.clean_orphan_firewall_ports w) in
  result_of (Tasks.clean_orphan_firewall_ports w) = Ok tt /\
  db w' = db w /\
  forall sb p,
    sb ∈ sandboxes (db w) -> Sandbox.active sb = true ->
    p ∈ Tasks.ports_of_sandbox sb ->
    (forall s, p ∈ ports_of s (nft (firewall w')) <-> p ∈ ports_of s (nft (firewall w))) /\
    (forall ip, (p, ip) ∈ map_of (nft (firewall w')) <->
                (p, ip) ∈ map_of (nft (firewall w))).
Proof.
  cbv zeta.
  pose proof (keeps_state _ _ (firewall w)
                (keeps_clean_orphan_ports (Tasks.active_ports (db w)) (firewall w))
                (same_on_refl _ _)) as Hsame.
  assert (Tasks.clean_orphan_firewall_ports w
          = (Ok tt,
             MkWorld (db w)
                     (state_of (clean_orphan_ports (Tasks.active_ports (db w)) (firewall w)))
                     (docker w) (volumes w) (locks w) (now w))) as Hrun.
  { unfold Tasks.clean_orphan_firewall_ports, try_except, bind, gets, on_firewall, zoom.
    simpl. destruct (clean_orphan_ports _ (firewall w)) as [[b|e] fs']; reflexivity. }
  rewrite Hrun. simpl. split; [reflexivity|]. split; [reflexivity|].
  intros sb p Hin Hactive Hp. apply Hsame.
  unfold Tasks.active_ports. apply elem_of_list_to_set, list_elem_of_bind.
  exists sb. split; [exact Hp|]. apply list_elem_of_filter. auto.
Qed.


Import StoreFacts VolumeFacts DaemonFacts.

Lemma cleanup_sandbox_steps sandbox_id sb (w : World) :
  Db.get_sandbox sandbox_id (db w) = Some sb ->
  Tasks.cleanup_sandbox sandbox_id w
  = (Ok tt,
     MkWorld (Db.update_sandbox (Tasks.destroyed sb (now w)) (db w))
             (state_of (remove_all_port_mappings_for_sandbox
                          (Sandbox.container_port sb) (Sandbox.port_mappings sb)
                          (firewall w)))
             (state_of (Docker.stop_and_remove_container (Sandbox.container_id sb)
                          (docker w)))
             (state_of (Utils.clean_up_volume (Sandbox.challenge_id sb) (Sandbox.user_id sb)
                          (volumes w)))
             (locks w) (now w)).
Proof.
  intros Hget.
  destruct w as [store fs dk vol lk t]. simpl in *.
  destruct (remove_all_port_mappings_total (Sandbox.container_port sb)
              (Sandbox.port_mappings sb) fs) as (ok & fs' & Hfw).
  pose proof (stop_and_remove_container_effect (Sandbox.container_id sb) dk) as Hdk.
  destruct (clean_up_volume_removes_image (Sandbox.challenge_id sb) (Sandbox.user_id sb) vol)
    as (vol' & Hvol & _).
  rewrite Hfw, Hdk, Hvol. simpl.
  unfold Tasks.cleanup_sandbox, bind at 1, gets at 1. simpl. rewrite Hget.
  unfold bind at 1, try_except at 1, bind at 1, on_firewall, zoom. simpl.
  rewrite Hfw. simpl.
  unfold bind at 1, try_except at 1, bind at 1, on_docker, zoom. simpl.
  rewrite Hdk. simpl.
  unfold bind, gets, with_db, modify, on_volumes, zoom. simpl.
  rewrite Hvol. reflexivity.
Qed.

Lemma remove_all_port_mappings_elsewhere sb (fs : FirewallService) (p : Z) :
  p ∉ Tasks.ports_of_sandbox sb ->
  let fs' := state_of (remove_all_port_mappings_for_sandbox
                         (Sandbox.container_port sb) (Sandbox.port_mappings sb) fs) in
  (forall s, p ∈ ports_of s (nft fs') <-> p ∈ ports_of s (nft fs)) /\
  (forall ip, (p, ip) ∈ map_of (nft fs') <-> (p, ip) ∈ map_of (nft fs)).
Proof.
  intros Hp fs'.
  assert (same_on {[p]} fs fs') as Hsame.
  { apply keeps_state; [|apply same_on_refl].
    apply keeps_remove_all_port_mappings. intros q Hq Hin.
    apply elem_of_singleton in Hin. subst q. apply Hp.
    apply elem_of_collect_ports in Hq as [Hq|Hq].
    - apply list_elem_of_singleton in Hq. subst p. apply list_elem_of_here.
    - apply list_elem_of_further. exact Hq. }
  apply (Hsame p). apply elem_of_singleton. reflexivity.
Qed.


End SweepFacts.

(** ** The periodic tasks: expired sessions *)

Module ExpiryFacts.

Lemma elem_of_cons_decide (x y : Z) (l : list Z) {B} (a b : B) :
  (if decide (x ∈ y :: l) then a else b)
  = if decide (x = y) then a else if decide (x ∈ l) then a else b.
Proof.
  destruct (decide (x = y)) as [->|Hne].
  - rewrite decide_True by apply list_elem_of_here. reflexivity.
  - destruct (decide (x ∈ l)) as [Hin|Hout].
    + rewrite decide_True by (apply list_elem_of_further, Hin). reflexivity.
    + rewrite decide_False; [reflexivity|].
      intros Hin. apply elem_of_cons in Hin as [Hin|Hin]; contradiction.
Qed.

Import Nft Firewall FirewallFacts Hoare HoareFacts FirewallFrame FirewallFrameFacts.
Import TaskSpec.

Lemma close_all_tables l : forall db,
  challenges (close_all l db) = challenges db /\
  submissions (close_all l db) = submissions db /\
  sandboxes (close_all l db) = sandboxes db /\
  users (close_all l db) = users db.
Proof.
  induction l as [|s l IH]; intros db; [auto|].
  simpl. destruct (IH (Db.deactivate_session (UserSession.id s) db)) as (-> & -> & -> & ->).
  auto.
Qed.

Lemma close_all_sessions l : forall db,
  sessions (close_all l db)
  = (fun r => if decide (UserSession.id r ∈ UserSession.id <$> l)
              then Db.deactivated r else r) <$> sessions db.
Proof.
  induction l as [|s l IH]; intros db.
  - simpl. rewrite <- (list_fmap_id (sessions db)) at 1. apply list_fmap_ext.
    intros i r _. reflexivity.
  - change (close_all (s :: l) db)
      with (close_all l (Db.deactivate_session (UserSession.id s) db)).
    rewrite IH. unfold Db.deactivate_session, Db.with_sessions. cbn [sessions].
    rewrite <- list_fmap_compose. apply list_fmap_ext. intros i r _.
    unfold compose. cbv beta. rewrite fmap_cons, elem_of_cons_decide.
    destruct (decide (UserSession.id r = UserSession.id s)) as [Heq|Hne];
      cbn [UserSession.id Db.deactivated];
      destruct (decide (UserSession.id r ∈ UserSession.id <$> l)); reflexivity.
Qed.

Lemma challenges_present_same db db' :
  challenges db' = challenges db -> sandboxes db' = sandboxes db ->
  challenges_present db -> challenges_present db'.
Proof.
  intros Hc Hs H sb Hin. unfold Db.get_challenge. rewrite Hc.
  apply H. rewrite <- Hs. exact Hin.
Qed.

(** The body of the loop over the sandboxes of one session. *)
Lemma revoke_sandbox_rules d0 (sb : Sandbox.t) :
  is_Some (Db.get_challenge (Sandbox.challenge_id sb) d0) ->
  triple (fun w => db w = d0)
    (challenge <- gets (fun w => Db.get_challenge (Sandbox.challenge_id sb) (db w)) ;;
     match challenge with
     | None => raise DoesNotExist
     | Some c =>
         if Challenge.static c then ret tt
         else
           on_firewall (remove_all_port_mappings_for_sandbox
                          (Sandbox.container_port sb) (Sandbox.port_mappings sb)) ;;;
           ret tt
     end)
    (fun _ w => db w = d0) (fun _ => False).
Proof.
  intros [c Hc] w Hw. unfold bind at 1, gets at 1. rewrite Hw, Hc.
  destruct (Challenge.static c); [exact Hw|].
  unfold bind, on_firewall, zoom.
  destruct (remove_all_port_mappings_total (Sandbox.container_port sb)
              (Sandbox.port_mappings sb) (firewall w)) as (b & fs' & ->).
  exact Hw.
Qed.

Lemma triple_for_each_ok {S A} (I : S -> Prop) (l : list A) (body : A -> M S unit) :
  (forall x, x ∈ l -> triple I (body x) (fun _ => I) (fun _ => False)) ->
  triple I (for_each l body) (fun _ => I) (fun _ => False).
Proof.
  induction l as [|x l IH]; intros Hbody; simpl.
  - apply triple_ret. auto.
  - eapply triple_bind.
    + apply Hbody. apply list_elem_of_here.
    + intros u. apply IH. intros y Hy. apply Hbody. apply list_elem_of_further, Hy.
Qed.


Lemma challenges_present_deactivate id d :
  challenges_present d -> challenges_present (Db.deactivate_session id d).
Proof. apply challenges_present_same; reflexivity. Qed.

Lemma expired_loop (l : list UserSession.t) : forall d0,
  challenges_present d0 ->
  triple (fun w => db w = d0)
    (for_each l
       (fun session =>
          try_except
            (active_sandboxes <- gets (fun w =>
               Db.active_sandboxes_of (UserSession.user_id session) (db w)) ;;
             for_each active_sandboxes
               (fun sandbox =>
                  challenge <- gets (fun w =>
                    Db.get_challenge (Sandbox.challenge_id sandbox) (db w)) ;;
                  match challenge with
                  | None => raise DoesNotExist
                  | Some c =>
                      if Challenge.static c then ret tt
                      else
                        on_firewall (remove_all_port_mappings_for_sandbox
                                       (Sandbox.container_port sandbox)
                                       (Sandbox.port_mappings sandbox)) ;;;
                        ret tt
                  end) ;;;
             with_db (Db.deactivate_session (UserSession.id session)))
            (fun _ => ret tt)))
    (fun _ w => db w = close_all l d0) (fun _ => False).
Proof.
  induction l as [|session l IH]; intros d0 Hpresent.
  - apply triple_ret. auto.
  - simpl for_each.
    eapply triple_bind
      with (Q := fun _ w => db w = Db.deactivate_session (UserSession.id session) d0).
    + eapply triple_try_except with (E := fun _ => False); [|intros e w []].
      eapply triple_bind with (Q := fun l' w => db w = d0 /\
        l' = Db.active_sandboxes_of (UserSession.user_id session) d0).
      { apply triple_gets. intros w Hw. rewrite Hw. auto. }
      intros l'.
      eapply triple_bind with (Q := fun _ w => db w = d0).
      { intros w [Hw ->].
        apply (triple_for_each_ok (fun w => db w = d0)); [|exact Hw].
        intros sb Hsb. apply revoke_sandbox_rules. apply Hpresent.
        apply list_elem_of_filter in Hsb. tauto. }
      intros u w Hw. unfold with_db, modify. simpl. rewrite Hw. reflexivity.
    + intros u. apply IH. apply challenges_present_deactivate, Hpresent.
Qed.

Lemma cleanup_expired_sessions_run (w : World) :
  challenges_present (db w) ->
  exists w', Tasks.cleanup_expired_sessions w = (Ok tt, w') /\
             db w' = close_all (expired_sessions (now w) (db w)) (db w).
Proof.
  intros Hpresent.
  pose proof (expired_loop (expired_sessions (now w) (db w)) (db w) Hpresent w eq_refl)
    as Hloop.
  unfold Tasks.cleanup_expired_sessions, bind at 1, gets at 1.
  unfold bind at 1, gets at 1. fold (expired_sessions (now w) (db w)).
  destruct (for_each _ _ w) as [[[]|e] w']; [eauto | contradiction].
Qed.

(** X16: expired sessions are closed, the others are left alone.  When
    every sandbox row has its challenge row, [cleanup_expired_sessions]
    returns without raising; afterwards no session that is still active
    has an expiry time at or before the time of the run; the sessions
    are the old ones, each closed exactly if it shares its key with an
    expired active session; and challenges, submissions, sandboxes and
    users are as before.  With distinct session keys, a session that
    was not due is found unchanged. *)
Theorem cleanup_expired_sessions_closes (w : World) :
  challenges_present (db w) ->
  let w' := state_of (Tasks.cleanup_expired_sessions w) in
  let due := expired_sessions (now w) (db w) in
  result_of (Tasks.cleanup_expired_sessions w) = Ok tt /\
  (forall s, s ∈ sessions (db w') -> UserSession.active s = true ->
             now w < UserSession.expires_at s) /\
  sessions (db w')
  = (fun r => if decide (UserSession.id r ∈ UserSession.id <$> due)
              then Db.deactivated r else r) <$> sessions (db w) /\
  challenges (db w') = challenges (db w) /\
  submissions (db w') = submissions (db w) /\
  sandboxes (db w') = sandboxes (db w) /\
  users (db w') = users (db w) /\
  (NoDup (UserSession.id <$> sessions (db w)) ->
   forall s, s ∈ sessions (db w) -> ~ expired (now w) s -> s ∈ sessions (db w')).
Proof.
  intros Hpresent. cbv zeta.
  destruct (cleanup_expired_sessions_run w Hpresent) as (w' & Hrun & Hdb).
  rewrite Hrun. cbn [result_of state_of fst snd]. rewrite Hdb.
  destruct (close_all_tables (expired_sessions (now w) (db w)) (db w))
    as (Hc & Hsub & Hsb & Hu).
  rewrite close_all_sessions, Hc, Hsub, Hsb, Hu.
  split; [reflexivity|]. split; [|split; [reflexivity|]].
  - intros s Hin Hactive. apply list_elem_of_fmap in Hin as (r & -> & Hr).
    destruct (decide _) as [Hdue|Hnot]; [discriminate Hactive|].
    destruct (Z_lt_le_dec (now w) (UserSession.expires_at r)) as [Hlt|Hle];
      [exact Hlt|].
    exfalso. apply Hnot. apply list_elem_of_fmap. exists r. split; [reflexivity|].
    apply list_elem_of_filter. auto.
  - do 4 (split; [reflexivity|]).
    intros Hnodup s Hin Hnot. apply list_elem_of_fmap. exists s. split; [|exact Hin].
    rewrite decide_False; [reflexivity|].
    intros Hdue. apply list_elem_of_fmap in Hdue as (r & Hid & Hr).
    apply list_elem_of_filter in Hr as [Hexp Hr].
    assert (s = r) as ->; [|exact (Hnot Hexp)].
    clear -Hnodup Hin Hr Hid.
    induction (sessions (db w)) as [|x l IH]; [inversion Hin|].
    rewrite fmap_cons in Hnodup. apply NoDup_cons in Hnodup as [Hx Hl].
    apply elem_of_cons in Hin as [->|Hin]; apply elem_of_cons in Hr as [->|Hr];
      try reflexivity.
    + exfalso. apply Hx. rewrite Hid. apply list_elem_of_fmap. eauto.
    + exfalso. apply Hx. rewrite <- Hid. apply list_elem_of_fmap. eauto.
    + apply IH; assumption.
Qed.

Lemma cleanup_expired_sessions_closes_witness :
  let w := MkWorld Scenario.store Scenario.packet_filter Scenario.daemon Scenario.disk
                   ∅ 100000 in
  result_of (Tasks.cleanup_expired_sessions w) = Ok tt /\
  (forall s, s ∈ sessions (db (state_of (Tasks.cleanup_expired_sessions w))) ->
             UserSession.active s = true -> 100000 < UserSession.expires_at s).
Proof.
  intros w.
  destruct (cleanup_expired_sessions_closes w) as (Hres & Hclosed & _).
  - intros sb Hin. apply list_elem_of_singleton in Hin. subst sb.
    eexists. reflexivity.
  - split; [exact Hres | exact Hclosed].
Defined.

End ExpiryFacts.

(** ** Login, client addresses and the middleware *)

Module AccessFacts.

Import Http Views SessionSpec.

(** X17: the two [get_client_ip] functions.  The one of the views and
    the one of the firewall service return the same address -- the
    first token of [X-Forwarded-For] when it is not blank, else
    [X-Real-IP] when present, else the peer address -- except when no
    such header decides and [REMOTE_ADDR] is present but empty: then
    the views return the empty string and the service returns
    0.0.0.0. *)
Theorem get_client_ip_agree (r : request) :
  (forall ip, forwarded_ip r = Some ip ->
     get_client_ip r = ip /\ service_get_client_ip r = ip) /\
  (forwarded_ip r = None ->
   (lookup "REMOTE_ADDR" (META r) ≠ "" ->
    get_client_ip r = lookup "REMOTE_ADDR" (META r) /\
    service_get_client_ip r = lookup "REMOTE_ADDR" (META r)) /\
   (lookup "REMOTE_ADDR" (META r) = "" ->
    service_get_client_ip r = "0.0.0.0" /\
    (get_client_ip r = "0.0.0.0" \/ get_client_ip r = ""))).
Proof.
  unfold get_client_ip, service_get_client_ip, lookup, nonempty. split.
  - intros ip ->. auto.
  - intros ->. split.
    + intros Hne.
      destruct (head (filter _ (META r))) as [[k v]|]; simpl in *; [|contradiction].
      destruct (String.eqb_spec v ""); [contradiction | auto].
    + intros He.
      destruct (head (filter _ (META r))) as [[k v]|]; simpl in *; [subst v|]; auto.
Qed.

Lemma get_client_ip_agree_witness :
  get_client_ip Scenario.roaming_request = "10.0.0.2" /\
  service_get_client_ip Scenario.roaming_request = "10.0.0.2".
Proof.
  destruct (get_client_ip_agree Scenario.roaming_request) as [Hforwarded _].
  apply Hforwarded. reflexivity.
Defined.

(** The store after an accepted login, whatever the firewall does. *)
Lemma login_view_store (r : request) (u : User.t) (w : World) :
  accepted r u (db w) ->
  exists fs',
    login_view r w
    = (Ok (Redirect "home" "Login successful."),
       MkWorld (Db.insert_session (User.id u) (get_client_ip r) (now w + 86400)
                  (Db.deactivate_sessions_of (User.id u) (db w)))
               fs' (docker w) (volumes w) (locks w) (now w)).
Proof.
  intros (Hanon & Hpost & Hname & Hpass & Hname_ne & Hpass_ne & Hget & Hver & Hban).
  unfold login_view. rewrite Hanon, Hpost. simpl. rewrite Hname, Hpass.
  assert (nonempty (User.username u) = true) as ->.
  { unfold nonempty. destruct (String.eqb_spec (User.username u) "");
      [contradiction | reflexivity]. }
  assert (nonempty (User.password u) = true) as ->.
  { unfold nonempty. destruct (String.eqb_spec (User.password u) "");
      [contradiction | reflexivity]. }
  simpl. unfold bind at 1, gets at 1. rewrite Hget.
  rewrite String.eqb_refl, Hver, Hban. simpl.
  unfold bind at 1, gets at 1. unfold bind at 1, gets at 1.
  unfold bind at 1, with_db at 1, modify at 1. simpl.
  unfold bind at 1, try_except, bind at 1, gets at 1, on_firewall, zoom. simpl.
  destruct (hand_over _ _ _ (firewall w)) as [[[]|e] fs']; simpl; eauto.
Qed.


Lemma login_view_cases (r : request) (w : World) :
  exists resp w',
    login_view r w = (Ok resp, w') /\
    match resp with
    | Render _ _ => w' = w /\ user r = None
    | Redirect t m =>
        t = "home" /\
        ((user r ≠ None /\ m = "" /\ w' = w) \/
         (user r = None /\ m = "Login successful."))
    end.
Proof.
  unfold login_view.
  destruct (user r) as [u0|].
  { do 2 eexists. split; [reflexivity|]. split; [reflexivity|]. left.
    split; [discriminate | auto]. }
  destruct (negb (String.eqb (method r) "POST")).
  { do 2 eexists. split; [reflexivity|]. simpl. auto. }
  destruct (negb (nonempty (Py.strip (lookup "username" (POST r)))) ||
            negb (nonempty (lookup "password" (POST r)))).
  { do 2 eexists. split; [reflexivity|]. simpl. auto. }
  unfold bind at 1, gets at 1.
  destruct (Db.get_user_by_username _ (db w)) as [u|].
  2:{ do 2 eexists. split; [reflexivity|]. simpl. auto. }
  destruct (negb (String.eqb (User.password u) (lookup "password" (POST r)))).
  { do 2 eexists. split; [reflexivity|]. simpl. auto. }
  destruct (negb (User.verified u)).
  { do 2 eexists. split; [reflexivity|]. simpl. auto. }
  destruct (User.banned u).
  { do 2 eexists. split; [reflexivity|]. simpl. auto. }
  unfold bind, gets, with_db, modify, try_except, on_firewall, zoom. simpl.
  destruct (hand_over _ _ _ (firewall w)) as [[[]|e] fs']; simpl;
    do 2 eexists; (split; [reflexivity|]); split; auto.
Qed.



Import Middleware.

Lemma process_request_cases (r : request) (w : World) :
  exists r' resp w',
    process_request r w = (Ok (r', resp), w') /\
    match resp with
    | None => w' = w
    | Some (Redirect "home" _) =>
        db w' = db w /\ firewall w' = firewall w /\
        exists u, user r = Some u /\ User.banned u = true
    | Some _ =>
        exists u, user r = Some u /\ User.banned u = false /\ User.is_admin u = false /\
                  Db.active_sessions_at (User.id u) (service_get_client_ip r) (db w) = []
    end.
Proof.
  unfold process_request.
  destruct (user r) as [u|] eqn:Huser.
  2:{ do 3 eexists. split; [reflexivity|]. reflexivity. }
  destruct (User.banned u) eqn:Hban.
  { unfold bind, try_except, on_locks, zoom, Utils.release_lock, modify. simpl.
    do 3 eexists. split; [reflexivity|]. simpl. eauto. }
  destruct (negb (User.is_admin u) && negb (_ip_session_checked r)) eqn:Hcheck.
  2:{ do 3 eexists. split; [reflexivity|]. reflexivity. }
  apply andb_prop in Hcheck as [Hadmin _]. apply negb_true_iff in Hadmin.
  unfold bind at 1, gets at 1.
  destruct (bool_decide (Db.active_sessions_at (User.id u) (service_get_client_ip r)
                           (db w) ≠ [])) eqn:Hdec.
  { do 3 eexists. split; [reflexivity|]. reflexivity. }
  apply bool_decide_eq_false in Hdec. rename Hdec into Hsess.
  assert (Db.active_sessions_at (User.id u) (service_get_client_ip r) (db w) = [])
    as Hnone.
  { destruct (Db.active_sessions_at _ _ _) as [|s0 l0]; [reflexivity|].
    exfalso. apply Hsess. discriminate. }
  unfold bind at 1, gets at 1.
  destruct (head (Db.active_sessions_of (User.id u) (db w))) as [session|].
  - unfold try_except, bind, gets, with_db, modify, on_firewall, zoom. simpl.
    destruct (revoke _ _ (firewall w)) as [[[]|e'] fs']; simpl;
      do 3 eexists; (split; [reflexivity|]); simpl; eauto 10.
  - unfold bind, ret. do 3 eexists. split; [reflexivity|]. simpl. eauto 10.
Qed.

(** X19: what the middleware lets through.  [process_request] never
    raises.  A request it lets through has changed nothing; it lets
    through every anonymous request, every request of an admin who is
    not banned, and every request of a user who has an active session
    at the address the request comes from.  A banned user is sent to
    the home page with database and firewall untouched. *)
Theorem process_request_lets_through (r : request) (w : World) :
  let res := result_of (process_request r w) in
  let w' := state_of (process_request r w) in
  (exists r' resp, res = Ok (r', resp)) /\
  (forall r', res = Ok (r', None) -> w' = w) /\
  (user r = None -> res = Ok (r, None)) /\
  (forall u, user r = Some u -> User.banned u = false ->
     User.is_admin u = true \/
     Db.active_sessions_at (User.id u) (service_get_client_ip r) (db w) ≠ [] ->
     exists r', res = Ok (r', None)) /\
  (forall u, user r = Some u -> User.banned u = true ->
     (exists r', res = Ok (r', Some (Redirect "home" "Your account has been banned."))) /\
     db w' = db w /\ firewall w' = firewall w).
Proof.
  cbv zeta. destruct (process_request_cases r w) as (r' & resp & w' & Hrun & Hcases).
  rewrite Hrun. cbn [result_of state_of fst snd].
  split; [eauto|]. split; [|split; [|split]].
  - intros r'' Heq. injection Heq as -> ->. exact Hcases.
  - intros Huser. unfold process_request in Hrun. rewrite Huser in Hrun.
    injection Hrun as <- <- <-. reflexivity.
  - intros u Huser Hban Hok. unfold process_request in Hrun.
    rewrite Huser, Hban in Hrun.
    destruct Hok as [Hadmin|Hsession].
    + rewrite Hadmin in Hrun. simpl in Hrun. injection Hrun as <- <- <-. eauto.
    + destruct (negb (User.is_admin u) && negb (_ip_session_checked r)).
      * unfold bind, gets in Hrun. rewrite bool_decide_eq_true_2 in Hrun by exact Hsession.
        simpl in Hrun. injection Hrun as <- <- <-. eauto.
      * injection Hrun as <- <- <-. eauto.
  - intros u Huser Hban. unfold process_request in Hrun. rewrite Huser, Hban in Hrun.
    unfold bind, try_except, on_locks, zoom, Utils.release_lock, modify in Hrun.
    simpl in Hrun. injection Hrun as <- <- <-. simpl. eauto.
Qed.



End AccessFacts.

(** ** Logging out *)

Module LogoutFacts.

Import Http Views SessionSpec AuthViews Nft Firewall HandOverFacts.

Lemma logout_view_run (r : request) (u : User.t) (session : UserSession.t) (w : World) :
  head (Db.active_sessions_at (User.id u) (get_client_ip r) (db w)) = Some session ->
  exists fs',
    logout_view r u w
    = (Ok (Redirect "home" ""),
       MkWorld (Db.deactivate_session (UserSession.id session) (db w)) fs'
               (docker w) (volumes w) (locks w) (now w)) /\
    (usable (firewall w) -> faults (nft (firewall w)) = [] ->
     map_of (nft fs')
     = map_of (nft (firewall w))
       ∖ rule_keys (get_client_ip r) (active_sandboxes (User.id u) (db w))).
Proof.
  intros Hsession. unfold logout_view, bind at 1, gets at 1. rewrite Hsession.
  unfold bind at 1, bind at 1, try_except, bind at 1, on_firewall at 1, zoom at 1.
  destruct (initialize_firewall (firewall w)) as [[b|e] fs1] eqn:Hinit.
  - unfold bind at 1, gets at 1. cbn [db firewall].
    unfold on_firewall, zoom. cbn [firewall].
    destruct (for_each _ _ fs1) as [[[]|e] fs2] eqn:Hloop;
      unfold with_db, modify, ret; cbn;
      (eexists; split; [reflexivity|]); intros Husable Hf.
    + destruct (initialize_firewall_ready (firewall w) Husable Hf)
        as (fs1' & Hinit' & Hready & Hmap).
      rewrite Hinit in Hinit'. injection Hinit' as _ <-.
      destruct (revoke_loop_ready (get_client_ip r)
                  (active_sandboxes (User.id u) (db w)) fs1 Hready)
        as (fs2' & Hloop' & _ & Hmap2).
      rewrite Hloop in Hloop'. injection Hloop' as <-.
      rewrite Hmap2, Hmap. reflexivity.
    + destruct (initialize_firewall_ready (firewall w) Husable Hf)
        as (fs1' & Hinit' & Hready & Hmap).
      rewrite Hinit in Hinit'. injection Hinit' as _ <-.
      destruct (revoke_loop_ready (get_client_ip r)
                  (active_sandboxes (User.id u) (db w)) fs1 Hready)
        as (fs2' & Hloop' & _).
      rewrite Hloop in Hloop'. discriminate.
  - unfold with_db, modify, ret. cbn.
    eexists. split; [reflexivity|]. intros Husable Hf.
    destruct (initialize_firewall_ready (firewall w) Husable Hf) as (fs1' & Hinit' & _).
    rewrite Hinit in Hinit'. discriminate.
Qed.



End LogoutFacts.

(** ** The flag form *)

Module ChallengeViewFacts.

Import Http ChallengeViews SubmissionFacts.

Lemma rstrip_idem s : Py.rstrip (Py.rstrip s) = Py.rstrip s.
Proof.
  induction s as [|a rest IH]; [reflexivity|]. simpl.
  destruct (Py.rstrip rest) as [|b r'] eqn:Hr.
  - destruct (Py.is_space a) eqn:Ha; [reflexivity|]. simpl. rewrite Ha. reflexivity.
  - simpl. simpl in IH. destruct (Py.rstrip r') as [|c r''] eqn:Hr'.
    + destruct (Py.is_space b) eqn:Hb; [discriminate IH|].
      injection IH as <-. reflexivity.
    + rewrite IH. reflexivity.
Qed.

Lemma lstrip_rstrip_head a rest :
  Py.is_space a = false ->
  Py.lstrip (Py.rstrip (String a rest)) = Py.rstrip (String a rest).
Proof.
  intros Ha. simpl. destruct (Py.rstrip rest); rewrite ?Ha; simpl; rewrite Ha; reflexivity.
Qed.

Lemma lstrip_head s :
  match Py.lstrip s with
  | EmptyString => True
  | String a _ => Py.is_space a = false
  end.
Proof.
  induction s as [|a rest IH]; [exact I|]. simpl.
  destruct (Py.is_space a) eqn:Ha; [exact IH | exact Ha].
Qed.

(** [s.strip().strip()] is [s.strip()]. *)
Lemma strip_idem s : Py.strip (Py.strip s) = Py.strip s.
Proof.
  unfold Py.strip. pose proof (lstrip_head s) as Hhead.
  destruct (Py.lstrip s) as [|a rest]; [reflexivity|].
  rewrite (lstrip_rstrip_head a rest Hhead). apply rstrip_idem.
Qed.


Lemma service_submit_flag_strip user_id challenge_id flag (w : World) :
  ChallengeService.submit_flag user_id challenge_id (Py.strip flag) w
  = ChallengeService.submit_flag user_id challenge_id flag w.
Proof. unfold ChallengeService.submit_flag. rewrite strip_idem. reflexivity. Qed.



End ChallengeViewFacts.

(** ** The address of a sandbox *)

Module UrlFacts.

Import ChallengeViews UrlSpec.

Lemma digits_to_end_all s : forall seen,
  all_digits s = true -> digits_to_end seen s = seen || negb (String.eqb s "").
Proof.
  induction s as [|a rest IH]; intros seen H; simpl in *.
  - rewrite orb_false_r. reflexivity.
  - apply andb_prop in H as [Ha Hrest]. rewrite Ha, (IH true Hrest).
    rewrite orb_true_r. reflexivity.
Qed.

Lemma keep_newline_digits s : all_digits s = true -> keep_newline s = "".
Proof.
  induction s as [|a rest IH]; intros H; simpl in *; [reflexivity|].
  apply andb_prop in H as [Ha Hrest].
  destruct (Ascii.eqb_spec a "010"%char) as [->|_]; [discriminate Ha | exact (IH Hrest)].
Qed.

Lemma digits_to_end_colon x y : forall seen,
  digits_to_end seen (x +:+ String ":" y) = false.
Proof.
  induction x as [|a rest IH]; intros seen; simpl.
  - rewrite andb_false_r. reflexivity.
  - destruct (is_digit a); [apply IH|].
    destruct rest; simpl; rewrite andb_false_r; reflexivity.
Qed.

Lemma digits_to_end_plain s : forall seen,
  plain s = true -> digits_to_end seen s = (seen || negb (String.eqb s "")) && all_digits s.
Proof.
  induction s as [|a rest IH]; intros seen H; simpl in *.
  - rewrite orb_false_r, andb_true_r. reflexivity.
  - apply andb_prop in H as [Ha Hrest]. apply andb_prop in Ha as [_ Hnl].
    destruct (is_digit a); simpl.
    + rewrite (IH true Hrest). simpl. rewrite orb_true_r. reflexivity.
    + apply negb_true_iff in Hnl. rewrite Hnl, andb_false_r. simpl.
      rewrite andb_false_r. reflexivity.
Qed.

Lemma sub_port_suffix replacement digits : forall host,
  port_text digits = true ->
  sub_port replacement (host +:+ String ":" digits) = host +:+ replacement.
Proof.
  intros host Hd. apply andb_prop in Hd as [Hall Hne].
  induction host as [|a rest IH]; simpl.
  - rewrite (digits_to_end_all digits false Hall), Hne. simpl.
    rewrite (keep_newline_digits digits Hall).
    change ("" +:+ replacement) with replacement.
    clear. induction replacement as [|c r IHr]; [reflexivity|].
    change (String c (r +:+ "") = String c r). f_equal. exact IHr.
  - change (String a rest +:+ replacement) with (String a (rest +:+ replacement)).
    rewrite digits_to_end_colon, andb_false_r. f_equal. exact IH.
Qed.

Lemma sub_port_plain replacement s :
  plain s = true -> sub_port replacement s = s.
Proof.
  induction s as [|a rest IH]; intros H; simpl in *; [reflexivity|].
  apply andb_prop in H as [Ha Hrest]. apply andb_prop in Ha as [Hcolon _].
  apply negb_true_iff in Hcolon. rewrite Hcolon. simpl. f_equal. exact (IH Hrest).
Qed.

(** X23: the address a player is sent to.  When the configured server
    name ends in a colon and a port number, [_generate_sandbox_url]
    replaces that port by the sandbox's primary port and keeps what is
    before it; when the server name has no colon at all, the address is
    the server name itself and the port of the sandbox does not appear
    in it. *)
Theorem generate_sandbox_url_port (host digits : string) (sandbox : Sandbox.t) :
  (port_text digits = true ->
   _generate_sandbox_url (host +:+ String ":" digits) sandbox
   = "http://" +:+ host +:+ ":" +:+ pretty (Sandbox.container_port sandbox)) /\
  (plain host = true ->
   _generate_sandbox_url host sandbox = "http://" +:+ host).
Proof.
  unfold _generate_sandbox_url. split.
  - intros Hd. rewrite (sub_port_suffix _ digits host Hd). reflexivity.
  - intros Hp. rewrite (sub_port_plain _ host Hp). reflexivity.
Qed.

Lemma generate_sandbox_url_port_witness :
  _generate_sandbox_url "localhost:8080" Scenario.alice_sandbox = "http://localhost:32768" /\
  _generate_sandbox_url "ctf.example.org" Scenario.alice_sandbox = "http://ctf.example.org".
Proof.
  destruct (generate_sandbox_url_port "localhost" "8080" Scenario.alice_sandbox)
    as [Hport _].
  destruct (generate_sandbox_url_port "ctf.example.org" "" Scenario.alice_sandbox)
    as [_ Hplain].
  split; [apply Hport | apply Hplain]; reflexivity.
Defined.

End UrlFacts.

(** ** Starting a challenge *)

Module StartFacts.

Import Http ChallengeViews ChallengeService StoreFacts.
Import Concurrent Frame FrameFacts ConcurrentFacts.

(** However [get_or_create_sandbox] ends, and whether its lock is free
    or taken: a sandbox it returns is the first active row of its key
    afterwards, and in every other case the database is as before. *)
Lemma get_or_create_sandbox_outcome challenge user_id who lock_name (w : World) :
  sandbox_key challenge user_id = Some (who, lock_name) ->
  match get_or_create_sandbox challenge user_id w with
  | (Ok (Some sb), w') =>
      head (Db.active_sandboxes_for (Challenge.id challenge) who (db w')) = Some sb
  | (Ok None, w') => db w' = db w
  | (Raise _, w') => db w' = db w
  end.
Proof.
  intros Hkey.
  destruct (head (rows challenge user_id w)) as [sb|] eqn:Hhead.
  { unfold get_or_create_sandbox. rewrite Hkey.
    unfold bind at 1. rewrite (find_sandbox_rows challenge user_id who lock_name Hkey).
    rewrite Hhead. cbn [ret].
    rewrite <- (rows_key challenge user_id who lock_name Hkey). exact Hhead. }
  destruct (decide (lock_name ∈ locks w)) as [Hheld|Hfree].
  { unfold get_or_create_sandbox. rewrite Hkey.
    unfold bind at 1. rewrite (find_sandbox_rows challenge user_id who lock_name Hkey).
    rewrite Hhead.
    unfold bind, on_locks, zoom, Utils.acquire_lock, Utils.setnx, bind, gets, ret.
    rewrite bool_decide_eq_true_2 by exact Hheld. reflexivity. }
  rewrite (ServiceFacts.get_or_create_sandbox_provisions challenge user_id who lock_name w
             Hkey Hfree Hhead).
  set (w1 := MkWorld (db w) (firewall w) (docker w) (volumes w)
                     ({[lock_name]} ∪ locks w) (now w)).
  pose proof (create_sandbox_creates challenge user_id w1) as Hcreate.
  destruct (_create_sandbox challenge user_id w1) as [[sb|e] w2].
  - destruct (rows_inserted challenge user_id who lock_name Hkey w1 sb w2 Hcreate)
      as [Hrows _].
    rewrite (rows_db challenge user_id who lock_name Hkey w w1 eq_refl) in Hrows.
    rewrite (head_none _ Hhead) in Hrows.
    rewrite (rows_key challenge user_id who lock_name Hkey) in Hrows.
    cbn [db]. rewrite Hrows. reflexivity.
  - destruct Hcreate as [Hdb _]. exact Hdb.
Qed.

(** The waiting loop changes the clock only, and a row it returns is
    the first active row of the request. *)
Lemma poll_outcome retries challenge (u : User.t) : forall w : World,
  exists found w',
    poll retries challenge u w = (Ok found, w') /\
    db w' = db w /\
    forall sb, found = Some sb ->
      head (Db.active_sandboxes_for (Challenge.id challenge)
              (if Challenge.static challenge then None else Some (User.id u)) (db w'))
      = Some sb.
Proof.
  induction retries as [|k IH]; intros w.
  - exists None, w. split; [reflexivity|]. split; [reflexivity | discriminate].
  - set (w1 := MkWorld (db w) (firewall w) (docker w) (volumes w) (locks w) (now w + 6)).
    destruct (head (Db.active_sandboxes_for (Challenge.id challenge)
                (if Challenge.static challenge then None else Some (User.id u)) (db w)))
      as [sb|] eqn:Hhead.
    + exists (Some sb), w1. split.
      * cbn [poll]. unfold bind, sleep, modify, gets. fold w1.
        change (db w1) with (db w). rewrite Hhead. reflexivity.
      * split; [reflexivity|]. intros sb' Hsb.
        change (db w1) with (db w). rewrite Hhead. exact Hsb.
    + destruct (IH w1) as (found & w' & Hrun & Hdb & Hfound).
      exists found, w'. split.
      * cbn [poll]. unfold bind at 1 2, sleep, modify, gets. fold w1.
        change (db w1) with (db w). rewrite Hhead. exact Hrun.
      * split; [exact Hdb | exact Hfound].
Qed.

Lemma start_challenge_key challenge (u : User.t) :
  let user_id := if Challenge.static challenge then None else Some (User.id u) in
  sandbox_key challenge user_id = None \/
  exists lock_name, sandbox_key challenge user_id = Some (user_id, lock_name).
Proof.
  unfold sandbox_key. destruct (Challenge.static challenge); [right; eauto|].
  destruct (Db.truthy (Some (User.id u))); [right; eauto | left; reflexivity].
Qed.

Lemma check_user_solved_challenge_run (user_id challenge_id : Z) (w : World) :
  check_user_solved_challenge (Some user_id) challenge_id w
  = (Ok (Db.truthy (Some user_id) && Db.solved user_id challenge_id (db w)), w).
Proof.
  unfold check_user_solved_challenge.
  destruct (Db.truthy (Some user_id)); reflexivity.
Qed.


End StartFacts.

(** ** Scheduled clean-ups *)

Module SchedulingFacts.

Import Scheduling SchedulingSpec StoreFacts SweepFacts.

Lemma get_sandbox_None id db r :
  Db.get_sandbox id db = None -> r ∈ sandboxes db -> Sandbox.id r ≠ id.
Proof.
  unfold Db.get_sandbox. intros Hnone Hin Hid.
  apply head_None in Hnone.
  assert (r ∈ filter (fun s => Sandbox.id s = id) (sandboxes db)) as Hr
    by (apply list_elem_of_filter; auto).
  rewrite Hnone in Hr. apply elem_of_nil in Hr. exact Hr.
Qed.

Lemma cleanup_sandbox_swept id (w : World) :
  exists w', Tasks.cleanup_sandbox id w = (Ok tt, w') /\ swept [id] w w'.
Proof.
  destruct (Db.get_sandbox id (db w)) as [sb|] eqn:Hget.
  - eexists. split; [apply (cleanup_sandbox_steps id sb w Hget)|].
    pose proof (get_sandbox_id _ _ _ Hget) as Hid.
    unfold swept. cbn [db now Db.update_sandbox challenges submissions users sessions
                         sandboxes].
    do 5 (split; [reflexivity|]).
    assert (Sandbox.id (Tasks.destroyed sb (now w)) = id) as Hd by exact Hid.
    rewrite Hd. split.
    + intros r Hin Hactive. apply list_elem_of_fmap in Hin as (r0 & -> & Hin0).
      destruct (decide (Sandbox.id r0 = id)) as [E|E]; [discriminate Hactive|].
      split; [exact Hin0|]. intros Hin. apply list_elem_of_singleton in Hin. contradiction.
    + intros r Hr.
      assert (Sandbox.id r ≠ id) as Hne.
      { intros E. apply Hr. rewrite E. apply list_elem_of_here. }
      split.
      * intros Hin. apply list_elem_of_fmap in Hin as (r0 & -> & Hin0).
        destruct (decide (Sandbox.id r0 = id)) as [E|E]; [contradiction | exact Hin0].
      * intros Hin. apply list_elem_of_fmap. exists r.
        rewrite decide_False by exact Hne. auto.
  - exists w. split.
    + unfold Tasks.cleanup_sandbox, bind, gets. rewrite Hget. reflexivity.
    + unfold swept. do 5 (split; [reflexivity|]). split; [|tauto].
      intros r Hin _. split; [exact Hin|].
      intros Hid. apply list_elem_of_singleton in Hid.
      exact (get_sandbox_None id (db w) r Hget Hin Hid).
Qed.

Lemma swept_nil w : swept [] w w.
Proof.
  unfold swept. do 5 (split; [reflexivity|]). split; [|tauto].
  intros r Hin _. split; [exact Hin | apply not_elem_of_nil].
Qed.

Lemma swept_cons id ids w w1 w2 :
  swept [id] w w1 -> swept ids w1 w2 -> swept (id :: ids) w w2.
Proof.
  intros (Hc1 & Hs1 & Hu1 & Hse1 & Hn1 & Ha1 & Hr1) (Hc2 & Hs2 & Hu2 & Hse2 & Hn2 & Ha2 & Hr2).
  unfold swept.
  split; [congruence|]. split; [congruence|]. split; [congruence|].
  split; [congruence|]. split; [congruence|]. split.
  - intros r Hin Hactive. destruct (Ha2 r Hin Hactive) as [Hin1 Hids].
    destruct (Ha1 r Hin1 Hactive) as [Hin0 Hid].
    split; [exact Hin0|]. intros Hmem. apply elem_of_cons in Hmem as [E|Hmem].
    + apply Hid. rewrite E. apply list_elem_of_here.
    + contradiction.
  - intros r Hr. rewrite Hr2, Hr1; [reflexivity| |].
    + intros Hmem. apply list_elem_of_singleton in Hmem. apply Hr. rewrite Hmem.
      apply list_elem_of_here.
    + intros Hmem. apply Hr. apply list_elem_of_further. exact Hmem.
Qed.

Lemma for_each_cleanup_swept ids : forall w : World,
  exists w', for_each ids Tasks.cleanup_sandbox w = (Ok tt, w') /\ swept ids w w'.
Proof.
  induction ids as [|id ids IH]; intros w.
  - exists w. split; [reflexivity | apply swept_nil].
  - destruct (cleanup_sandbox_swept id w) as (w1 & Hrun1 & Hs1).
    destruct (IH w1) as (w2 & Hrun2 & Hs2).
    exists w2. split; [|exact (swept_cons id ids w w1 w2 Hs1 Hs2)].
    cbn [for_each]. unfold bind. rewrite Hrun1. exact Hrun2.
Qed.

Lemma cleanups_fmap (l : list Sandbox.t) :
  cleanups ((fun sb => CleanupSandbox (Sandbox.id sb)) <$> l) = Sandbox.id <$> l.
Proof. induction l as [|sb l IH]; [reflexivity|]. cbn. f_equal. exact IH. Qed.

Lemma cleanups_app_notification (jobs : list job) message user_id to_all :
  cleanups (jobs ++ [SendNotification message user_id to_all]) = cleanups jobs.
Proof.
  unfold cleanups. rewrite omap_app. cbn. apply app_nil_r.
Qed.

(** X25: the hourly sweep of the player sandboxes.
    [destroy_non_static_sandboxes] queues one [cleanup_sandbox] per
    active sandbox of a non-static challenge that its owner has solved
    or that is two hours old, and changes nothing itself.  Once a worker
    has run the queued tasks, none of them has raised, no row of the
    sandbox table satisfies that selection any more, and the rows whose
    key was not selected are the ones that were there before. *)
Theorem destroy_non_static_sandboxes_clears (w : World) :
  exists jobs w',
    destroy_non_static_sandboxes w = (Ok jobs, w) /\
    cleanups jobs = Sandbox.id <$> to_destroy (now w) (db w) /\
    run_cleanups jobs w = (Ok tt, w') /\
    to_destroy (now w) (db w') = [] /\
    forall r, Sandbox.id r ∉ cleanups jobs ->
              r ∈ sandboxes (db w') <-> r ∈ sandboxes (db w).
Proof.
  set (jobs := (fun sb => CleanupSandbox (Sandbox.id sb)) <$> to_destroy (now w) (db w)).
  destruct (for_each_cleanup_swept (cleanups jobs) w)
    as (w' & Hrun & Hc & Hs & _ & _ & _ & Hactive & Hrest).
  exists jobs, w'. split; [reflexivity|].
  split; [apply cleanups_fmap|]. split; [exact Hrun|]. split; [|exact Hrest].
  destruct (to_destroy (now w) (db w')) as [|r l] eqn:Hsel; [reflexivity|].
  exfalso.
  assert (r ∈ to_destroy (now w) (db w')) as Hr by (rewrite Hsel; apply list_elem_of_here).
  unfold to_destroy in Hr. apply list_elem_of_filter in Hr as [(Ha & Hn & Hold) Hin].
  destruct (Hactive r Hin Ha) as [Hin0 Hout]. apply Hout.
  unfold jobs. rewrite cleanups_fmap. apply list_elem_of_fmap. exists r.
  split; [reflexivity|]. unfold to_destroy. apply list_elem_of_filter.
  split; [|exact Hin0]. split; [exact Ha|].
  unfold non_static, Db.get_challenge, solved_by_owner in *.
  rewrite Hc in Hn. rewrite Hs in Hold. auto.
Qed.

(** X26: banning a user.  When the stored row of the user is not
    banned and the row about to be saved is, [handle_user_ban] queues a
    [cleanup_sandbox] for each active sandbox of the user; once a worker
    has run them, the user has no active sandbox left and the sandboxes
    with other keys are untouched. *)
Theorem handle_user_ban_clears (instance old_instance : User.t) (w : World) :
  User.id instance <> 0 ->
  get_user (User.id instance) (db w) = Some old_instance ->
  User.banned old_instance = false ->
  User.banned instance = true ->
  exists jobs w',
    handle_user_ban instance w = (Ok jobs, w) /\
    run_cleanups jobs w = (Ok tt, w') /\
    Db.active_sandboxes_of (User.id instance) (db w') = [] /\
    forall r, Sandbox.id r ∉ cleanups jobs ->
              r ∈ sandboxes (db w') <-> r ∈ sandboxes (db w).
Proof.
  intros Hpk Hold Hwas Hnow.
  set (jobs := (fun sb => CleanupSandbox (Sandbox.id sb))
                 <$> Db.active_sandboxes_of (User.id instance) (db w)).
  destruct (for_each_cleanup_swept (cleanups jobs) w)
    as (w' & Hrun & _ & _ & _ & _ & _ & Hactive & Hrest).
  exists jobs, w'. split.
  { unfold handle_user_ban. apply Z.eqb_neq in Hpk. rewrite Hpk.
    unfold bind, gets. rewrite Hold, Hwas, Hnow. reflexivity. }
  split; [exact Hrun|]. split; [|exact Hrest].
  destruct (Db.active_sandboxes_of (User.id instance) (db w')) as [|r l] eqn:Hsel;
    [reflexivity|].
  exfalso.
  assert (r ∈ Db.active_sandboxes_of (User.id instance) (db w')) as Hr
    by (rewrite Hsel; apply list_elem_of_here).
  unfold Db.active_sandboxes_of in Hr.
  apply list_elem_of_filter in Hr as [(Hu & Ha) Hin].
  destruct (Hactive r Hin Ha) as [Hin0 Hout]. apply Hout.
  unfold jobs. rewrite cleanups_fmap. apply list_elem_of_fmap. exists r.
  split; [reflexivity|]. unfold Db.active_sandboxes_of. apply list_elem_of_filter. auto.
Qed.

Lemma handle_user_ban_clears_witness :
  exists jobs w',
    handle_user_ban (User.Make 7 "alice" "correct horse" true false true) Scenario.world
    = (Ok jobs, Scenario.world) /\
    run_cleanups jobs Scenario.world = (Ok tt, w') /\
    Db.active_sandboxes_of 7 (db w') = [] /\
    forall r, Sandbox.id r ∉ cleanups jobs ->
              r ∈ sandboxes (db w') <-> r ∈ sandboxes (db Scenario.world).
Proof.
  apply (handle_user_ban_clears (User.Make 7 "alice" "correct horse" true false true)
           Scenario.alice Scenario.world).
  - simpl. lia.
  - reflexivity.
  - reflexivity.
  - reflexivity.
Defined.

(** X27: taking a challenge off line.  When the stored row of the
    challenge is active and the row about to be saved is not,
    [handle_challenge_deactivation] queues a [cleanup_sandbox] for each
    active sandbox of the challenge, of whatever user, and after them
    one notification to everybody; once a worker has run the clean-ups,
    the challenge has no active sandbox left and the sandboxes with
    other keys are untouched. *)
Theorem handle_challenge_deactivation_clears (instance old_instance : Challenge.t)
    (w : World) :
  Challenge.id instance <> 0 ->
  Db.get_challenge (Challenge.id instance) (db w) = Some old_instance ->
  Challenge.active old_instance = true ->
  Challenge.active instance = false ->
  exists jobs w',
    handle_challenge_deactivation instance w = (Ok jobs, w) /\
    last jobs = Some (SendNotification
                        ("Challenge " +:+ Challenge.name instance +:+ " has been deactivated.")
                        None true) /\
    run_cleanups jobs w = (Ok tt, w') /\
    Db.active_sandboxes_for (Challenge.id instance) None (db w') = [] /\
    forall r, Sandbox.id r ∉ cleanups jobs ->
              r ∈ sandboxes (db w') <-> r ∈ sandboxes (db w).
Proof.
  intros Hpk Hold Hwas Hnow.
  set (note := SendNotification
                 ("Challenge " +:+ Challenge.name instance +:+ " has been deactivated.")
                 None true).
  set (jobs := (((fun sb => CleanupSandbox (Sandbox.id sb))
                   <$> Db.active_sandboxes_for (Challenge.id instance) None (db w))
                ++ [note])%list).
  destruct (for_each_cleanup_swept (cleanups jobs) w)
    as (w' & Hrun & _ & _ & _ & _ & _ & Hactive & Hrest).
  exists jobs, w'. split.
  { unfold handle_challenge_deactivation. apply Z.eqb_neq in Hpk. rewrite Hpk.
    unfold bind, gets. rewrite Hold, Hwas, Hnow. reflexivity. }
  split; [apply last_snoc|].
  split; [exact Hrun|]. split; [|exact Hrest].
  destruct (Db.active_sandboxes_for (Challenge.id instance) None (db w')) as [|r l] eqn:Hsel;
    [reflexivity|].
  exfalso.
  assert (r ∈ Db.active_sandboxes_for (Challenge.id instance) None (db w')) as Hr
    by (rewrite Hsel; apply list_elem_of_here).
  unfold Db.active_sandboxes_for in Hr.
  apply list_elem_of_filter in Hr as [(Hu & Ha) Hin].
  destruct (Hactive r Hin Ha) as [Hin0 Hout]. apply Hout.
  unfold jobs, note. rewrite cleanups_app_notification, cleanups_fmap.
  apply list_elem_of_fmap. exists r.
  split; [reflexivity|]. unfold Db.active_sandboxes_for. apply list_elem_of_filter. auto.
Qed.

Lemma handle_challenge_deactivation_clears_witness :
  exists jobs w',
    handle_challenge_deactivation
      (Challenge.Make 1 "Test" 100 "FLAG{test123}" false "Web" "xctf-Web:test" false None)
      Scenario.world = (Ok jobs, Scenario.world) /\
    last jobs = Some (SendNotification "Challenge Test has been deactivated." None true) /\
    run_cleanups jobs Scenario.world = (Ok tt, w') /\
    Db.active_sandboxes_for 1 None (db w') = [] /\
    forall r, Sandbox.id r ∉ cleanups jobs ->
              r ∈ sandboxes (db w') <-> r ∈ sandboxes (db Scenario.world).
Proof.
  apply (handle_challenge_deactivation_clears
           (Challenge.Make 1 "Test" 100 "FLAG{test123}" false "Web" "xctf-Web:test" false None)
           Scenario.web Scenario.world).
  - simpl. lia.
  - reflexivity.
  - reflexivity.
  - reflexivity.
Defined.

End SchedulingFacts.

(** ** Volumes *)

Module VolumeCycleFacts.

Import Utils.




End VolumeCycleFacts.

(** ** Start-up *)

Module StartupFacts.

Import Nft Firewall Hoare HoareFacts FirewallFrame FirewallFrameFacts FirewallStates.
Import ProvisionFacts Frame FrameFacts Apps StartupSpec.

Lemma quiet_fold_each {A B} (xs : list A) (body : A -> B -> M World B) :
  (forall x acc, quiet (body x acc)) -> forall acc, quiet (fold_each xs acc body).
Proof.
  intros Hbody. induction xs as [|x xs IH]; intros acc; simpl.
  - apply quiet_ret.
  - apply quiet_bind; [apply Hbody | intros acc'; apply IH].
Qed.

Lemma quiet_initialize_firewall_sync : quiet initialize_firewall_sync.
Proof.
  unfold initialize_firewall_sync.
  apply quiet_try_except; [|intros; apply quiet_ret].
  apply quiet_bind; [apply quiet_on_firewall|intros _].
  apply quiet_bind; [apply quiet_gets|intros active_sessions].
  apply quiet_bind.
  { apply quiet_fold_each. intros session acc.
    apply quiet_bind; [apply quiet_gets|intros active_sandboxes].
    apply quiet_fold_each. intros sc acc'. cbv zeta.
    destruct (negb (Challenge.static sc.2)); [|apply quiet_ret].
    apply quiet_bind; [apply quiet_on_firewall|intros _].
    apply quiet_fold_each. intros p acc''.
    apply quiet_bind; [apply quiet_on_firewall|intros _; apply quiet_ret]. }
  intros active_ports.
  apply quiet_bind; [apply quiet_gets|intros statics].
  apply quiet_bind.
  { apply quiet_fold_each. intros sb acc.
    apply quiet_bind; [apply quiet_on_firewall|intros _].
    apply quiet_fold_each. intros p acc'.
    apply quiet_bind; [apply quiet_on_firewall|intros _; apply quiet_ret]. }
  intros active_ports'.
  apply quiet_bind; [apply quiet_on_firewall|intros _; apply quiet_ret].
Qed.

Lemma bind_single {A B} (f : A -> B) (l : list A) : l ≫= (fun x => [f x]) = f <$> l.
Proof.
  induction l as [|x l IH]; [reflexivity|]. rewrite bind_cons, fmap_cons, IH. reflexivity.
Qed.

(** A loop whose every round puts the rules [f x] in place. *)
Lemma fold_each_rebuilt {A} (w : World) (f : A -> list rule_needed)
    (body : A -> gset Z -> M World (gset Z)) (xs : list A) :
  (forall x rs acc v, rebuilt w rs acc v ->
     exists acc' v', body x acc v = (Ok acc', v') /\ rebuilt w (rs ++ f x) acc' v') ->
  forall rs acc v, rebuilt w rs acc v ->
    exists acc' v', fold_each xs acc body v = (Ok acc', v') /\
                    rebuilt w (rs ++ (xs ≫= f)) acc' v'.
Proof.
  intros Hbody. induction xs as [|x xs IH]; intros rs acc v Hv.
  - exists acc, v. split; [reflexivity|]. simpl. rewrite app_nil_r. exact Hv.
  - destruct (Hbody x rs acc v Hv) as (acc1 & v1 & Hrun1 & Hv1).
    destruct (IH (rs ++ f x)%list acc1 v1 Hv1) as (acc2 & v2 & Hrun2 & Hv2).
    exists acc2, v2. split.
    + simpl. unfold bind. rewrite Hrun1. exact Hrun2.
    + change ((x :: xs) ≫= f) with (f x ++ (xs ≫= f))%list.
      rewrite app_assoc. exact Hv2.
Qed.

Lemma rebuilt_mapped w rs acc v port ip :
  rebuilt w rs acc v ->
  exists v',
    on_firewall (add_port_ip_mapping port ip) v = (Ok true, v') /\
    rebuilt w (rs ++ [Mapped port ip]) ({[port]} ∪ acc) v'.
Proof.
  intros (Hdb & Hs & Hrs).
  destruct (add_port_ip_mapping_serving port ip (firewall v) Hs)
    as (fs' & Hrun & Hs' & Hsta & Hsp & Hm).
  exists (MkWorld (db v) fs' (docker v) (volumes v) (locks v) (now v)). split.
  - unfold on_firewall, zoom. rewrite Hrun. reflexivity.
  - split; [exact Hdb|]. split; [exact Hs'|]. cbn [firewall].
    intros r Hr. apply elem_of_app in Hr as [Hr|Hr].
    + destruct (Hrs r Hr) as [Hin Hport]. split; [|set_solver].
      destruct r as [p i|p]; simpl in *.
      * rewrite Hsp, Hm. set_solver.
      * rewrite Hsta. exact Hin.
    + apply list_elem_of_singleton in Hr. subst r. simpl.
      rewrite Hsp, Hm. set_solver.
Qed.

Lemma rebuilt_static w rs acc v port :
  rebuilt w rs acc v ->
  exists v',
    on_firewall (add_static_port port) v = (Ok true, v') /\
    rebuilt w (rs ++ [Static port]) ({[port]} ∪ acc) v'.
Proof.
  intros (Hdb & Hs & Hrs).
  destruct (add_static_port_serving port (firewall v) Hs)
    as (fs' & Hrun & Hs' & Hsta & Hsp & Hm).
  exists (MkWorld (db v) fs' (docker v) (volumes v) (locks v) (now v)). split.
  - unfold on_firewall, zoom. rewrite Hrun. reflexivity.
  - split; [exact Hdb|]. split; [exact Hs'|]. cbn [firewall].
    intros r Hr. apply elem_of_app in Hr as [Hr|Hr].
    + destruct (Hrs r Hr) as [Hin Hport]. split; [|set_solver].
      destruct r as [p i|p]; simpl in *.
      * rewrite Hsp, Hm. exact Hin.
      * rewrite Hsta. set_solver.
    + apply list_elem_of_singleton in Hr. subst r. simpl.
      rewrite Hsta. set_solver.
Qed.

(** The rules of one sandbox of a session, and of one static sandbox. *)
Lemma rebuilt_sandbox w (mk : Z -> rule_needed) (op : Z -> M FirewallService bool)
    (sandbox : Sandbox.t) :
  (forall port rs acc v, rebuilt w rs acc v ->
     exists v', on_firewall (op port) v = (Ok true, v') /\
                rebuilt w (rs ++ [mk port]) ({[port]} ∪ acc) v') ->
  forall rs acc v, rebuilt w rs acc v ->
  exists acc' v',
    (on_firewall (op (Sandbox.container_port sandbox)) ;;;
     fold_each (ChallengeService.mapped_ports sandbox)
       ({[Sandbox.container_port sandbox]} ∪ acc)
       (fun port_int active_ports =>
          on_firewall (op port_int) ;;; ret ({[port_int]} ∪ active_ports))) v
    = (Ok acc', v') /\
    rebuilt w (rs ++ (mk <$> Tasks.ports_of_sandbox sandbox)) acc' v'.
Proof.
  intros Hop rs acc v Hv.
  destruct (Hop (Sandbox.container_port sandbox) rs acc v Hv) as (v1 & Hrun1 & Hv1).
  destruct (fold_each_rebuilt w (fun p => [mk p])
              (fun port_int active_ports =>
                 on_firewall (op port_int) ;;; ret ({[port_int]} ∪ active_ports))
              (ChallengeService.mapped_ports sandbox)) with
    (rs := (rs ++ [mk (Sandbox.container_port sandbox)])%list)
    (acc := ({[Sandbox.container_port sandbox]} ∪ acc : gset Z)) (v := v1)
    as (acc2 & v2 & Hrun2 & Hv2).
  { intros p rs' acc' v' Hv'. destruct (Hop p rs' acc' v' Hv') as (v'' & Hrun & Hv'').
    exists ({[p]} ∪ acc'), v''. split; [|exact Hv''].
    unfold bind. rewrite Hrun. reflexivity. }
  { exact Hv1. }
  exists acc2, v2. split.
  - unfold bind at 1. rewrite Hrun1. exact Hrun2.
  - unfold Tasks.ports_of_sandbox. rewrite fmap_cons.
    rewrite <- app_assoc in Hv2. simpl in Hv2.
    rewrite bind_single in Hv2. exact Hv2.
Qed.

Lemma initialize_firewall_sync_run (w : World) :
  working (firewall w) ->
  exists acc v,
    rebuilt w (rules_needed (db w)) acc v /\
    initialize_firewall_sync w
    = (Ok tt, state_of (on_firewall (clean_orphan_ports acc) v)).
Proof.
  intros Hw.
  destruct (initialize_working (firewall w) Hw) as (fs0 & Hinit & Hs0 & _).
  set (v0 := MkWorld (db w) fs0 (docker w) (volumes w) (locks w) (now w)).
  assert (rebuilt w [] ∅ v0) as Hv0.
  { split; [reflexivity|]. split; [exact Hs0|]. intros r Hr.
    apply elem_of_nil in Hr. contradiction. }
  set (per_sandbox := fun (session : UserSession.t) (sc : Sandbox.t * Challenge.t) =>
         if negb (Challenge.static sc.2)
         then (fun p => Mapped p (UserSession.ip_address session))
                <$> Tasks.ports_of_sandbox sc.1
         else []).
  set (per_session := fun session : UserSession.t =>
         Views.active_sandboxes (UserSession.user_id session) (db w)
           ≫= per_sandbox session).
  destruct (fold_each_rebuilt w per_session
              (fun session active_ports =>
                 active_sandboxes <- gets (fun w =>
                   Views.active_sandboxes (UserSession.user_id session) (db w)) ;;
                 fold_each active_sandboxes active_ports
                   (fun sc active_ports =>
                      let sandbox := sc.1 in
                      if negb (Challenge.static sc.2)
                      then
                        on_firewall (add_port_ip_mapping
                                       (Sandbox.container_port sandbox)
                                       (UserSession.ip_address session)) ;;;
                        fold_each (ChallengeService.mapped_ports sandbox)
                          ({[Sandbox.container_port sandbox]} ∪ active_ports)
                          (fun port_int active_ports =>
                             on_firewall (add_port_ip_mapping
                                            port_int (UserSession.ip_address session)) ;;;
                             ret ({[port_int]} ∪ active_ports))
                      else ret active_ports))
              (filter (fun s => UserSession.active s = true) (sessions (db w))))
    with (rs := @nil rule_needed) (acc := (∅ : gset Z)) (v := v0)
    as (acc1 & v1 & Hrun1 & Hv1).
  { intros session rs acc v Hv. unfold bind at 1, gets at 1.
    destruct Hv as (Hdb & Hrest). rewrite Hdb.
    apply (fold_each_rebuilt w (per_sandbox session)); [|exact (conj Hdb Hrest)].
    intros sc rs' acc' v' Hv'. cbv zeta. unfold per_sandbox.
    destruct (negb (Challenge.static sc.2)).
    - apply (rebuilt_sandbox w (fun p => Mapped p (UserSession.ip_address session))
               (fun p => add_port_ip_mapping p (UserSession.ip_address session)));
        [|exact Hv'].
      intros port rs'' acc'' v'' Hv''. apply rebuilt_mapped. exact Hv''.
    - exists acc', v'. split; [reflexivity|]. rewrite app_nil_r. exact Hv'. }
  { exact Hv0. }
  destruct (fold_each_rebuilt w (fun sb => Static <$> Tasks.ports_of_sandbox sb)
              (fun sandbox active_ports =>
                 on_firewall (add_static_port (Sandbox.container_port sandbox)) ;;;
                 fold_each (ChallengeService.mapped_ports sandbox)
                   ({[Sandbox.container_port sandbox]} ∪ active_ports)
                   (fun port_int active_ports =>
                      on_firewall (add_static_port port_int) ;;;
                      ret ({[port_int]} ∪ active_ports)))
              (static_sandboxes (db w)))
    with (rs := ([] ++ (filter (fun s => UserSession.active s = true) (sessions (db w))
                          ≫= per_session))%list) (acc := acc1) (v := v1)
    as (acc2 & v2 & Hrun2 & Hv2).
  { intros sb rs acc v Hv.
    apply (rebuilt_sandbox w Static add_static_port); [|exact Hv].
    intros port rs' acc' v' Hv'. apply rebuilt_static. exact Hv'. }
  { exact Hv1. }
  exists acc2, v2. split; [exact Hv2|].
  unfold initialize_firewall_sync, try_except.
  unfold bind at 1, on_firewall at 1, zoom at 1. rewrite Hinit. fold v0.
  unfold bind at 1, gets at 1. change (db v0) with (db w).
  unfold bind at 1. cbv zeta in Hrun1. rewrite Hrun1.
  unfold bind at 1, gets at 1. destruct Hv1 as (Hdb1 & _). rewrite Hdb1.
  unfold bind at 1. rewrite Hrun2.
  unfold bind, ret.
  destruct (on_firewall (clean_orphan_ports acc2) v2) as [[b|e] v3]; reflexivity.
Qed.



End StartupFacts.
